(** * opencmiss.maths.vectorops: Python lists used as vectors and matrices

    A shallow embedding of [src/opencmiss/maths/vectorops.py].

    - Python exceptions are values of [exn]; a call that can raise returns a
      [result].
    - The numbers a list holds are kept abstract behind the class [Number]:
      the arithmetic of the host language, with [/] raising
      [ZeroDivisionError] on a zero divisor as Python's true division does.
    - The functions imported from [math] (sqrt, cos, sin, fabs, atan2) are
      parameters of the functions that call them.  [math.cos] and [math.sin]
      raise ValueError on an infinity: where they are applied to an angle
      the caller gives, the call goes through [trig], which raises it.
      Where they are applied to a value of [atan2], which is no infinity,
      and where [math.sqrt] is applied to a sum of squares, which is not
      negative, the function is applied as it is.
    - Two instances are given: IEEE binary64 ([float]) for the arithmetic and
      the real numbers ([R]) with the real trigonometric functions.
    - The module is embedded twice.  [vectorops] takes lists as values, which
      is enough for what a call returns or raises.  [Heap] keeps every list
      at a location of a store and threads the store through the call, with
      the aliasing the source has; it is what the statements about mutation
      and sharing are about, and it is shown to return what [vectorops]
      returns. *)

From Stdlib Require Import ZArith Reals Lra Lia String.
From Stdlib Require Import Floats.
From stdpp Require Import gmap list.

Set Default Proof Using "Type".

(** ** Exceptions *)

Inductive exn : Type :=
  | ValueError (msg : string)
  | ZeroDivisionError
  | IndexError
  | TypeError.

Inductive result (A : Type) : Type :=
  | Ok (a : A)
  | Raise (e : exn).

Arguments Ok {A} a.
Arguments Raise {A} e.

Definition bind {A B : Type} (m : result A) (k : A -> result B) : result B :=
  match m with
  | Ok a => k a
  | Raise e => Raise e
  end.

Declare Scope result_scope.
Delimit Scope result_scope with result.
Notation "x <- m ;; k" := (bind m (fun x => k))
  (at level 100, m at next level, right associativity) : result_scope.
Open Scope result_scope.

(** A list comprehension or generator whose body can raise: the elements are
    produced left to right and the first exception ends the evaluation. *)
Fixpoint mapM {A B : Type} (f : A -> result B) (l : list A) : result (list B) :=
  match l with
  | [] => Ok []
  | x :: l' => y <- f x ;; ys <- mapM f l' ;; Ok (y :: ys)
  end.

(** A [for] loop over a range, threading the variables the body assigns. *)
Fixpoint foldM {S A : Type} (body : S -> A -> result S) (s : S) (l : list A)
  : result S :=
  match l with
  | [] => Ok s
  | x :: l' => s' <- body s x ;; foldM body s' l'
  end.

(** [l[i]] for an index [i >= 0]. *)
Definition index {A : Type} (l : list A) (i : nat) : result A :=
  match l !! i with
  | Some x => Ok x
  | None => Raise IndexError
  end.

(** [l[i] = x] for an index [i >= 0]. *)
Definition setitem {A : Type} (l : list A) (i : nat) (x : A) : result (list A) :=
  match l !! i with
  | Some _ => Ok (<[i:=x]> l)
  | None => Raise IndexError
  end.

(** [m[i][j]] *)
Definition index2 {A : Type} (m : list (list A)) (i j : nat) : result A :=
  row <- index m i ;; index row j.

(** [range(n)] for a Python int [n]: empty when [n <= 0]. *)
Definition range (n : Z) : list nat := seq 0 (Z.to_nat n).

(** [qw, qx, qy, qz = l] *)
Definition unpack4 {A : Type} (l : list A) : result (A * A * A * A) :=
  match l with
  | [a; b; c; d] => Ok (a, b, c, d)
  | _ =>
      if decide (length l < 4)%nat
      then Raise (ValueError "not enough values to unpack")
      else Raise (ValueError "too many values to unpack")
  end.

(** ** Numbers *)

Class Number (num : Type) : Type := {
  int_0 : num;                      (* the literal 0, also where sum() starts *)
  int_2 : num;                      (* the literal 2 *)
  float_0 : num;                    (* the literal 0.0 *)
  float_1Em12 : num;                (* the literal 1.0E-12 *)
  num_add : num -> num -> num;
  num_sub : num -> num -> num;
  num_mul : num -> num -> num;
  num_neg : num -> num;
  num_quot : num -> num -> num;     (* x / y for a divisor that is not zero *)
  num_is_zero : num -> bool;        (* y == 0 *)
  num_gt : num -> num -> bool;      (* x > y *)
  num_is_inf : num -> bool;         (* math.isinf(x) *)
  int_2_not_zero : num_is_zero int_2 = false
}.

Declare Scope num_scope.
Delimit Scope num_scope with num.
Infix "+" := num_add : num_scope.
Infix "-" := num_sub : num_scope.
Infix "*" := num_mul : num_scope.
Notation "- x" := (num_neg x) : num_scope.

(** Python's [x / y]. *)
Definition truediv {num : Type} `{Number num} (x y : num) : result num :=
  if num_is_zero y then Raise ZeroDivisionError else Ok (num_quot x y).

(** [math.cos(x)] and [math.sin(x)]: an infinity is outside the domain. *)
Definition math_domain_error : exn := ValueError "math domain error".

Definition trig {num : Type} `{Number num} (f : num -> num) (x : num)
  : result num :=
  if num_is_inf x then Raise math_domain_error else Ok (f x).

(** Python's builtin [sum]: accumulates from 0, left to right. *)
Definition builtin_sum {num : Type} `{Number num} (l : list num) : num :=
  foldl num_add int_0 l.

(** ** The iterator protocol of the builtin [zip] *)

(** One round of [zip]: [next()] on every iterator in order; [None] as soon as
    one of them is exhausted. *)
Fixpoint zip_next {A : Type} (its : list (list A))
  : option (list A * list (list A)) :=
  match its with
  | [] => Some ([], [])
  | it :: rest =>
      match it with
      | [] => None
      | x :: it' =>
          match zip_next rest with
          | Some (xs, rest') => Some (x :: xs, it' :: rest')
          | None => None
          end
      end
  end.

Fixpoint zip_loop {A : Type} (fuel : nat) (its : list (list A))
  : list (list A) :=
  match fuel with
  | O => []
  | S fuel' =>
      match zip_next its with
      | Some (t, its') => t :: zip_loop fuel' its'
      | None => []
      end
  end.

(** [zip] applied to the rows of [a]: no tuple at all without arguments;
    otherwise rounds until an iterator is exhausted, which the first one is
    after [len(a[0])] rounds. *)
Definition builtin_zip {A : Type} (a : list (list A)) : list (list A) :=
  match a with
  | [] => []
  | it :: _ => zip_loop (length it) a
  end.

(** [list(t)] of a tuple [t]. *)
Definition builtin_list {A : Type} (t : list A) : list A := t.

(** ** Dynamically typed arguments of [reshape] *)

Unset Elimination Schemes.
Inductive pyobj (A : Type) : Type :=
  | Item (x : A)
  | PyList (l : list (pyobj A)).
Set Elimination Schemes.

Arguments Item {A} x.
Arguments PyList {A} l.

Inductive shape : Type :=
  | ShapeTuple (dims : list Z)      (* isinstance(new_shape, tuple) *)
  | ShapeInt (n : Z)                (* isinstance(new_shape, int) *)
  | ShapeOther.                     (* anything else *)

(** [a[i]] and iteration over [a] for an argument of unknown type. *)
Definition getitem {A : Type} (a : pyobj A) (i : nat) : result (pyobj A) :=
  match a with
  | PyList l => index l i
  | Item _ => Raise TypeError
  end.

Definition iter {A : Type} (a : pyobj A) : result (list (pyobj A)) :=
  match a with
  | PyList l => Ok l
  | Item _ => Raise TypeError
  end.

Definition of_vector {A : Type} (v : list A) : pyobj A :=
  PyList (map Item v).

Definition of_matrix {A : Type} (m : list (list A)) : pyobj A :=
  PyList (map of_vector m).

(** ** The module *)

Module vectorops.

Section WithNumber.

Context {num : Type} `{Number num}.

(** [from math import sqrt, cos, sin, fabs, atan2] *)
Variables (sqrt cos sin fabs : num -> num) (atan2 : num -> num -> num).

Local Open Scope num_scope.

Definition magnitude (v : list num) : result num :=
  terms <- mapM (fun i => x <- index v i ;; y <- index v i ;; Ok (x * y))
                (seq 0 (length v)) ;;
  Ok (sqrt (builtin_sum terms)).

Definition add (u v : list num) : result (list num) :=
  mapM (fun i => x <- index u i ;; y <- index v i ;; Ok (x + y))
       (seq 0 (length u)).

Definition sub (u v : list num) : result (list num) :=
  mapM (fun i => x <- index u i ;; y <- index v i ;; Ok (x - y))
       (seq 0 (length u)).

Definition dot (u v : list num) : result num :=
  terms <- mapM (fun i => x <- index u i ;; y <- index v i ;; Ok (x * y))
                (seq 0 (length u)) ;;
  Ok (builtin_sum terms).

Definition eldiv (u v : list num) : result (list num) :=
  mapM (fun i => x <- index u i ;; y <- index v i ;; truediv x y)
       (seq 0 (length u)).

Definition elmult (u v : list num) : result (list num) :=
  mapM (fun i => x <- index u i ;; y <- index v i ;; Ok (x * y))
       (seq 0 (length u)).

Definition normalize (v : list num) : result (list num) :=
  vmag <- magnitude v ;;
  mapM (fun i => x <- index v i ;; truediv x vmag) (seq 0 (length v)).

Definition cross (u v : list num) : result (list num) :=
  u1 <- index u 1 ;; v2 <- index v 2 ;; u2 <- index u 2 ;; v1 <- index v 1 ;;
  let c0 := u1 * v2 - u2 * v1 in
  u2 <- index u 2 ;; v0 <- index v 0 ;; u0 <- index u 0 ;; v2 <- index v 2 ;;
  let c1 := u2 * v0 - u0 * v2 in
  u0 <- index u 0 ;; v1 <- index v 1 ;; u1 <- index u 1 ;; v0 <- index v 0 ;;
  let c2 := u0 * v1 - u1 * v0 in
  Ok [c0; c1; c2].

Definition mult (u : list num) (c : num) : result (list num) :=
  mapM (fun i => x <- index u i ;; Ok (x * c)) (seq 0 (length u)).

Definition div (u : list num) (c : num) : result (list num) :=
  mapM (fun i => x <- index u i ;; truediv x c) (seq 0 (length u)).

(** This method takes a quaternion representing a rotation and turns it into
    a rotation matrix. *)
Definition quaternion_to_rotation_matrix (quaternion : list num)
  : result (list (list num)) :=
  mag_q <- magnitude quaternion ;;
  norm_q <- div quaternion mag_q ;;
  q <- unpack4 norm_q ;;
  let '(qw, qx, qy, qz) := q in
  let mx :=
    [[qw * qw + qx * qx - qy * qy - qz * qz;
      int_2 * qx * qy - int_2 * qw * qz;
      int_2 * qx * qz + int_2 * qw * qy];
     [int_2 * qx * qy + int_2 * qw * qz;
      qw * qw - qx * qx + qy * qy - qz * qz;
      int_2 * qy * qz - int_2 * qw * qx];
     [int_2 * qx * qz - int_2 * qw * qy;
      int_2 * qy * qz + int_2 * qw * qx;
      qw * qw - qx * qx - qy * qy + qz * qz]] in
  Ok mx.

(** Multiply components of matrix m by constant c *)
Definition matrix_constant_mult (m : list (list num)) (c : num)
  : result (list (list num)) :=
  mapM (fun row_m => mult row_m c) m.

(** Post multiply matrix m by vector v *)
Definition matrix_vector_mult (m : list (list num)) (v : list num)
  : result (list num) :=
  mapM (fun row_m => dot row_m v) m.

Definition mismatched_rows : exn :=
  ValueError "vector_matrix_mult mismatched rows".

(** Premultiply matrix m by vector v *)
Definition vector_matrix_mult (v : list num) (m : list (list num))
  : result (list num) :=
  let rows := length m in
  if decide (length v <> rows) then Raise mismatched_rows else
  m0 <- index m 0 ;;
  let columns := length m0 in
  foldM (fun result c =>
           terms <- mapM (fun r => vr <- index v r ;; mrc <- index2 m r c ;;
                                   Ok (vr * mrc))
                         (seq 0 rows) ;;
           Ok (result ++ [builtin_sum terms]))
        [] (seq 0 columns).

(** Multiply 2 matrices: first index is down row, second is across column.
    Assumes sizes are compatible (number of columns of a == number of rows
    of b). *)
Definition matrix_mult (a b : list (list num)) : result (list (list num)) :=
  mapM (fun row_a => vector_matrix_mult row_a b) a.

(** Both branches on [sys.version_info] build the same list of lists. *)
Definition transpose {A : Type} (a : list (list A)) : list (list A) :=
  map builtin_list (builtin_zip a).

(** Matrix is product RzRyRx, giving rotation about x, then y, then z with
    positive angles rotating by right hand rule about axis. *)
Definition euler_to_rotation_matrix (euler_angles : list num)
  : result (list (list num)) :=
  e0 <- index euler_angles 0 ;; cos_azimuth <- trig cos e0 ;;
  e0 <- index euler_angles 0 ;; sin_azimuth <- trig sin e0 ;;
  e1 <- index euler_angles 1 ;; cos_elevation <- trig cos e1 ;;
  e1 <- index euler_angles 1 ;; sin_elevation <- trig sin e1 ;;
  e2 <- index euler_angles 2 ;; cos_roll <- trig cos e2 ;;
  e2 <- index euler_angles 2 ;; sin_roll <- trig sin e2 ;;
  let mat3x3 :=
    [[cos_azimuth * cos_elevation;
      cos_azimuth * sin_elevation * sin_roll - sin_azimuth * cos_roll;
      cos_azimuth * sin_elevation * cos_roll + sin_azimuth * sin_roll];
     [sin_azimuth * cos_elevation;
      sin_azimuth * sin_elevation * sin_roll + cos_azimuth * cos_roll;
      sin_azimuth * sin_elevation * cos_roll - cos_azimuth * sin_roll];
     [- sin_elevation; cos_elevation * sin_roll; cos_elevation * cos_roll]] in
  Ok mat3x3.

(** Inverse function to euler_to_rotation_matrix. *)
Definition rotation_matrix_to_euler (matrix : list (list num))
  : result (list num) :=
  let MATRIX_TO_EULER_TOLERANCE := float_1Em12 in
  let euler_angles := [float_0; float_0; float_0] in
  m00 <- index2 matrix 0 0 ;;
  if num_gt (fabs m00) MATRIX_TO_EULER_TOLERANCE then
    m10 <- index2 matrix 1 0 ;; m00 <- index2 matrix 0 0 ;;
    euler_angles <- setitem euler_angles 0 (atan2 m10 m00) ;;
    m21 <- index2 matrix 2 1 ;; m22 <- index2 matrix 2 2 ;;
    euler_angles <- setitem euler_angles 2 (atan2 m21 m22) ;;
    m20 <- index2 matrix 2 0 ;; m00 <- index2 matrix 0 0 ;;
    e0 <- index euler_angles 0 ;;
    d <- truediv m00 (cos e0) ;;
    euler_angles <- setitem euler_angles 1 (atan2 (- m20) d) ;;
    Ok euler_angles
  else
    m01 <- index2 matrix 0 1 ;;
    if num_gt (fabs m01) MATRIX_TO_EULER_TOLERANCE then
      m10 <- index2 matrix 1 0 ;; m00 <- index2 matrix 0 0 ;;
      euler_angles <- setitem euler_angles 0 (atan2 m10 m00) ;;
      m21 <- index2 matrix 2 1 ;; m22 <- index2 matrix 2 2 ;;
      euler_angles <- setitem euler_angles 2 (atan2 m21 m22) ;;
      m20 <- index2 matrix 2 0 ;; m10 <- index2 matrix 1 0 ;;
      e0 <- index euler_angles 0 ;;
      d <- truediv m10 (sin e0) ;;
      euler_angles <- setitem euler_angles 1 (atan2 (- m20) d) ;;
      Ok euler_angles
    else
      m20 <- index2 matrix 2 0 ;;
      euler_angles <- setitem euler_angles 1 (atan2 (- m20) int_0) ;;
      euler_angles <- setitem euler_angles 0 int_0 ;;
      m12 <- index2 matrix 1 2 ;; m02 <- index2 matrix 0 2 ;;
      m20 <- index2 matrix 2 0 ;;
      euler_angles <- setitem euler_angles 2 (atan2 (- m12) (- m02 * m20)) ;;
      Ok euler_angles.

Definition axis_angle_to_quaternion (axis : list num) (angle : num)
  : result (list num) :=
  half <- truediv angle int_2 ;;
  sin_half_angle <- trig sin half ;;
  half <- truediv angle int_2 ;;
  cos_half_angle <- trig cos half ;;
  a0 <- index axis 0 ;; a1 <- index axis 1 ;; a2 <- index axis 2 ;;
  Ok [cos_half_angle; a0 * sin_half_angle; a1 * sin_half_angle;
      a2 * sin_half_angle].

Definition axis_angle_to_rotation_matrix (axis : list num) (angle : num)
  : result (list (list num)) :=
  q <- axis_angle_to_quaternion axis angle ;;
  quaternion_to_rotation_matrix q.

End WithNumber.

(** [reshape] does no arithmetic: the elements are of any type. *)
Definition reshape {A : Type} (a : pyobj A) (new_shape : shape)
  : result (pyobj A) :=
  let b := [] in
  match new_shape with
  | ShapeTuple dims =>
      let index_ := 0%nat in
      rows <- index dims 0 ;;
      st <- foldM (fun (st : list (pyobj A) * nat) (x : nat) =>
                     let '(b, index_) := st in
                     let row := [] in
                     cols <- index dims 1 ;;
                     st' <- foldM (fun (st' : list (pyobj A) * nat) (y : nat) =>
                                     let '(row, index_) := st' in
                                     item <- getitem a index_ ;;
                                     Ok (row ++ [item], S index_))
                                  (row, index_) (range cols) ;;
                     let '(row, index_) := st' in
                     Ok (b ++ [PyList row], index_))
                  (b, index_) (range rows) ;;
      Ok (PyList (fst st))
  | ShapeInt n =>
      sublists <- iter a ;;
      items <- mapM iter sublists ;;
      let flat_list := concat items in
      if decide (0 <= n < Z.of_nat (length flat_list))%Z
      then Ok (PyList (take (Z.to_nat n) flat_list))
      else Ok (PyList flat_list)
  | ShapeOther => Ok (PyList b)
  end.

(** legacy function names *)
Abbreviation rotmx := quaternion_to_rotation_matrix.
Abbreviation mxconstantmult := matrix_constant_mult.
Abbreviation mxvectormult := matrix_vector_mult.
Abbreviation vectormxmult := vector_matrix_mult.
Abbreviation vectormatrixmult := vector_matrix_mult.
Abbreviation mxmult := matrix_mult.
Abbreviation matrixmult := matrix_mult.
Abbreviation eulerToRotationMatrix3 := euler_to_rotation_matrix.
Abbreviation rotationMatrix3ToEuler := rotation_matrix_to_euler.
Abbreviation axisAngleToQuaternion := axis_angle_to_quaternion.
Abbreviation axisAngleToRotationMatrix := axis_angle_to_rotation_matrix.

End vectorops.

(** ** Python floats: IEEE binary64 *)

#[export] Instance float_Number : Number float := {|
  int_0 := 0%float;
  int_2 := 2%float;
  float_0 := 0%float;
  float_1Em12 := 0x1.19799812dea11p-40%float;
  num_add := PrimFloat.add;
  num_sub := PrimFloat.sub;
  num_mul := PrimFloat.mul;
  num_neg := PrimFloat.opp;
  num_quot := PrimFloat.div;
  num_is_zero := fun y => PrimFloat.eqb y 0%float;
  num_gt := fun x y => PrimFloat.ltb y x;
  num_is_inf := PrimFloat.is_infinity;
  int_2_not_zero := eq_refl
|}.

(** NaN or an infinity: what a division by zero yields where it does not
    raise. *)
Definition is_anomaly (x : float) : bool :=
  PrimFloat.is_nan x || PrimFloat.is_infinity x.

(** ** Real numbers: exact arithmetic *)

Definition R_is_zero (y : R) : bool := if Req_dec_T y 0 then true else false.

Definition R_gt (x y : R) : bool := if Rgt_dec x y then true else false.

#[export] Instance R_Number : Number R.
Proof.
  refine {|
    int_0 := 0%R;
    int_2 := 2%R;
    float_0 := 0%R;
    float_1Em12 := (/ 10 ^ 12)%R;
    num_add := Rplus;
    num_sub := Rminus;
    num_mul := Rmult;
    num_neg := Ropp;
    num_quot := Rdiv;
    num_is_zero := R_is_zero;
    num_gt := R_gt;
    num_is_inf := fun _ => false;
    int_2_not_zero := _
  |}.
  unfold R_is_zero. destruct (Req_dec_T 2 0); [lra | reflexivity].
Defined.

(** [math.atan2(y, x)]: the angle in (-pi, pi] of the vector (x, y), and 0 at
    the origin.  The reals have one zero: the sign of a zero, which
    [math.atan2] reads on floats, has no counterpart here. *)
Definition R_atan2 (y x : R) : R :=
  if Rlt_dec 0 x then atan (y / x)
  else if Rlt_dec x 0 then
    if Rle_dec 0 y then (atan (y / x) + PI)%R else (atan (y / x) - PI)%R
  else if Rlt_dec 0 y then (PI / 2)%R
  else if Rlt_dec y 0 then (- (PI / 2))%R
  else 0%R.

(** ** The store: Python lists as mutable objects *)

(** A list object lives at a location of the store and holds numbers, which
    are immutable, or references to other list objects. *)
Definition loc : Type := positive.

Inductive val (num : Type) : Type :=
  | VNum (x : num)
  | VRef (l : loc).

Arguments VNum {num} x.
Arguments VRef {num} l.

(** The store maps the locations in use to the list objects. *)
Abbreviation heap num := (gmap loc (list (val num))).

Module Heap.

Section Monad.

Context {num : Type}.

Abbreviation heap := (heap num).

(** A computation on the store: it ends in a value or an exception, and in
    a store. *)
Definition M (A : Type) : Type := heap -> result A * heap.

Definition ret {A : Type} (a : A) : M A := fun h => (Ok a, h).

Definition bind {A B : Type} (m : M A) (k : A -> M B) : M B :=
  fun h =>
    match m h with
    | (Ok a, h') => k a h'
    | (Raise e, h') => (Raise e, h')
    end.

(** A step that does not touch the store. *)
Definition lift {A : Type} (r : result A) : M A := fun h => (r, h).

(** A list display or comprehension builds a new list object. *)
Definition alloc (l : list (val num)) : M loc :=
  fun h => let r := fresh (dom h) in (Ok r, <[r:=l]> h).

Definition load (r : loc) : M (list (val num)) :=
  fun h =>
    match h !! r with
    | Some l => (Ok l, h)
    | None => (Raise TypeError, h)
    end.

Definition store (r : loc) (l : list (val num)) : M unit :=
  fun h => (Ok tt, <[r:=l]> h).

(** Arithmetic needs a number and indexing needs a list: the other kind of
    value is a TypeError. *)
Definition as_num (v : val num) : M num :=
  match v with
  | VNum x => ret x
  | VRef _ => lift (Raise TypeError)
  end.

Definition as_ref (v : val num) : M loc :=
  match v with
  | VRef r => ret r
  | VNum _ => lift (Raise TypeError)
  end.

End Monad.

Declare Scope heap_scope.
Delimit Scope heap_scope with heap.
Notation "x <- m ;; k" := (bind m (fun x => k))
  (at level 100, m at next level, right associativity) : heap_scope.

Section Operations.

Context {num : Type} `{Number num}.

Abbreviation val := (val num).
Abbreviation M := (@M num).

Local Open Scope heap_scope.

Fixpoint mapM {A B : Type} (f : A -> M B) (l : list A) : M (list B) :=
  match l with
  | [] => ret []
  | x :: l' => y <- f x ;; ys <- mapM f l' ;; ret (y :: ys)
  end.

Fixpoint foldM {S A : Type} (body : S -> A -> M S) (s : S) (l : list A)
  : M S :=
  match l with
  | [] => ret s
  | x :: l' => s' <- body s x ;; foldM body s' l'
  end.

(** [len(r)] *)
Definition len (r : loc) : M nat := l <- load r ;; ret (length l).

(** [r[i]] *)
Definition getitem (r : loc) (i : nat) : M val :=
  l <- load r ;; lift (index l i).

(** [r[i]] where a number is needed, and where a list is. *)
Definition getnum (r : loc) (i : nat) : M num := v <- getitem r i ;; as_num v.

Definition getref (r : loc) (i : nat) : M loc := v <- getitem r i ;; as_ref v.

(** [m[i][j]] *)
Definition getnum2 (m : loc) (i j : nat) : M num :=
  row <- getref m i ;; getnum row j.

(** [r[i] = v] and [r.append(v)] change the object at [r]. *)
Definition setitem (r : loc) (i : nat) (v : val) : M unit :=
  l <- load r ;; l' <- lift (setitem l i v) ;; store r l'.

Definition append (r : loc) (v : val) : M unit :=
  l <- load r ;; store r (l ++ [v]).

(** A display [[[...], [...], [...]]] of rows of numbers: the rows are built
    in order, then the outer list. *)
Definition alloc_matrix (rows : list (list num)) : M loc :=
  rs <- mapM (fun row => alloc (VNum <$> row)) rows ;;
  alloc (VRef <$> rs).

Variables (sqrt cos sin fabs : num -> num) (atan2 : num -> num -> num).

Local Open Scope num_scope.

Definition magnitude (v : loc) : M num :=
  n <- len v ;;
  terms <- mapM (fun i => x <- getnum v i ;; y <- getnum v i ;; ret (x * y))
                (seq 0 n) ;;
  ret (sqrt (builtin_sum terms)).

Definition add (u v : loc) : M loc :=
  n <- len u ;;
  zs <- mapM (fun i => x <- getnum u i ;; y <- getnum v i ;; ret (x + y))
             (seq 0 n) ;;
  alloc (VNum <$> zs).

Definition sub (u v : loc) : M loc :=
  n <- len u ;;
  zs <- mapM (fun i => x <- getnum u i ;; y <- getnum v i ;; ret (x - y))
             (seq 0 n) ;;
  alloc (VNum <$> zs).

Definition dot (u v : loc) : M num :=
  n <- len u ;;
  terms <- mapM (fun i => x <- getnum u i ;; y <- getnum v i ;; ret (x * y))
                (seq 0 n) ;;
  ret (builtin_sum terms).

Definition eldiv (u v : loc) : M loc :=
  n <- len u ;;
  zs <- mapM (fun i => x <- getnum u i ;; y <- getnum v i ;;
                       lift (truediv x y))
             (seq 0 n) ;;
  alloc (VNum <$> zs).

Definition elmult (u v : loc) : M loc :=
  n <- len u ;;
  zs <- mapM (fun i => x <- getnum u i ;; y <- getnum v i ;; ret (x * y))
             (seq 0 n) ;;
  alloc (VNum <$> zs).

Definition normalize (v : loc) : M loc :=
  vmag <- magnitude v ;;
  n <- len v ;;
  zs <- mapM (fun i => x <- getnum v i ;; lift (truediv x vmag)) (seq 0 n) ;;
  alloc (VNum <$> zs).

Definition cross (u v : loc) : M loc :=
  u1 <- getnum u 1 ;; v2 <- getnum v 2 ;; u2 <- getnum u 2 ;;
  v1 <- getnum v 1 ;;
  let c0 := u1 * v2 - u2 * v1 in
  u2 <- getnum u 2 ;; v0 <- getnum v 0 ;; u0 <- getnum u 0 ;;
  v2 <- getnum v 2 ;;
  let c1 := u2 * v0 - u0 * v2 in
  u0 <- getnum u 0 ;; v1 <- getnum v 1 ;; u1 <- getnum u 1 ;;
  v0 <- getnum v 0 ;;
  let c2 := u0 * v1 - u1 * v0 in
  c <- alloc [VNum c0; VNum c1; VNum c2] ;;
  ret c.

Definition mult (u : loc) (c : num) : M loc :=
  n <- len u ;;
  zs <- mapM (fun i => x <- getnum u i ;; ret (x * c)) (seq 0 n) ;;
  alloc (VNum <$> zs).

Definition div (u : loc) (c : num) : M loc :=
  n <- len u ;;
  zs <- mapM (fun i => x <- getnum u i ;; lift (truediv x c)) (seq 0 n) ;;
  alloc (VNum <$> zs).

Definition quaternion_to_rotation_matrix (quaternion : loc) : M loc :=
  mag_q <- magnitude quaternion ;;
  norm_q <- div quaternion mag_q ;;
  items <- load norm_q ;;
  q <- lift (unpack4 items) ;;
  let '(qw, qx, qy, qz) := q in
  qw <- as_num qw ;; qx <- as_num qx ;; qy <- as_num qy ;; qz <- as_num qz ;;
  mx <- alloc_matrix
    [[qw * qw + qx * qx - qy * qy - qz * qz;
      int_2 * qx * qy - int_2 * qw * qz;
      int_2 * qx * qz + int_2 * qw * qy];
     [int_2 * qx * qy + int_2 * qw * qz;
      qw * qw - qx * qx + qy * qy - qz * qz;
      int_2 * qy * qz - int_2 * qw * qx];
     [int_2 * qx * qz - int_2 * qw * qy;
      int_2 * qy * qz + int_2 * qw * qx;
      qw * qw - qx * qx - qy * qy + qz * qz]] ;;
  ret mx.

Definition matrix_constant_mult (m : loc) (c : num) : M loc :=
  rows <- load m ;;
  rs <- mapM (fun row_m => r <- as_ref row_m ;; mult r c) rows ;;
  alloc (VRef <$> rs).

Definition matrix_vector_mult (m v : loc) : M loc :=
  rows <- load m ;;
  zs <- mapM (fun row_m => r <- as_ref row_m ;; dot r v) rows ;;
  alloc (VNum <$> zs).

Definition vector_matrix_mult (v m : loc) : M loc :=
  rows <- len m ;;
  len_v <- len v ;;
  if decide (len_v <> rows) then lift (Raise vectorops.mismatched_rows) else
  m0 <- getref m 0 ;;
  columns <- len m0 ;;
  result <- alloc [] ;;
  _ <- foldM (fun (_ : unit) c =>
                terms <- mapM (fun r => vr <- getnum v r ;;
                                        mrc <- getnum2 m r c ;;
                                        ret (vr * mrc))
                              (seq 0 rows) ;;
                append result (VNum (builtin_sum terms)))
             tt (seq 0 columns) ;;
  ret result.

Definition matrix_mult (a b : loc) : M loc :=
  rows <- load a ;;
  rs <- mapM (fun row_a => r <- as_ref row_a ;; vector_matrix_mult r b) rows ;;
  alloc (VRef <$> rs).

Definition transpose (a : loc) : M loc :=
  rows <- load a ;;
  its <- mapM (fun row => r <- as_ref row ;; load r) rows ;;
  cols <- mapM (fun t => alloc (builtin_list t)) (builtin_zip its) ;;
  alloc (VRef <$> cols).

Definition euler_to_rotation_matrix (euler_angles : loc) : M loc :=
  e0 <- getnum euler_angles 0 ;; cos_azimuth <- lift (trig cos e0) ;;
  e0 <- getnum euler_angles 0 ;; sin_azimuth <- lift (trig sin e0) ;;
  e1 <- getnum euler_angles 1 ;; cos_elevation <- lift (trig cos e1) ;;
  e1 <- getnum euler_angles 1 ;; sin_elevation <- lift (trig sin e1) ;;
  e2 <- getnum euler_angles 2 ;; cos_roll <- lift (trig cos e2) ;;
  e2 <- getnum euler_angles 2 ;; sin_roll <- lift (trig sin e2) ;;
  mat3x3 <- alloc_matrix
    [[cos_azimuth * cos_elevation;
      cos_azimuth * sin_elevation * sin_roll - sin_azimuth * cos_roll;
      cos_azimuth * sin_elevation * cos_roll + sin_azimuth * sin_roll];
     [sin_azimuth * cos_elevation;
      sin_azimuth * sin_elevation * sin_roll + cos_azimuth * cos_roll;
      sin_azimuth * sin_elevation * cos_roll - cos_azimuth * sin_roll];
     [- sin_elevation; cos_elevation * sin_roll; cos_elevation * cos_roll]] ;;
  ret mat3x3.

(** What the three branches do to the list [euler_angles]. *)
Definition rotation_matrix_to_euler_branches (matrix euler_angles : loc)
  : M unit :=
  let MATRIX_TO_EULER_TOLERANCE := float_1Em12 in
  m00 <- getnum2 matrix 0 0 ;;
  if num_gt (fabs m00) MATRIX_TO_EULER_TOLERANCE then
    m10 <- getnum2 matrix 1 0 ;; m00 <- getnum2 matrix 0 0 ;;
    _ <- setitem euler_angles 0 (VNum (atan2 m10 m00)) ;;
    m21 <- getnum2 matrix 2 1 ;; m22 <- getnum2 matrix 2 2 ;;
    _ <- setitem euler_angles 2 (VNum (atan2 m21 m22)) ;;
    m20 <- getnum2 matrix 2 0 ;; m00 <- getnum2 matrix 0 0 ;;
    e0 <- getnum euler_angles 0 ;;
    d <- lift (truediv m00 (cos e0)) ;;
    setitem euler_angles 1 (VNum (atan2 (- m20) d))
  else
    m01 <- getnum2 matrix 0 1 ;;
    if num_gt (fabs m01) MATRIX_TO_EULER_TOLERANCE then
      m10 <- getnum2 matrix 1 0 ;; m00 <- getnum2 matrix 0 0 ;;
      _ <- setitem euler_angles 0 (VNum (atan2 m10 m00)) ;;
      m21 <- getnum2 matrix 2 1 ;; m22 <- getnum2 matrix 2 2 ;;
      _ <- setitem euler_angles 2 (VNum (atan2 m21 m22)) ;;
      m20 <- getnum2 matrix 2 0 ;; m10 <- getnum2 matrix 1 0 ;;
      e0 <- getnum euler_angles 0 ;;
      d <- lift (truediv m10 (sin e0)) ;;
      setitem euler_angles 1 (VNum (atan2 (- m20) d))
    else
      m20 <- getnum2 matrix 2 0 ;;
      _ <- setitem euler_angles 1 (VNum (atan2 (- m20) int_0)) ;;
      _ <- setitem euler_angles 0 (VNum int_0) ;;
      m12 <- getnum2 matrix 1 2 ;; m02 <- getnum2 matrix 0 2 ;;
      m20 <- getnum2 matrix 2 0 ;;
      setitem euler_angles 2 (VNum (atan2 (- m12) (- m02 * m20))).

Definition rotation_matrix_to_euler (matrix : loc) : M loc :=
  euler_angles <- alloc [VNum float_0; VNum float_0; VNum float_0] ;;
  _ <- rotation_matrix_to_euler_branches matrix euler_angles ;;
  ret euler_angles.

Definition axis_angle_to_quaternion (axis : loc) (angle : num) : M loc :=
  half <- lift (truediv angle int_2) ;;
  sin_half_angle <- lift (trig sin half) ;;
  half <- lift (truediv angle int_2) ;;
  cos_half_angle <- lift (trig cos half) ;;
  a0 <- getnum axis 0 ;; a1 <- getnum axis 1 ;; a2 <- getnum axis 2 ;;
  q <- alloc [VNum cos_half_angle; VNum (a0 * sin_half_angle);
              VNum (a1 * sin_half_angle); VNum (a2 * sin_half_angle)] ;;
  ret q.

Definition axis_angle_to_rotation_matrix (axis : loc) (angle : num) : M loc :=
  q <- axis_angle_to_quaternion axis angle ;;
  quaternion_to_rotation_matrix q.

Definition reshape (a : loc) (new_shape : shape) : M loc :=
  b <- alloc [] ;;
  match new_shape with
  | ShapeTuple dims =>
      let index_ := 0%nat in
      rows <- lift (index dims 0) ;;
      _ <- foldM (fun (index_ : nat) (x : nat) =>
                    row <- alloc [] ;;
                    cols <- lift (index dims 1) ;;
                    index_ <- foldM (fun (index_ : nat) (y : nat) =>
                                       item <- getitem a index_ ;;
                                       _ <- append row item ;;
                                       ret (S index_))
                                    index_ (range cols) ;;
                    _ <- append b (VRef row) ;;
                    ret index_)
                 index_ (range rows) ;;
      ret b
  | ShapeInt n =>
      sublists <- load a ;;
      items <- mapM (fun sublist => r <- as_ref sublist ;; load r) sublists ;;
      flat_list <- alloc (concat items) ;;
      if decide (0 <= n < Z.of_nat (length (concat items)))%Z
      then alloc (take (Z.to_nat n) (concat items))
      else ret flat_list
  | ShapeOther => ret b
  end.

End Operations.

End Heap.

(** ** Vocabulary of the properties *)

Section Vocabulary.

Context {num : Type} `{Number num}.
Variables (sqrt cos sin fabs : num -> num) (atan2 : num -> num -> num).

Local Open Scope num_scope.

Definition nonzero (y : num) : bool := negb (num_is_zero y).

(** The exceptions the interpreter raises on its own: every one but the
    [ValueError] that [vector_matrix_mult] raises itself. *)
Definition implicit (e : exn) : Prop := e <> vectorops.mismatched_rows.

(** A call that does not end in the exception [vector_matrix_mult] raises
    itself. *)
Definition no_explicit_error {A : Type} (r : result A) : Prop :=
  forall e, r = Raise e -> implicit e.

(** The sum over r of [v[r] * m[r][c]], accumulated as [sum] does. *)
Definition column_sum (v : list num) (m : list (list num)) (c : nat) : num :=
  builtin_sum (zip_with (fun vr row => vr * default int_0 (row !! c)) v m).

(** No operation but [vector_matrix_mult] ends in the mismatched-rows error,
    except [matrix_mult] where a call of [vector_matrix_mult] raised it. *)
Definition validation_only_in_vector_matrix_mult : Prop :=
  (forall v, no_explicit_error (vectorops.magnitude sqrt v))
  /\ (forall u v, no_explicit_error (vectorops.add u v))
  /\ (forall u v, no_explicit_error (vectorops.sub u v))
  /\ (forall u v, no_explicit_error (vectorops.dot u v))
  /\ (forall u v, no_explicit_error (vectorops.eldiv u v))
  /\ (forall u v, no_explicit_error (vectorops.elmult u v))
  /\ (forall v, no_explicit_error (vectorops.normalize sqrt v))
  /\ (forall u v, no_explicit_error (vectorops.cross u v))
  /\ (forall u c, no_explicit_error (vectorops.mult u c))
  /\ (forall u c, no_explicit_error (vectorops.div u c))
  /\ (forall q,
        no_explicit_error (vectorops.quaternion_to_rotation_matrix sqrt q))
  /\ (forall m c, no_explicit_error (vectorops.matrix_constant_mult m c))
  /\ (forall m v, no_explicit_error (vectorops.matrix_vector_mult m v))
  /\ (forall angles,
        no_explicit_error (vectorops.euler_to_rotation_matrix cos sin angles))
  /\ (forall m,
        no_explicit_error
          (vectorops.rotation_matrix_to_euler cos sin fabs atan2 m))
  /\ (forall axis angle,
        no_explicit_error
          (vectorops.axis_angle_to_quaternion cos sin axis angle))
  /\ (forall axis angle,
        no_explicit_error
          (vectorops.axis_angle_to_rotation_matrix sqrt cos sin axis angle))
  /\ (forall (a : pyobj num) new_shape,
        no_explicit_error (vectorops.reshape a new_shape))
  /\ (forall a b e,
        vectorops.matrix_mult a b = Raise e ->
        exists row_a,
          row_a ∈ a /\ vectorops.vector_matrix_mult row_a b = Raise e).

(** Euler angles to matrix, to Euler angles, to matrix and to Euler angles
    again. *)
Definition euler_round_trip (e : list num) : result (list num) :=
  m <- vectorops.euler_to_rotation_matrix cos sin e ;;
  e' <- vectorops.rotation_matrix_to_euler cos sin fabs atan2 m ;;
  m' <- vectorops.euler_to_rotation_matrix cos sin e' ;;
  vectorops.rotation_matrix_to_euler cos sin fabs atan2 m'.

End Vocabulary.

Section MatrixVocabulary.

Context {A : Type}.

Implicit Types (a : list (list A)).

(** The element in row [i] and column [j], when there is one. *)
Definition entry a (i j : nat) : option A := a !! i ≫= (.!! j).

(** The matrix of [r] rows that are consecutive runs of [c] elements of a
    flat sequence. *)
Definition unflatten (r c : nat) (a : list A) : list (list A) :=
  map (fun x => take c (drop (x * c) a)) (seq 0 r).

End MatrixVocabulary.

Section StoreVocabulary.

Context {num : Type}.

Abbreviation heap := (heap num).
Abbreviation M := (@Heap.M num).

Implicit Types (h : heap) (v r b : loc) (l : list (val num)).

Definition is_num (x : val num) : Prop :=
  match x with
  | VNum _ => True
  | VRef _ => False
  end.

(** A list of numbers at [v], and a list of references to lists of numbers
    at [v]. *)
Definition is_vector h v : Prop :=
  exists l, h !! v = Some l /\ Forall is_num l.

Definition is_matrix h v : Prop :=
  exists l, h !! v = Some l
            /\ Forall (fun x => exists r, x = VRef r /\ is_vector h r) l.

(** The objects a reference leads to. *)
Inductive reachable h : loc -> loc -> Prop :=
  | reachable_refl v : reachable h v v
  | reachable_step v l r r' :
      h !! v = Some l -> VRef r ∈ l -> reachable h r r' -> reachable h v r'.

(** The result at [v] in the store [h'] was built by the call, which started
    in the store [h]: no object reachable from [v] existed before. *)
Definition shares_nothing h h' v : Prop :=
  forall r, reachable h' v r -> r ∉ dom h.

Definition fresh_vector h h' v : Prop := (v ∉ dom h) /\ is_vector h' v.

Definition fresh_matrix h h' v : Prop :=
  (v ∉ dom h)
  /\ exists l, h' !! v = Some l
               /\ Forall (fun x => exists r, x = VRef r /\ fresh_vector h h' r) l.

(** A computation that leaves the store as it is. *)
Definition read_only {A : Type} (m : M A) : Prop := forall h, (m h).2 = h.

(** A computation that leaves every object of the store as it is. *)
Definition extends {A : Type} (m : M A) : Prop := forall h, h ⊆ (m h).2.

(** A computation that leaves every object of the store as it is, and whose
    result is a new vector, or a new matrix of new rows. *)
Definition allocates_vector (m : M loc) : Prop :=
  forall h, h ⊆ (m h).2 /\ forall v, (m h).1 = Ok v -> fresh_vector h (m h).2 v.

Definition allocates_rows (m : M (list loc)) : Prop :=
  forall h,
    h ⊆ (m h).2
    /\ forall rs, (m h).1 = Ok rs -> Forall (fresh_vector h (m h).2) rs.

Definition allocates_matrix (m : M loc) : Prop :=
  forall h, h ⊆ (m h).2 /\ forall v, (m h).1 = Ok v -> fresh_matrix h (m h).2 v.

(** A computation that changes the vector at [res], an object that is not
    in the store [h0], and nothing else. *)
Definition updates_vector {A : Type} h0 (res : loc) (m : M A) : Prop :=
  forall h,
    h0 ⊆ h -> is_vector h res ->
    (forall r, r <> res -> (m h).2 !! r = h !! r) /\ is_vector (m h).2 res.

(** The rows built so far by [reshape]: [b] holds references to new lists of
    numbers, and the store [h0] of the call is untouched. *)
Definition rows_invariant h0 b h : Prop :=
  h0 ⊆ h
  /\ exists l, h !! b = Some l
               /\ Forall (fun x => exists r, x = VRef r /\ r <> b
                                              /\ fresh_vector h0 h r) l.

(** A call that started in the store [h] and returns a number: the store is
    as it was. *)
Definition pure_call_of_number h (run : result num * heap) : Prop :=
  run.2 = h.

(** A call that started in the store [h] and returns a list: every object of
    [h] is as it was, and no object the result leads to was in [h]. *)
Definition pure_call h (run : result loc * heap) : Prop :=
  h ⊆ run.2 /\ forall v, run.1 = Ok v -> shares_nothing h run.2 v.

(** The list at [v] holds the numbers [xs]; the list at [m] holds references
    to the rows [xss]. *)
Definition stores_vector h v (xs : list num) : Prop :=
  h !! v = Some (VNum <$> xs).

Definition stores_matrix h (m : loc) (xss : list (list num)) : Prop :=
  exists rows,
    h !! m = Some (VRef <$> rows) /\ Forall2 (stores_vector h) rows xss.

(** The outcome of a call that returns a new vector, or a new matrix, with
    the elements the list version returns, and raises what it raises. *)
Definition returns_vector (spec : result (list num))
    (run : result loc * heap) : Prop :=
  match spec with
  | Ok zs => exists v, run.1 = Ok v /\ stores_vector run.2 v zs
  | Raise e => run.1 = Raise e
  end.

Definition returns_matrix (spec : result (list (list num)))
    (run : result loc * heap) : Prop :=
  match spec with
  | Ok zss => exists v, run.1 = Ok v /\ stores_matrix run.2 v zss
  | Raise e => run.1 = Raise e
  end.

(** A computation that leaves the store as it is, with the outcome [a]. *)
Definition reads {A : Type} (m : M A) h (a : result A) : Prop := m h = (a, h).

(** The outcome of a comprehension that builds the rows of a matrix. *)
Definition returns_rows (spec : result (list (list num)))
    (run : result (list loc) * heap) : Prop :=
  match spec with
  | Ok zss => exists rs, run.1 = Ok rs /\ Forall2 (stores_vector run.2) rs zss
  | Raise e => run.1 = Raise e
  end.

(** The store of a call while it fills the list [res] of its own: [base]
    with the numbers [zs] at [res]. *)
Definition own (base : heap) (res : loc) (zs : list num) : heap :=
  <[res := VNum <$> zs]> base.

(** The outcome of a step that changes the list at [res] as the list
    version changes its local list. *)
Definition updates_to (base : heap) (res : loc) (spec : result (list num))
    (run : result unit * heap) : Prop :=
  match spec with
  | Ok zs => run = (Ok tt, own base res zs)
  | Raise e => run.1 = Raise e
  end.

(** What a call of [reshape] returns is a vector or a matrix. *)
Definition represents h v (p : pyobj num) : Prop :=
  (exists zs, p = of_vector zs /\ stores_vector h v zs)
  \/ (exists zss, p = of_matrix zss /\ stores_matrix h v zss).

Definition returns_object (spec : result (pyobj num))
    (run : result loc * heap) : Prop :=
  match spec with
  | Ok p => exists v, run.1 = Ok v /\ represents run.2 v p
  | Raise e => run.1 = Raise e
  end.

(** The rows [reshape] has built: [b] holds references to the new rows
    [zss], and the store [h] of the call is part of the store. *)
Definition rows_stored h b (hc : heap) (rs : list loc)
    (zss : list (list num)) : Prop :=
  h ⊆ hc
  /\ hc !! b = Some (VRef <$> rs)
  /\ Forall2 (stores_vector hc) rs zss
  /\ Forall (fun r => r <> b) rs.

End StoreVocabulary.

(** The matrix [[[1, 2], [3, 4]]] at location 3, its rows at 1 and 2. *)
Definition example_store : heap R :=
  {[ 1%positive := [VNum 1%R; VNum 2%R];
     2%positive := [VNum 3%R; VNum 4%R];
     3%positive := [VRef 1%positive; VRef 2%positive] ]}.

Section SharingVocabulary.

Context {num : Type}.

Abbreviation heap := (heap num).

Implicit Types (h : heap) (r m : loc).

(** The list at [r] holds the values [l], numbers or references alike; the
    list at [m] holds references to lists that hold the rows [ls]. *)
Definition holds h r (l : list (val num)) : Prop := h !! r = Some l.

Definition holds_rows h m (ls : list (list (val num))) : Prop :=
  exists rs, h !! m = Some (VRef <$> rs) /\ Forall2 (holds h) rs ls.

(** The list at [m] holds references to lists that are pairwise different
    objects, and different from [m]. *)
Definition distinct_rows h m : Prop :=
  exists rs, h !! m = Some (VRef <$> rs) /\ NoDup (m :: rs).

(** The rows [reshape] has built so far: [b] holds references to the rows
    [ls], which are objects of their own, and the store [h] of the call is
    part of the store. *)
Definition rows_held h (b : loc) (hc : heap) (rs : list loc)
    (ls : list (list (val num))) : Prop :=
  h ⊆ hc
  /\ hc !! b = Some (VRef <$> rs)
  /\ Forall2 (holds hc) rs ls
  /\ NoDup (b :: rs).

End SharingVocabulary.

Section RowsVocabulary.

Context {num : Type}.

Abbreviation heap := (heap num).
Abbreviation M := (@Heap.M num).

(** A computation that leaves every object of the store as it is and
    returns an object it has built. *)
Definition allocates_object (m : M loc) : Prop :=
  forall h,
    h ⊆ (m h).2
    /\ forall v, (m h).1 = Ok v -> (v ∉ dom h) /\ v ∈ dom (m h).2.

(** A computation whose result, when there is one, is a list of rows that
    are objects of their own. *)
Definition returns_distinct_rows (m : M loc) : Prop :=
  forall h v h', m h = (Ok v, h') -> distinct_rows h' v.

End RowsVocabulary.

(** The matrix [[[p, q]]] at location 4, its row at 3, where the elements
    [p] and [q] are the lists [[1]] and [[2]] at 1 and 2. *)
Definition nested_store : heap R :=
  {[ 1%positive := [VNum 1%R];
     2%positive := [VNum 2%R];
     3%positive := [VRef 1%positive; VRef 2%positive];
     4%positive := [VRef 3%positive] ]}.

(** * Properties *)

(** ** The result monad and comprehensions *)

Lemma mapM_ext {A B : Type} (f g : A -> result B) (l : list A) :
  (forall x, x ∈ l -> f x = g x) -> mapM f l = mapM g l.
Proof.
  induction l as [|x l IH]; intros Hfg; [reflexivity|].
  cbn. rewrite Hfg by left. rewrite IH; [reflexivity|].
  intros y Hy. apply Hfg. by right.
Qed.

Lemma mapM_ok {A B : Type} (f : A -> result B) (g : A -> B) (l : list A) :
  (forall x, x ∈ l -> f x = Ok (g x)) -> mapM f l = Ok (map g l).
Proof.
  induction l as [|x l IH]; intros Hfg; [reflexivity|].
  cbn. rewrite Hfg by left. cbn. rewrite IH; [reflexivity|].
  intros y Hy. apply Hfg. by right.
Qed.

Lemma mapM_raise_inv {A B : Type} (f : A -> result B) (l : list A) (e : exn) :
  mapM f l = Raise e -> exists x, x ∈ l /\ f x = Raise e.
Proof.
  induction l as [|x l IH]; cbn; [discriminate|].
  destruct (f x) as [y|e'] eqn:Hx; cbn.
  - destruct (mapM f l) as [ys|e'']; cbn; [discriminate|].
    intros [= ->]. destruct IH as (z & Hz & Hfz); [reflexivity|].
    exists z. split; [by right | exact Hfz].
  - intros [= ->]. exists x. split; [by left | exact Hx].
Qed.

Lemma mapM_ok_length {A B : Type} (f : A -> result B) (l : list A) (r : list B) :
  mapM f l = Ok r -> length r = length l.
Proof.
  revert r. induction l as [|x l IH]; cbn; intros r.
  - by intros [= <-].
  - destruct (f x); cbn; [|discriminate].
    destruct (mapM f l); cbn; [|discriminate].
    intros [= <-]. cbn. f_equal. by apply IH.
Qed.

Lemma mapM_seq_S {B : Type} (f : nat -> result B) (a n : nat) :
  mapM f (seq (S a) n) = mapM (fun i => f (S i)) (seq a n).
Proof.
  revert a. induction n as [|n IH]; intros a; [reflexivity|].
  cbn. by rewrite IH.
Qed.

(** A comprehension over [range(len(u))] that reads [u[i]] and [v[i]] visits
    the pairs of [zip u v] when [v] is at least as long as [u]. *)
Lemma mapM_index2 {A B C : Type} (k : A -> B -> result C)
    (u : list A) (v : list B) :
  (length u <= length v)%nat ->
  mapM (fun i => x <- index u i ;; y <- index v i ;; k x y) (seq 0 (length u))
  = mapM (fun p => k p.1 p.2) (zip u v).
Proof.
  revert v. induction u as [|x u IH]; intros v Hlen; [reflexivity|].
  destruct v as [|y v]; cbn in Hlen; [lia|].
  cbn [length seq mapM zip zip_with]. rewrite mapM_seq_S.
  cbn. by rewrite <- IH by lia.
Qed.

Lemma mapM_index1 {A C : Type} (k : A -> result C) (u : list A) :
  mapM (fun i => x <- index u i ;; k x) (seq 0 (length u)) = mapM k u.
Proof.
  induction u as [|x u IH]; [reflexivity|].
  cbn [length seq mapM]. rewrite mapM_seq_S. cbn. by rewrite <- IH.
Qed.

Lemma mapM_zip_ok {A B C : Type} (op : A -> B -> C) (u : list A) (v : list B) :
  mapM (fun p => Ok (op p.1 p.2)) (zip u v) = Ok (zip_with op u v).
Proof.
  revert v. induction u as [|x u IH]; intros [|y v]; try reflexivity.
  cbn. by rewrite IH.
Qed.

(** ** Paired elementwise operations *)

Section PairedOperations.

Context {num : Type} `{Number num}.

Lemma mapM_truediv_zip (u v : list num) :
  mapM (fun p => truediv p.1 p.2) (zip u v)
  = if forallb nonzero (take (length u) v)
    then Ok (zip_with num_quot u v)
    else Raise ZeroDivisionError.
Proof.
  revert v. induction u as [|x u IH]; intros [|y v]; try reflexivity.
  cbn. unfold truediv at 1, nonzero at 1.
  destruct (num_is_zero y); cbn; [reflexivity|].
  rewrite IH. by destruct (forallb nonzero (take (length u) v)).
Qed.

Lemma add_zip_with (u v : list num) :
  (length u <= length v)%nat ->
  vectorops.add u v = Ok (zip_with num_add u (take (length u) v)).
Proof.
  intros Hlen. unfold vectorops.add.
  by rewrite mapM_index2, mapM_zip_ok, zip_with_take_r.
Qed.

Lemma sub_zip_with (u v : list num) :
  (length u <= length v)%nat ->
  vectorops.sub u v = Ok (zip_with num_sub u (take (length u) v)).
Proof.
  intros Hlen. unfold vectorops.sub.
  by rewrite mapM_index2, mapM_zip_ok, zip_with_take_r.
Qed.

Lemma elmult_zip_with (u v : list num) :
  (length u <= length v)%nat ->
  vectorops.elmult u v = Ok (zip_with num_mul u (take (length u) v)).
Proof.
  intros Hlen. unfold vectorops.elmult.
  by rewrite mapM_index2, mapM_zip_ok, zip_with_take_r.
Qed.

Lemma dot_zip_with (u v : list num) :
  (length u <= length v)%nat ->
  vectorops.dot u v
  = Ok (builtin_sum (zip_with num_mul u (take (length u) v))).
Proof.
  intros Hlen. unfold vectorops.dot.
  by rewrite mapM_index2, mapM_zip_ok, zip_with_take_r.
Qed.

Lemma eldiv_zip_with (u v : list num) :
  (length u <= length v)%nat ->
  vectorops.eldiv u v
  = if forallb nonzero (take (length u) v)
    then Ok (zip_with num_quot u (take (length u) v))
    else Raise ZeroDivisionError.
Proof.
  intros Hlen. unfold vectorops.eldiv.
  by rewrite mapM_index2, mapM_truediv_zip, zip_with_take_r.
Qed.

(** C10, amended.  When [v] is at least as long as [u], the iteration length
    of add, sub, elmult, dot and eldiv is [len(u)]: the result is computed
    from [u] and the first [len(u)] elements of [v] alone, add, sub and
    elmult return a list of length [len(u)], dot sums the first [len(u)]
    products, and none of these four raises.  eldiv returns the [len(u)]
    quotients when none of the first [len(u)] elements of [v] is zero, and
    raises ZeroDivisionError otherwise. *)
Theorem paired_operations_iterate_over_first (u v : list num) :
  (length u <= length v)%nat ->
  let v' := take (length u) v in
  vectorops.add u v = Ok (zip_with num_add u v')
  /\ vectorops.sub u v = Ok (zip_with num_sub u v')
  /\ vectorops.elmult u v = Ok (zip_with num_mul u v')
  /\ vectorops.dot u v = Ok (builtin_sum (zip_with num_mul u v'))
  /\ vectorops.eldiv u v
     = (if forallb nonzero v'
        then Ok (zip_with num_quot u v')
        else Raise ZeroDivisionError)
  /\ length v' = length u
  /\ (forall op : num -> num -> num, length (zip_with op u v') = length u).
Proof.
  intros Hlen v'. subst v'.
  split; [by apply add_zip_with|].
  split; [by apply sub_zip_with|].
  split; [by apply elmult_zip_with|].
  split; [by apply dot_zip_with|].
  split; [by apply eldiv_zip_with|].
  assert (length (take (length u) v) = length u) as Htake
    by (rewrite length_take; lia).
  split; [exact Htake|].
  intros op. rewrite length_zip_with. lia.
Qed.

End PairedOperations.

(** C10 as stated fails for eldiv: with [len(v) >= len(u)] the call raises
    ZeroDivisionError when a divisor is zero. *)
Lemma eldiv_longer_divisor_raises :
  (length [1%float] <= length [0%float; 5%float])%nat
  /\ vectorops.eldiv [1%float] [0%float; 5%float] = Raise ZeroDivisionError
  /\ ~ (exists r, vectorops.eldiv [1%float] [0%float; 5%float] = Ok r).
Proof.
  split; [cbn; lia|]. split; [reflexivity|].
  intros [r Hr]. discriminate Hr.
Qed.

Lemma paired_operations_iterate_over_first_witness :
  vectorops.add [1%float; 2%float] [3%float; 4%float; 5%float]
  = Ok [4%float; 6%float]
  /\ vectorops.eldiv [1%float; 2%float] [4%float; 0.5%float; 0%float]
     = Ok [0.25%float; 4%float].
Proof.
  pose proof (paired_operations_iterate_over_first
                [1%float; 2%float] [3%float; 4%float; 5%float]) as H1.
  pose proof (paired_operations_iterate_over_first
                [1%float; 2%float] [4%float; 0.5%float; 0%float]) as H2.
  cbn zeta in H1, H2.
  split.
  - apply H1. cbn. lia.
  - destruct H2 as (_ & _ & _ & _ & H2 & _); [cbn; lia|]. exact H2.
Defined.

(** ** Which exceptions a call can raise *)

Lemma bind_raise_inv {A B : Type} (m : result A) (k : A -> result B) (e : exn) :
  bind m k = Raise e -> m = Raise e \/ exists a, m = Ok a /\ k a = Raise e.
Proof.
  destruct m as [a|e']; cbn; intros Hk.
  - right. exists a. split; [reflexivity | exact Hk].
  - left. by injection Hk as ->.
Qed.

Lemma bind_assoc {A B C : Type} (m : result A) (k : A -> result B)
    (k' : B -> result C) :
  bind (bind m k) k' = bind m (fun a => bind (k a) k').
Proof. by destruct m. Qed.

Lemma index_raise_inv {A : Type} (l : list A) (i : nat) (e : exn) :
  index l i = Raise e -> e = IndexError.
Proof. unfold index. destruct (l !! i); [discriminate | by intros [= <-]]. Qed.

Lemma index2_raise_inv {A : Type} (m : list (list A)) (i j : nat) (e : exn) :
  index2 m i j = Raise e -> e = IndexError.
Proof.
  unfold index2. intros [Hm | (row & _ & Hrow)]%bind_raise_inv;
    eauto using index_raise_inv.
Qed.

Lemma setitem_raise_inv {A : Type} (l : list A) (i : nat) (x : A) (e : exn) :
  setitem l i x = Raise e -> e = IndexError.
Proof. unfold setitem. destruct (l !! i); [discriminate | by intros [= <-]]. Qed.

Lemma truediv_raise_inv {num : Type} `{Number num} (x y : num) (e : exn) :
  truediv x y = Raise e -> e = ZeroDivisionError.
Proof.
  unfold truediv. destruct (num_is_zero y); [by intros [= <-] | discriminate].
Qed.

Lemma trig_raise_inv {num : Type} `{Number num} (f : num -> num) (x : num)
    (e : exn) :
  trig f x = Raise e -> e = math_domain_error.
Proof.
  unfold trig. destruct (num_is_inf x); [by intros [= <-] | discriminate].
Qed.

Lemma foldM_raise_inv {S A : Type} (body : S -> A -> result S) (s : S)
    (l : list A) (e : exn) :
  foldM body s l = Raise e -> exists s' x, x ∈ l /\ body s' x = Raise e.
Proof.
  revert s. induction l as [|x l IH]; intros s; cbn; [discriminate|].
  destruct (body s x) as [s'|e'] eqn:Hbody; cbn.
  - intros (s'' & y & Hy & Hraise)%IH. exists s'', y. split; [by right | done].
  - intros [= ->]. exists s, x. split; [by left | done].
Qed.

Lemma getitem_raise_inv {A : Type} (a : pyobj A) (i : nat) (e : exn) :
  getitem a i = Raise e -> e = IndexError \/ e = TypeError.
Proof.
  destruct a; cbn; [intros [= <-]; by right|].
  intros ->%index_raise_inv. by left.
Qed.

Lemma iter_raise_inv {A : Type} (a : pyobj A) (e : exn) :
  iter a = Raise e -> e = TypeError.
Proof. destruct a; cbn; [by intros [= <-] | discriminate]. Qed.

Lemma implicit_IndexError : implicit IndexError.
Proof. discriminate. Qed.

Lemma implicit_ZeroDivisionError : implicit ZeroDivisionError.
Proof. discriminate. Qed.

Lemma implicit_TypeError : implicit TypeError.
Proof. discriminate. Qed.

Lemma implicit_math_domain_error : implicit math_domain_error.
Proof. discriminate. Qed.

Create HintDb raises discriminated.
#[export] Hint Resolve implicit_IndexError implicit_ZeroDivisionError
  implicit_TypeError implicit_math_domain_error : raises.

(** Splits a hypothesis [bind m k = Raise e] again and again, and closes the
    cases where the exception comes from an indexing, a division or a
    function of [math]. *)
Ltac raise_inv :=
  repeat match goal with
    | H : bind _ _ = Raise _ |- _ =>
        apply bind_raise_inv in H; destruct H as [H | (? & ? & H)]
    | H : index _ _ = Raise _ |- _ =>
        apply index_raise_inv in H; subst
    | H : index2 _ _ _ = Raise _ |- _ =>
        apply index2_raise_inv in H; subst
    | H : setitem _ _ _ = Raise _ |- _ =>
        apply setitem_raise_inv in H; subst
    | H : truediv _ _ = Raise _ |- _ =>
        apply truediv_raise_inv in H; subst
    | H : trig _ _ = Raise _ |- _ =>
        apply trig_raise_inv in H; subst
    | H : Ok _ = Raise _ |- _ => discriminate H
    | H : mapM _ _ = Raise _ |- _ =>
        apply mapM_raise_inv in H; destruct H as (? & _ & H); cbn beta in H
    | H : foldM _ _ _ = Raise _ |- _ =>
        apply foldM_raise_inv in H; destruct H as (? & ? & _ & H);
        cbn beta in H
    | H : (if ?b then _ else _) = Raise _ |- _ => destruct b
    | H : (let '(_, _) := ?p in _) = Raise _ |- _ => destruct p
    | H : getitem _ _ = Raise _ |- _ =>
        apply getitem_raise_inv in H; destruct H; subst
    | H : iter _ = Raise _ |- _ =>
        apply iter_raise_inv in H; subst
    end;
  auto with raises.

(** ** vector_matrix_mult *)

Lemma foldM_append {A B : Type} (body : list B -> A -> result (list B))
    (f : A -> result B) (acc : list B) (l : list A) :
  (forall result c, body result c = (y <- f c ;; Ok (result ++ [y]))) ->
  foldM body acc l = (ys <- mapM f l ;; Ok (acc ++ ys)).
Proof.
  intros Hbody. revert acc. induction l as [|x l IH]; intros acc; cbn.
  - by rewrite app_nil_r.
  - rewrite Hbody. destruct (f x) as [y|e]; cbn; [|reflexivity].
    rewrite IH. destruct (mapM f l); cbn; [|reflexivity].
    by rewrite <- app_assoc.
Qed.

Section VectorMatrixMult.

Context {num : Type} `{Number num}.

Local Open Scope num_scope.

Lemma mapM_column_terms (v : list num) (m : list (list num)) (c : nat) :
  Forall (fun row => c < length row)%nat m ->
  mapM (fun p : num * list num => mrc <- index p.2 c ;; Ok (p.1 * mrc)) (zip v m)
  = Ok (zip_with (fun vr row => vr * default int_0 (row !! c)) v m).
Proof.
  intros Hm. revert v. induction Hm as [|row m Hrow Hm IH]; intros [|vr v];
    try reflexivity.
  cbn. unfold index at 1.
  destruct (lookup_lt_is_Some_2 row c Hrow) as [x ->]. cbn.
  by rewrite IH.
Qed.

Lemma vector_matrix_mult_unfold (v : list num) (m : list (list num)) :
  vectorops.vector_matrix_mult v m
  = if decide (length v <> length m) then Raise vectorops.mismatched_rows else
    m0 <- index m 0 ;;
    mapM (fun c =>
            terms <- mapM (fun p : num * list num =>
                             mrc <- index p.2 c ;; Ok (p.1 * mrc)) (zip v m) ;;
            Ok (builtin_sum terms))
         (seq 0 (length m0)).
Proof.
  unfold vectorops.vector_matrix_mult. case_decide as Hlen; [reflexivity|].
  destruct (index m 0) as [m0|e]; cbn; [|reflexivity].
  match goal with
  | |- foldM (fun result c => bind (@?terms c) _) _ _ = _ =>
      rewrite (foldM_append _ (fun c => t <- terms c ;; Ok (builtin_sum t)))
        by (intros; by rewrite bind_assoc)
  end.
  cbn.
  match goal with |- bind ?a _ = ?b => replace a with b; [by destruct b|] end.
  apply mapM_ext. intros c _. f_equal. symmetry.
  transitivity
    (mapM (fun r => vr <- index v r ;; row <- index m r ;;
                    mrc <- index row c ;; Ok (vr * mrc)) (seq 0 (length m))).
  { apply mapM_ext. intros r _. unfold index2.
    destruct (index v r); cbn; [|reflexivity]. by rewrite bind_assoc. }
  rewrite <- Hlen.
  rewrite (mapM_index2 (fun vr row => mrc <- index row c ;; Ok (vr * mrc)))
    by lia.
  reflexivity.
Qed.

Lemma vector_matrix_mult_raise_inv (v : list num) (m : list (list num))
    (e : exn) :
  vectorops.vector_matrix_mult v m = Raise e ->
  (e = vectorops.mismatched_rows /\ length v <> length m) \/ e = IndexError.
Proof.
  rewrite vector_matrix_mult_unfold. case_decide as Hlen.
  - intros [= <-]. by left.
  - intros Hraise. right. raise_inv.
Qed.

Lemma vector_matrix_mult_mismatch (v : list num) (m : list (list num)) :
  vectorops.vector_matrix_mult v m = Raise vectorops.mismatched_rows
  <-> length v <> length m.
Proof.
  split.
  - intros [[_ Hlen] | [=]]%vector_matrix_mult_raise_inv. exact Hlen.
  - intros Hlen. rewrite vector_matrix_mult_unfold. by case_decide.
Qed.

Lemma vector_matrix_mult_ok (v : list num) (m : list (list num)) (cols : nat) :
  m <> [] ->
  Forall (fun row => length row = cols) m ->
  length v = length m ->
  vectorops.vector_matrix_mult v m = Ok (map (column_sum v m) (seq 0 cols)).
Proof.
  intros Hne Hrect Hlen. rewrite vector_matrix_mult_unfold.
  case_decide; [done|].
  destruct m as [|m0 m']; [done|]. cbn [index lookup list_lookup bind].
  assert (length m0 = cols) as -> by by inversion Hrect.
  apply mapM_ok. intros c Hc%elem_of_seq.
  rewrite mapM_column_terms; [reflexivity|].
  eapply Forall_impl; [exact Hrect|]. cbn. intros row ->. lia.
Qed.

End VectorMatrixMult.

(** ** The one explicit validation *)

Lemma unpack4_raise_inv {A : Type} (l : list A) (e : exn) :
  unpack4 l = Raise e -> implicit e.
Proof.
  unfold unpack4. destruct l as [|? [|? [|? [|? [|]]]]]; try discriminate;
    case_decide; intros [= <-]; discriminate.
Qed.

Section ExplicitErrors.

Context {num : Type} `{Number num}.
Variables (sqrt cos sin fabs : num -> num) (atan2 : num -> num -> num).

Ltac unfold_ops :=
  unfold vectorops.magnitude, vectorops.add, vectorops.sub, vectorops.dot,
    vectorops.eldiv, vectorops.elmult, vectorops.normalize, vectorops.cross,
    vectorops.mult, vectorops.div, vectorops.quaternion_to_rotation_matrix,
    vectorops.matrix_constant_mult, vectorops.matrix_vector_mult,
    vectorops.euler_to_rotation_matrix, vectorops.axis_angle_to_quaternion,
    vectorops.axis_angle_to_rotation_matrix,
    vectorops.magnitude, vectorops.div, vectorops.mult, vectorops.dot in *.

Ltac no_explicit :=
  intros e Hraise; repeat progress (unfold_ops; raise_inv);
  repeat match goal with
    | H : unpack4 _ = Raise _ |- _ => apply unpack4_raise_inv in H
    end;
  auto with raises.

Lemma magnitude_no_explicit v : no_explicit_error (vectorops.magnitude sqrt v).
Proof. no_explicit. Qed.

Lemma add_no_explicit u v : no_explicit_error (vectorops.add u v).
Proof. no_explicit. Qed.

Lemma sub_no_explicit u v : no_explicit_error (vectorops.sub u v).
Proof. no_explicit. Qed.

Lemma dot_no_explicit u v : no_explicit_error (vectorops.dot u v).
Proof. no_explicit. Qed.

Lemma eldiv_no_explicit u v : no_explicit_error (vectorops.eldiv u v).
Proof. no_explicit. Qed.

Lemma elmult_no_explicit u v : no_explicit_error (vectorops.elmult u v).
Proof. no_explicit. Qed.

Lemma normalize_no_explicit v : no_explicit_error (vectorops.normalize sqrt v).
Proof. no_explicit. Qed.

Lemma cross_no_explicit u v : no_explicit_error (vectorops.cross u v).
Proof. no_explicit. Qed.

Lemma mult_no_explicit u c : no_explicit_error (vectorops.mult u c).
Proof. no_explicit. Qed.

Lemma div_no_explicit u c : no_explicit_error (vectorops.div u c).
Proof. no_explicit. Qed.

Lemma quaternion_to_rotation_matrix_no_explicit q :
  no_explicit_error (vectorops.quaternion_to_rotation_matrix sqrt q).
Proof. no_explicit. Qed.

Lemma matrix_constant_mult_no_explicit m c :
  no_explicit_error (vectorops.matrix_constant_mult m c).
Proof. no_explicit. Qed.

Lemma matrix_vector_mult_no_explicit m v :
  no_explicit_error (vectorops.matrix_vector_mult m v).
Proof. no_explicit. Qed.

Lemma euler_to_rotation_matrix_no_explicit angles :
  no_explicit_error (vectorops.euler_to_rotation_matrix cos sin angles).
Proof. no_explicit. Qed.

Lemma rotation_matrix_to_euler_no_explicit m :
  no_explicit_error (vectorops.rotation_matrix_to_euler cos sin fabs atan2 m).
Proof. unfold vectorops.rotation_matrix_to_euler. no_explicit. Qed.

Lemma axis_angle_to_quaternion_no_explicit axis angle :
  no_explicit_error (vectorops.axis_angle_to_quaternion cos sin axis angle).
Proof. no_explicit. Qed.

Lemma axis_angle_to_rotation_matrix_no_explicit axis angle :
  no_explicit_error
    (vectorops.axis_angle_to_rotation_matrix sqrt cos sin axis angle).
Proof. no_explicit. Qed.

Lemma reshape_no_explicit {A : Type} (a : pyobj A) new_shape :
  no_explicit_error (vectorops.reshape a new_shape).
Proof. unfold vectorops.reshape. destruct new_shape; no_explicit. Qed.

(** [matrix_mult] has no check of its own: what it raises, a call of
    [vector_matrix_mult] on a row of [a] raised. *)
Lemma matrix_mult_raise_inv a b e :
  vectorops.matrix_mult a b = Raise e ->
  exists row_a, row_a ∈ a /\ vectorops.vector_matrix_mult row_a b = Raise e.
Proof. apply mapM_raise_inv. Qed.

End ExplicitErrors.

Section Validation.

Context {num : Type} `{Number num}.
Variables (sqrt cos sin fabs : num -> num) (atan2 : num -> num -> num).

Lemma validation_only_in_vector_matrix_mult_holds :
  validation_only_in_vector_matrix_mult sqrt cos sin fabs atan2.
Proof.
  unfold validation_only_in_vector_matrix_mult.
  repeat split;
    eauto using magnitude_no_explicit, add_no_explicit, sub_no_explicit,
      dot_no_explicit, eldiv_no_explicit, elmult_no_explicit,
      normalize_no_explicit, cross_no_explicit, mult_no_explicit,
      div_no_explicit, quaternion_to_rotation_matrix_no_explicit,
      matrix_constant_mult_no_explicit, matrix_vector_mult_no_explicit,
      euler_to_rotation_matrix_no_explicit,
      rotation_matrix_to_euler_no_explicit,
      axis_angle_to_quaternion_no_explicit,
      axis_angle_to_rotation_matrix_no_explicit, reshape_no_explicit,
      matrix_mult_raise_inv.
Qed.

(** C1, amended.  [vector_matrix_mult(v, m)] raises the dimension-mismatch
    error if and only if [len(v)] differs from the number of rows of [m]; no
    other operation has such a check ([matrix_mult] only passes on what its
    calls of [vector_matrix_mult] raise); on [v = [1,2]] and
    [m = [[1,0],[0,1],[0,0]]] the error is raised; and for every [v] and
    every rectangular [m] with at least one row and [len(v)] rows, the call
    returns the vector whose c-th component is the sum over r of
    [v[r] * m[r][c]]. *)
Theorem vector_matrix_mult_validates_rows :
  (forall (v : list num) (m : list (list num)),
     vectorops.vector_matrix_mult v m = Raise vectorops.mismatched_rows
     <-> length v <> length m)
  /\ validation_only_in_vector_matrix_mult sqrt cos sin fabs atan2
  /\ vectorops.vector_matrix_mult
       [1%float; 2%float]
       [[1%float; 0%float]; [0%float; 1%float]; [0%float; 0%float]]
     = Raise vectorops.mismatched_rows
  /\ (forall (v : list num) (m : list (list num)) (cols : nat),
        m <> [] ->
        Forall (fun row => length row = cols) m ->
        length v = length m ->
        vectorops.vector_matrix_mult v m
        = Ok (map (column_sum v m) (seq 0 cols))).
Proof.
  split; [apply vector_matrix_mult_mismatch|].
  split; [apply validation_only_in_vector_matrix_mult_holds|].
  split; [reflexivity|].
  apply vector_matrix_mult_ok.
Qed.

End Validation.

(** C1 as stated fails on the matrix without rows: [len(v)] equals the row
    count, and reading [m[0]] raises IndexError. *)
Lemma vector_matrix_mult_no_rows :
  length (@nil float) = length (@nil (list float))
  /\ vectorops.vector_matrix_mult (@nil float) [] = Raise IndexError
  /\ ~ (exists r, vectorops.vector_matrix_mult (@nil float) [] = Ok r).
Proof.
  split; [reflexivity|]. split; [reflexivity|].
  intros [r Hr]. discriminate Hr.
Qed.

Lemma vector_matrix_mult_validates_rows_witness :
  let v := [1%R; 2%R] in
  let m := [[1%R; 0%R]; [0%R; 1%R]] in
  (m <> [] /\ Forall (fun row => length row = 2%nat) m /\ length v = length m)
  /\ vectorops.vector_matrix_mult v m
     = Ok [(0 + 1 * 1 + 2 * 0)%R; (0 + 1 * 0 + 2 * 1)%R].
Proof.
  intros v m.
  assert (m <> [] /\ Forall (fun row => length row = 2%nat) m
          /\ length v = length m) as Hhyp.
  { split; [discriminate|]. split; [by repeat constructor | reflexivity]. }
  split; [exact Hhyp|].
  destruct Hhyp as (Hne & Hrect & Hlen).
  exact (proj2 (proj2 (proj2
    (vector_matrix_mult_validates_rows
       R_sqrt.sqrt Rtrigo_def.cos Rtrigo_def.sin Rabs R_atan2)))
    v m 2%nat Hne Hrect Hlen).
Defined.

(** ** Division by zero *)

Section ZeroDivision.

Context {num : Type} `{Number num}.
Variables (sqrt cos sin fabs : num -> num) (atan2 : num -> num -> num).

Lemma magnitude_ok (v : list num) :
  vectorops.magnitude sqrt v
  = Ok (sqrt (builtin_sum (zip_with num_mul v v))).
Proof.
  unfold vectorops.magnitude.
  by rewrite (mapM_index2 (fun x y => Ok (num_mul x y))), mapM_zip_ok.
Qed.

Lemma mapM_truediv_zero (u : list num) (c : num) :
  u <> [] -> num_is_zero c = true ->
  mapM (fun x => truediv x c) u = Raise ZeroDivisionError.
Proof.
  intros Hu Hc. destruct u as [|x u]; [done|].
  cbn. unfold truediv. by rewrite Hc.
Qed.

Lemma div_zero (u : list num) (c : num) :
  u <> [] -> num_is_zero c = true ->
  vectorops.div u c = Raise ZeroDivisionError.
Proof.
  intros Hu Hc. unfold vectorops.div.
  rewrite (mapM_index1 (fun x => truediv x c)). by apply mapM_truediv_zero.
Qed.

Lemma normalize_zero (v : list num) (vmag : num) :
  v <> [] ->
  vectorops.magnitude sqrt v = Ok vmag ->
  num_is_zero vmag = true ->
  vectorops.normalize sqrt v = Raise ZeroDivisionError.
Proof.
  intros Hv Hmag Hzero. unfold vectorops.normalize. rewrite Hmag. cbn.
  rewrite (mapM_index1 (fun x => truediv x vmag)).
  by apply mapM_truediv_zero.
Qed.

Lemma eldiv_zero (u v : list num) (i : nat) (y : num) :
  (i < length u)%nat -> v !! i = Some y -> num_is_zero y = true ->
  vectorops.eldiv u v = Raise ZeroDivisionError.
Proof.
  unfold vectorops.eldiv. revert v i.
  induction u as [|x u IH]; intros v i Hi Hy Hzero; cbn in Hi; [lia|].
  destruct v as [|y0 v]; [done|].
  cbn [length seq mapM]. cbn [index lookup list_lookup bind].
  unfold truediv at 1. destruct (num_is_zero y0) eqn:Hy0; [reflexivity|].
  destruct i as [|i]; [cbn in Hy; congruence|].
  cbn [bind]. rewrite mapM_seq_S.
  cbn in Hy. specialize (IH v i ltac:(lia) Hy Hzero).
  match goal with
  | |- bind (mapM _ ?l) _ = _ =>
      change (bind (mapM (fun i => x <- index u i ;; y <- index v i ;;
                                   truediv x y) l)
                   (fun ys => Ok (num_quot x y0 :: ys))
              = Raise ZeroDivisionError)
  end.
  by rewrite IH.
Qed.

(** C3, amended.  No function raises the explicit dimension-mismatch error
    except [vector_matrix_mult] (and [matrix_mult] through it).  A division
    by zero is not silent: [normalize(v)] on a non-empty vector of zero
    magnitude, [div(u, 0)] on a non-empty [u], and [eldiv(u, v)] with some
    [v[i] = 0], [i < len(u)], raise Python's ZeroDivisionError and return no
    result; on an empty vector, where nothing is divided, [normalize] and
    [div] return the empty list. *)
Theorem zero_divisor_raises :
  validation_only_in_vector_matrix_mult sqrt cos sin fabs atan2
  /\ (forall (v : list num) (vmag : num),
        v <> [] ->
        vectorops.magnitude sqrt v = Ok vmag ->
        num_is_zero vmag = true ->
        vectorops.normalize sqrt v = Raise ZeroDivisionError)
  /\ (forall (u : list num) (c : num),
        u <> [] -> num_is_zero c = true ->
        vectorops.div u c = Raise ZeroDivisionError)
  /\ (forall (u v : list num) (i : nat) (y : num),
        (i < length u)%nat -> v !! i = Some y -> num_is_zero y = true ->
        vectorops.eldiv u v = Raise ZeroDivisionError)
  /\ vectorops.normalize sqrt [] = Ok []
  /\ (forall c : num, vectorops.div [] c = Ok []).
Proof.
  split; [apply validation_only_in_vector_matrix_mult_holds|].
  split; [apply normalize_zero|].
  split; [apply div_zero|].
  split; [apply eldiv_zero|].
  split; [reflexivity|]. intros c. reflexivity.
Qed.

End ZeroDivision.

(** C3 as stated fails: the divisions by zero raise ZeroDivisionError, and
    no list with a NaN or an infinity is returned. *)
Lemma zero_division_is_not_silent :
  vectorops.magnitude PrimFloat.sqrt [0%float; 0%float; 0%float] = Ok 0%float
  /\ vectorops.normalize PrimFloat.sqrt [0%float; 0%float; 0%float]
     = Raise ZeroDivisionError
  /\ vectorops.div [1%float; 2%float] 0%float = Raise ZeroDivisionError
  /\ vectorops.eldiv [1%float; 2%float] [4%float; 0%float]
     = Raise ZeroDivisionError
  /\ ~ (exists r,
          vectorops.normalize PrimFloat.sqrt [0%float; 0%float; 0%float] = Ok r
          /\ existsb is_anomaly r = true)
  /\ ~ (exists r,
          vectorops.div [1%float; 2%float] 0%float = Ok r
          /\ existsb is_anomaly r = true)
  /\ ~ (exists r,
          vectorops.eldiv [1%float; 2%float] [4%float; 0%float] = Ok r
          /\ existsb is_anomaly r = true).
Proof.
  repeat split; try reflexivity; intros (r & Hr & _); discriminate Hr.
Qed.

Lemma zero_divisor_raises_witness :
  let v := [0%R; 0%R] in
  let vmag := R_sqrt.sqrt (0 + 0 * 0 + 0 * 0)%R in
  (v <> [] /\ vectorops.magnitude R_sqrt.sqrt v = Ok vmag
   /\ num_is_zero vmag = true)
  /\ vectorops.normalize R_sqrt.sqrt v = Raise ZeroDivisionError.
Proof.
  intros v vmag.
  assert (v <> [] /\ vectorops.magnitude R_sqrt.sqrt v = Ok vmag
          /\ num_is_zero vmag = true) as Hhyp.
  { split; [discriminate|]. split; [reflexivity|].
    cbn. unfold R_is_zero, vmag.
    destruct (Req_dec_T _ 0) as [_|Hne]; [reflexivity|].
    exfalso. apply Hne.
    replace (0 + 0 * 0 + 0 * 0)%R with 0%R by lra. apply sqrt_0. }
  split; [exact Hhyp|].
  destruct Hhyp as (Hne & Hmag & Hzero).
  exact (proj1 (proj2
    (zero_divisor_raises
       R_sqrt.sqrt Rtrigo_def.cos Rtrigo_def.sin Rabs R_atan2))
    v vmag Hne Hmag Hzero).
Defined.

(** ** Rotation conversions *)

Section Rotations.

Context {num : Type} `{Number num}.
Variables (sqrt cos sin fabs : num -> num) (atan2 : num -> num -> num).

Local Open Scope num_scope.

(** The function on a 3x3 matrix, branch by branch. *)
Lemma rotation_matrix_to_euler_cases
    (m00 m01 m02 m10 m11 m12 m20 m21 m22 : num) :
  vectorops.rotation_matrix_to_euler cos sin fabs atan2
    [[m00; m01; m02]; [m10; m11; m12]; [m20; m21; m22]]
  = if num_gt (fabs m00) float_1Em12 then
      let azimuth := atan2 m10 m00 in
      d <- truediv m00 (cos azimuth) ;;
      Ok [azimuth; atan2 (- m20) d; atan2 m21 m22]
    else if num_gt (fabs m01) float_1Em12 then
      let azimuth := atan2 m10 m00 in
      d <- truediv m10 (sin azimuth) ;;
      Ok [azimuth; atan2 (- m20) d; atan2 m21 m22]
    else
      Ok [int_0; atan2 (- m20) int_0; atan2 (- m12) (- m02 * m20)].
Proof.
  unfold vectorops.rotation_matrix_to_euler. cbn.
  destruct (num_gt (fabs m00) float_1Em12); cbn.
  - by destruct (truediv m00 (cos (atan2 m10 m00))).
  - destruct (num_gt (fabs m01) float_1Em12); cbn; [|reflexivity].
    by destruct (truediv m10 (sin (atan2 m10 m00))).
Qed.

Lemma trig_ok (f : num -> num) (x : num) :
  num_is_inf x = false -> trig f x = Ok (f x).
Proof. unfold trig. by intros ->. Qed.

Lemma trig_infinite (f : num -> num) (x : num) :
  num_is_inf x = true -> trig f x = Raise math_domain_error.
Proof. unfold trig. by intros ->. Qed.

(** C2.  Where the code leaves the claim: the second branch is entered on
    [|m[0][1]| > 1e-12] alone, and divides [m[1][0]] by
    sin(atan2(m[1][0], m[0][0])).  For every number model and every 3x3
    matrix that takes the second branch with that sine zero, the call
    raises ZeroDivisionError instead of returning the three angles. *)
Theorem rotation_matrix_to_euler_second_branch_zero_sine
    (m00 m01 m02 m10 m11 m12 m20 m21 m22 : num) :
  num_gt (fabs m00) float_1Em12 = false ->
  num_gt (fabs m01) float_1Em12 = true ->
  num_is_zero (sin (atan2 m10 m00)) = true ->
  vectorops.rotation_matrix_to_euler cos sin fabs atan2
    [[m00; m01; m02]; [m10; m11; m12]; [m20; m21; m22]]
  = Raise ZeroDivisionError.
Proof.
  intros H00 H01 Hsin.
  rewrite rotation_matrix_to_euler_cases, H00, H01. cbn zeta.
  unfold truediv. by rewrite Hsin.
Qed.

Lemma euler_to_rotation_matrix_ok (azimuth elevation roll : num) :
  num_is_inf azimuth = false ->
  num_is_inf elevation = false ->
  num_is_inf roll = false ->
  vectorops.euler_to_rotation_matrix cos sin [azimuth; elevation; roll]
  = Ok [[cos azimuth * cos elevation;
         cos azimuth * sin elevation * sin roll - sin azimuth * cos roll;
         cos azimuth * sin elevation * cos roll + sin azimuth * sin roll];
        [sin azimuth * cos elevation;
         sin azimuth * sin elevation * sin roll + cos azimuth * cos roll;
         sin azimuth * sin elevation * cos roll - cos azimuth * sin roll];
        [- sin elevation; cos elevation * sin roll; cos elevation * cos roll]].
Proof.
  intros Haz Hel Hroll. unfold vectorops.euler_to_rotation_matrix. cbn.
  by rewrite !trig_ok.
Qed.

(** The angles the gimbal-lock branch returns for the matrix of the angles
    [azimuth], [elevation] and [roll]. *)
Lemma gimbal_lock_branch_of_euler_matrix (azimuth elevation roll : num) :
  num_is_inf azimuth = false ->
  num_is_inf elevation = false ->
  num_is_inf roll = false ->
  num_gt (fabs (cos azimuth * cos elevation)) float_1Em12 = false ->
  num_gt (fabs (cos azimuth * sin elevation * sin roll
                - sin azimuth * cos roll)) float_1Em12 = false ->
  (m <- vectorops.euler_to_rotation_matrix cos sin [azimuth; elevation; roll] ;;
   vectorops.rotation_matrix_to_euler cos sin fabs atan2 m)
  = Ok [int_0;
        atan2 (- - sin elevation) int_0;
        atan2 (- (sin azimuth * sin elevation * cos roll
                  - cos azimuth * sin roll))
              (- (cos azimuth * sin elevation * cos roll
                  + sin azimuth * sin roll) * - sin elevation)].
Proof.
  intros Haz Hel Hroll H00 H01.
  rewrite euler_to_rotation_matrix_ok by done. cbn [bind].
  by rewrite rotation_matrix_to_euler_cases, H00, H01.
Qed.

(** C7.  Where the code leaves the claim: the guards of
    [rotation_matrix_to_euler] test [m[0][0]] and [m[0][1]], and for the
    matrix of the angles [e] these are cos(azimuth)*cos(elevation) and
    cos(azimuth)*sin(elevation)*sin(roll) - sin(azimuth)*cos(roll).  For
    every number model and all angles for which neither exceeds the
    tolerance, whatever the elevation, the gimbal-lock branch is taken: the
    azimuth comes back as 0 and the elevation as atan2(sin(elevation), 0),
    and the round trip of the claim continues from these angles. *)
Theorem euler_round_trip_takes_gimbal_lock_branch
    (azimuth elevation roll : num) :
  let m00 := cos azimuth * cos elevation in
  let m01 := cos azimuth * sin elevation * sin roll - sin azimuth * cos roll in
  let m02 := cos azimuth * sin elevation * cos roll + sin azimuth * sin roll in
  let m12 := sin azimuth * sin elevation * cos roll - cos azimuth * sin roll in
  let m20 := - sin elevation in
  let e' := [int_0; atan2 (- m20) int_0; atan2 (- m12) (- m02 * m20)] in
  num_is_inf azimuth = false ->
  num_is_inf elevation = false ->
  num_is_inf roll = false ->
  num_gt (fabs m00) float_1Em12 = false ->
  num_gt (fabs m01) float_1Em12 = false ->
  (m <- vectorops.euler_to_rotation_matrix cos sin [azimuth; elevation; roll] ;;
   vectorops.rotation_matrix_to_euler cos sin fabs atan2 m)
  = Ok e'
  /\ euler_round_trip cos sin fabs atan2 [azimuth; elevation; roll]
     = (m' <- vectorops.euler_to_rotation_matrix cos sin e' ;;
        vectorops.rotation_matrix_to_euler cos sin fabs atan2 m').
Proof.
  intros m00 m01 m02 m12 m20 e' Haz Hel Hroll H00 H01.
  pose proof (gimbal_lock_branch_of_euler_matrix
                azimuth elevation roll Haz Hel Hroll H00 H01) as Hfirst.
  split; [exact Hfirst|].
  unfold euler_round_trip.
  destruct (vectorops.euler_to_rotation_matrix cos sin
              [azimuth; elevation; roll]) as [m|e]; [|discriminate Hfirst].
  cbn [bind] in Hfirst |- *. by rewrite Hfirst.
Qed.

Lemma axis_angle_to_quaternion_ok (a0 a1 a2 angle : num) :
  num_is_inf (num_quot angle int_2) = false ->
  vectorops.axis_angle_to_quaternion cos sin [a0; a1; a2] angle
  = Ok [cos (num_quot angle int_2);
        a0 * sin (num_quot angle int_2);
        a1 * sin (num_quot angle int_2);
        a2 * sin (num_quot angle int_2)].
Proof.
  intros Hfinite. unfold vectorops.axis_angle_to_quaternion, truediv.
  rewrite int_2_not_zero. cbn [bind]. by rewrite !trig_ok.
Qed.

(** [sin(angle / 2)] is computed before the axis is read. *)
Lemma axis_angle_to_quaternion_infinite (axis : list num) (angle : num) :
  num_is_inf (num_quot angle int_2) = true ->
  vectorops.axis_angle_to_quaternion cos sin axis angle
  = Raise math_domain_error.
Proof.
  intros Hinf. unfold vectorops.axis_angle_to_quaternion, truediv.
  rewrite int_2_not_zero. cbn [bind]. by rewrite trig_infinite.
Qed.

End Rotations.

(** On floats: the matrix [[[0,1,0],[0,0,1],[1,0,0]]] takes the second branch,
    and with atan2(0.0, 0.0) = 0.0 and sin(0.0) = 0.0, as [math] has them,
    the division is by zero. *)
Lemma float_rotation_matrix_to_euler_zero_sine
    (cos sin : float -> float) (atan2 : float -> float -> float) :
  atan2 0%float 0%float = 0%float ->
  sin 0%float = 0%float ->
  vectorops.rotation_matrix_to_euler cos sin PrimFloat.abs atan2
    [[0; 1; 0]; [0; 0; 1]; [1; 0; 0]]%float
  = Raise ZeroDivisionError.
Proof.
  intros Hatan2 Hsin. rewrite rotation_matrix_to_euler_cases.
  replace (num_gt (PrimFloat.abs 0) float_1Em12) with false by reflexivity.
  replace (num_gt (PrimFloat.abs 1) float_1Em12) with true by reflexivity.
  cbn zeta. unfold truediv. by rewrite Hatan2, Hsin.
Qed.

(** On floats: for [e = [pi/2, 1.0, pi/2]] and the values [math.cos] and
    [math.sin] have at pi/2 and 1.0, both guards fail ([m[0][0]] is 3.3e-17
    and [m[0][1]] is -9.7e-18), and the azimuth comes back as 0. *)
Lemma float_euler_matrix_takes_gimbal_lock_branch
    (cos sin : float -> float) (atan2 : float -> float -> float) :
  let half_pi := 0x1.921fb54442d18p+0%float in
  cos half_pi = 0x1.1a62633145c07p-54%float ->
  sin half_pi = 1%float ->
  cos 1%float = 0x1.14a280fb5068cp-1%float ->
  sin 1%float = 0x1.aed548f090ceep-1%float ->
  (m <- vectorops.euler_to_rotation_matrix cos sin [half_pi; 1%float; half_pi] ;;
   vectorops.rotation_matrix_to_euler cos sin PrimFloat.abs atan2 m)
  = Ok [0%float;
        atan2 0x1.aed548f090ceep-1%float 0%float;
        atan2 0x1.6620fdd0e1e8cp-57%float 0x1.aed548f090ceep-1%float].
Proof.
  intros half_pi Hc Hs Hc1 Hs1.
  rewrite gimbal_lock_branch_of_euler_matrix; try reflexivity.
  - by rewrite Hc, Hs, Hs1.
  - by rewrite Hc, Hc1.
  - by rewrite Hc, Hs, Hs1.
Qed.

(** On floats: with the value [math.sin] has at pi/4, the quaternion of the
    axis [[0,0,1]] and the angle pi/2 is [[cos(pi/4), 0, 0, sin(pi/4)]]. *)
Lemma float_axis_angle_to_quaternion_quarter_turn (cos sin : float -> float) :
  let quarter_pi := 0x1.921fb54442d18p-1%float in
  sin quarter_pi = 0x1.6a09e667f3bccp-1%float ->
  vectorops.axis_angle_to_quaternion cos sin
    [0; 0; 1]%float 0x1.921fb54442d18p+0%float
  = Ok [cos quarter_pi; 0; 0; 0x1.6a09e667f3bccp-1]%float.
Proof.
  intros quarter_pi Hsin.
  rewrite axis_angle_to_quaternion_ok by reflexivity.
  change (num_quot 0x1.921fb54442d18p+0%float int_2) with quarter_pi.
  by rewrite Hsin.
Qed.

(** C5, amended.  For every 3-vector axis and every angle whose half is no
    infinity, [axis_angle_to_quaternion(axis, angle)] returns
    [[cos(angle/2), axis[0]*sin(angle/2), axis[1]*sin(angle/2),
    axis[2]*sin(angle/2)]], the axis taken as it is; when the half of the
    angle is an infinity the call raises the ValueError of [math.sin],
    whatever the axis.  On floats the half of the float pi/2 is the float
    pi/4, and the call on [[0,0,1]] returns
    [[cos(pi/4), 0*sin(pi/4), 0*sin(pi/4), 1*sin(pi/4)]]; over the reals
    [axis_angle_to_quaternion([0,0,1], pi/2)] is
    [[cos(pi/4), 0, 0, sin(pi/4)]]. *)
Theorem axis_angle_to_quaternion_half_angle :
  (forall (num : Type) (N : Number num) (cos sin : num -> num)
          (a0 a1 a2 angle : num),
     num_is_inf (num_quot angle int_2) = false ->
     vectorops.axis_angle_to_quaternion cos sin [a0; a1; a2] angle
     = Ok [cos (num_quot angle int_2);
           num_mul a0 (sin (num_quot angle int_2));
           num_mul a1 (sin (num_quot angle int_2));
           num_mul a2 (sin (num_quot angle int_2))])
  /\ (forall (num : Type) (N : Number num) (cos sin : num -> num)
             (axis : list num) (angle : num),
        num_is_inf (num_quot angle int_2) = true ->
        vectorops.axis_angle_to_quaternion cos sin axis angle
        = Raise math_domain_error)
  /\ (forall cos sin : float -> float,
        let quarter_pi := 0x1.921fb54442d18p-1%float in
        vectorops.axis_angle_to_quaternion cos sin
          [0; 0; 1]%float 0x1.921fb54442d18p+0%float
        = Ok [cos quarter_pi; (0 * sin quarter_pi)%float;
              (0 * sin quarter_pi)%float; (1 * sin quarter_pi)%float])
  /\ vectorops.axis_angle_to_quaternion Rtrigo_def.cos Rtrigo_def.sin
       [0%R; 0%R; 1%R] (PI / 2)%R
     = Ok [Rtrigo_def.cos (PI / 4); 0%R; 0%R; Rtrigo_def.sin (PI / 4)].
Proof.
  split; [intros; by apply axis_angle_to_quaternion_ok|].
  split; [intros; by apply axis_angle_to_quaternion_infinite|].
  split; [intros; by rewrite axis_angle_to_quaternion_ok|].
  rewrite axis_angle_to_quaternion_ok by reflexivity. cbn.
  replace (PI / 2 / 2)%R with (PI / 4)%R by lra.
  by rewrite !Rmult_0_l, Rmult_1_l.
Qed.

(** C5 as stated fails at an infinite angle: [math.sin(angle / 2)] raises
    ValueError, and no quaternion is returned. *)
Lemma axis_angle_to_quaternion_infinite_angle :
  num_is_inf (num_quot infinity int_2) = true
  /\ (forall cos sin : float -> float,
        vectorops.axis_angle_to_quaternion cos sin [0; 0; 1]%float infinity
        = Raise math_domain_error)
  /\ ~ (exists (cos sin : float -> float) (q : list float),
          vectorops.axis_angle_to_quaternion cos sin [0; 0; 1]%float infinity
          = Ok q).
Proof.
  split; [reflexivity|]. split; [reflexivity|].
  intros (cos & sin & q & Hq). discriminate Hq.
Qed.

Lemma axis_angle_to_quaternion_half_angle_witness :
  num_is_inf (num_quot 1%R int_2) = false
  /\ vectorops.axis_angle_to_quaternion Rtrigo_def.cos Rtrigo_def.sin
       [1%R; 0%R; 0%R] 1%R
     = Ok [Rtrigo_def.cos (1 / 2); (1 * Rtrigo_def.sin (1 / 2))%R;
           (0 * Rtrigo_def.sin (1 / 2))%R; (0 * Rtrigo_def.sin (1 / 2))%R].
Proof.
  split; [reflexivity|].
  exact (proj1 axis_angle_to_quaternion_half_angle
           R R_Number Rtrigo_def.cos Rtrigo_def.sin
           1%R 0%R 0%R 1%R eq_refl).
Defined.

(** ** Over the real numbers *)

Section RealNumbers.

Local Open Scope R_scope.

Lemma R_tolerance_bounds : 0 < float_1Em12 < 1.
Proof. cbn. lra. Qed.

Lemma R_gt_true (x y : R) : y < x -> num_gt x y = true.
Proof. intros Hlt. cbn. unfold R_gt. destruct (Rgt_dec x y); [done | lra]. Qed.

Lemma R_gt_false (x y : R) : x <= y -> num_gt x y = false.
Proof. intros Hle. cbn. unfold R_gt. destruct (Rgt_dec x y); [lra | done]. Qed.

Lemma R_is_zero_true (x : R) : x = 0 -> num_is_zero x = true.
Proof.
  intros ->. cbn. unfold R_is_zero. destruct (Req_dec_T 0 0); [done | lra].
Qed.

Lemma R_is_zero_false (x : R) : x <> 0 -> num_is_zero x = false.
Proof.
  intros Hx. cbn. unfold R_is_zero. destruct (Req_dec_T x 0); [lra | done].
Qed.

Lemma R_truediv_ok (x y : R) : y <> 0 -> truediv x y = Ok (x / y).
Proof. intros Hy. unfold truediv. by rewrite R_is_zero_false. Qed.

Lemma R_atan2_origin : R_atan2 0 0 = 0.
Proof. unfold R_atan2. repeat (destruct (Rlt_dec _ _); try lra). Qed.

Lemma R_atan2_pos_x (y x : R) : 0 < x -> R_atan2 y x = atan (y / x).
Proof. intros Hx. unfold R_atan2. destruct (Rlt_dec 0 x); [done | lra]. Qed.

Lemma R_atan2_pos_x_axis (x : R) : 0 < x -> R_atan2 0 x = 0.
Proof.
  intros Hx. rewrite R_atan2_pos_x by done.
  replace (0 / x) with 0 by (field; lra). apply atan_0.
Qed.

End RealNumbers.

(** ** Unit quaternions over the real numbers *)

Section RealQuaternions.

Local Open Scope R_scope.

Abbreviation cos := Rtrigo_def.cos.
Abbreviation sin := Rtrigo_def.sin.

(** A unit quaternion has magnitude 1, and [div] by 1 gives it back. *)
Lemma R_magnitude_unit (qw qx qy qz : R) :
  qw * qw + qx * qx + qy * qy + qz * qz = 1 ->
  vectorops.magnitude R_sqrt.sqrt [qw; qx; qy; qz] = Ok 1.
Proof.
  intros Hunit. rewrite magnitude_ok. cbn.
  rewrite Rplus_0_l, Hunit. by rewrite sqrt_1.
Qed.

Lemma R_div_one (u : list R) : vectorops.div u 1 = Ok u.
Proof.
  unfold vectorops.div. rewrite (mapM_index1 (fun x => truediv x 1)).
  induction u as [|x u IH]; [done|].
  cbn [mapM]. rewrite IH, R_truediv_ok by lra. cbn. by rewrite Rdiv_1_r.
Qed.

Lemma R_quaternion_to_rotation_matrix_unit (qw qx qy qz : R) :
  qw * qw + qx * qx + qy * qy + qz * qz = 1 ->
  vectorops.quaternion_to_rotation_matrix R_sqrt.sqrt [qw; qx; qy; qz]
  = Ok [[qw * qw + qx * qx - qy * qy - qz * qz;
         2 * qx * qy - 2 * qw * qz;
         2 * qx * qz + 2 * qw * qy];
        [2 * qx * qy + 2 * qw * qz;
         qw * qw - qx * qx + qy * qy - qz * qz;
         2 * qy * qz - 2 * qw * qx];
        [2 * qx * qz - 2 * qw * qy;
         2 * qy * qz + 2 * qw * qx;
         qw * qw - qx * qx - qy * qy + qz * qz]].
Proof.
  intros Hunit. unfold vectorops.quaternion_to_rotation_matrix.
  rewrite (R_magnitude_unit _ _ _ _ Hunit). cbn [bind].
  by rewrite R_div_one.
Qed.

(** The quaternion of a unit axis is a unit quaternion. *)
Lemma R_axis_angle_unit (a0 a1 a2 angle : R) :
  a0 * a0 + a1 * a1 + a2 * a2 = 1 ->
  let s := sin (angle / 2) in
  let c := cos (angle / 2) in
  c * c + a0 * s * (a0 * s) + a1 * s * (a1 * s) + a2 * s * (a2 * s) = 1.
Proof.
  intros Hunit s c.
  pose proof (sin2_cos2 (angle / 2)) as Hsc. unfold Rsqr in Hsc.
  fold s c in Hsc. nra.
Qed.

End RealQuaternions.

(** C4.  [axis_angle_to_rotation_matrix(axis, angle)] is the composition of
    [axis_angle_to_quaternion] and [quaternion_to_rotation_matrix]: it
    returns what the second returns on the result of the first, and raises
    what either of them raises.  Over the reals and for a unit 3-vector
    axis neither of them raises (the quaternion has magnitude 1), and both
    paths return the same 3x3 matrix, the one of the quaternion
    [[cos(angle/2), axis*sin(angle/2)]]. *)
Theorem axis_angle_to_rotation_matrix_composes :
  (forall (num : Type) (N : Number num) (sqrt cos sin : num -> num)
          (axis : list num) (angle : num),
     vectorops.axis_angle_to_rotation_matrix sqrt cos sin axis angle
     = (q <- vectorops.axis_angle_to_quaternion cos sin axis angle ;;
        vectorops.quaternion_to_rotation_matrix sqrt q))
  /\ (forall a0 a1 a2 angle : R,
        (a0 * a0 + a1 * a1 + a2 * a2 = 1)%R ->
        let qw := Rtrigo_def.cos (angle / 2) in
        let qx := (a0 * Rtrigo_def.sin (angle / 2))%R in
        let qy := (a1 * Rtrigo_def.sin (angle / 2))%R in
        let qz := (a2 * Rtrigo_def.sin (angle / 2))%R in
        let mx :=
          [[qw * qw + qx * qx - qy * qy - qz * qz;
            2 * qx * qy - 2 * qw * qz;
            2 * qx * qz + 2 * qw * qy];
           [2 * qx * qy + 2 * qw * qz;
            qw * qw - qx * qx + qy * qy - qz * qz;
            2 * qy * qz - 2 * qw * qx];
           [2 * qx * qz - 2 * qw * qy;
            2 * qy * qz + 2 * qw * qx;
            qw * qw - qx * qx - qy * qy + qz * qz]]%R in
        vectorops.axis_angle_to_quaternion Rtrigo_def.cos Rtrigo_def.sin
          [a0; a1; a2] angle = Ok [qw; qx; qy; qz]
        /\ vectorops.quaternion_to_rotation_matrix R_sqrt.sqrt
             [qw; qx; qy; qz] = Ok mx
        /\ vectorops.axis_angle_to_rotation_matrix
             R_sqrt.sqrt Rtrigo_def.cos Rtrigo_def.sin [a0; a1; a2] angle
           = Ok mx).
Proof.
  split; [reflexivity|].
  intros a0 a1 a2 angle Hunit qw qx qy qz mx.
  pose proof (R_axis_angle_unit a0 a1 a2 angle Hunit) as Hq. cbn zeta in Hq.
  split; [by rewrite axis_angle_to_quaternion_ok by reflexivity|].
  split; [apply (R_quaternion_to_rotation_matrix_unit _ _ _ _ Hq)|].
  unfold vectorops.axis_angle_to_rotation_matrix.
  rewrite axis_angle_to_quaternion_ok by reflexivity. cbn [bind].
  apply (R_quaternion_to_rotation_matrix_unit _ _ _ _ Hq).
Qed.

Lemma axis_angle_to_rotation_matrix_composes_witness :
  (0 * 0 + 0 * 0 + 1 * 1 = 1)%R
  /\ vectorops.axis_angle_to_quaternion Rtrigo_def.cos Rtrigo_def.sin
       [0%R; 0%R; 1%R] PI
     = Ok [Rtrigo_def.cos (PI / 2); (0 * Rtrigo_def.sin (PI / 2))%R;
           (0 * Rtrigo_def.sin (PI / 2))%R; (1 * Rtrigo_def.sin (PI / 2))%R].
Proof.
  assert (Hunit : (0 * 0 + 0 * 0 + 1 * 1 = 1)%R) by lra.
  split; [exact Hunit|].
  exact (proj1 (proj2 axis_angle_to_rotation_matrix_composes
                  0%R 0%R 1%R PI Hunit)).
Defined.

(** ** The failing inputs over the real numbers *)

Section RealRotations.

Local Open Scope R_scope.

Abbreviation cos := Rtrigo_def.cos.
Abbreviation sin := Rtrigo_def.sin.

Lemma R_atan2_pos_y_axis (y : R) : 0 < y -> R_atan2 y 0 = PI / 2.
Proof.
  intros Hy. unfold R_atan2.
  destruct (Rlt_dec 0 0); [lra|]. destruct (Rlt_dec 0 y); [done | lra].
Qed.

Lemma R_sin_1_pos : 0 < sin 1.
Proof. pose proof PI2_1. apply sin_gt_0; lra. Qed.

(** The matrix of the angles [[0, pi/2, 0]], a gimbal lock, gives them
    back. *)
Lemma R_gimbal_lock_round_trip :
  (m <- vectorops.euler_to_rotation_matrix cos sin [0; PI / 2; 0] ;;
   vectorops.rotation_matrix_to_euler cos sin Rabs R_atan2 m)
  = Ok [0; PI / 2; 0].
Proof.
  pose proof R_tolerance_bounds as Htol.
  rewrite gimbal_lock_branch_of_euler_matrix; try reflexivity.
  - cbn [num_mul num_sub num_add num_neg int_0 R_Number].
    rewrite cos_0, sin_0, sin_PI2.
    replace (- - 1) with 1 by lra.
    replace (- (0 * 1 * 1 - 1 * 0)) with 0 by lra.
    replace (- (1 * 1 * 1 + 0 * 0) * - 1) with 1 by lra.
    rewrite R_atan2_pos_y_axis by lra.
    by rewrite R_atan2_pos_x_axis by lra.
  - cbn [num_mul R_Number]. rewrite cos_PI2, Rmult_0_r, Rabs_R0.
    apply R_gt_false. lra.
  - cbn [num_mul num_sub R_Number]. rewrite cos_0, sin_0, sin_PI2.
    replace (1 * 1 * 0 - 0 * 1) with 0 by lra. rewrite Rabs_R0.
    apply R_gt_false. lra.
Qed.

End RealRotations.

Lemma rotation_matrix_to_euler_second_branch_zero_sine_witness :
  let m := [[0%R; 1%R; 0%R]; [0%R; 0%R; 1%R]; [1%R; 0%R; 0%R]] in
  (num_gt (Rabs 0) float_1Em12 = false
   /\ num_gt (Rabs 1) float_1Em12 = true
   /\ num_is_zero (Rtrigo_def.sin (R_atan2 0 0)) = true)
  /\ vectorops.rotation_matrix_to_euler
       Rtrigo_def.cos Rtrigo_def.sin Rabs R_atan2 m
     = Raise ZeroDivisionError.
Proof.
  intros m. pose proof R_tolerance_bounds as Htol.
  assert (num_gt (Rabs 0) float_1Em12 = false) as H00
    by (apply R_gt_false; rewrite Rabs_R0; lra).
  assert (num_gt (Rabs 1) float_1Em12 = true) as H01
    by (apply R_gt_true; rewrite Rabs_R1; lra).
  assert (num_is_zero (Rtrigo_def.sin (R_atan2 0 0)) = true) as Hsin
    by (apply R_is_zero_true; rewrite R_atan2_origin; apply sin_0).
  split; [done|].
  exact (rotation_matrix_to_euler_second_branch_zero_sine
           Rtrigo_def.cos Rtrigo_def.sin Rabs R_atan2
           0%R 1%R 0%R 0%R 0%R 1%R 1%R 0%R 0%R H00 H01 Hsin).
Defined.

Lemma euler_round_trip_takes_gimbal_lock_branch_witness :
  let e := [(PI / 2)%R; 1%R; (PI / 2)%R] in
  ((- PI < PI / 2 <= PI)%R
   /\ (- (PI / 2) < 1 < PI / 2)%R
   /\ num_gt (Rabs (Rtrigo_def.cos (PI / 2) * Rtrigo_def.cos 1)) float_1Em12
      = false
   /\ num_gt (Rabs (Rtrigo_def.cos (PI / 2) * Rtrigo_def.sin 1
                    * Rtrigo_def.sin (PI / 2)
                    - Rtrigo_def.sin (PI / 2) * Rtrigo_def.cos (PI / 2)))
        float_1Em12
      = false)
  /\ (m <- vectorops.euler_to_rotation_matrix Rtrigo_def.cos Rtrigo_def.sin e ;;
      vectorops.rotation_matrix_to_euler
        Rtrigo_def.cos Rtrigo_def.sin Rabs R_atan2 m)
     = Ok [0%R; (PI / 2)%R; 0%R]
  /\ euler_round_trip Rtrigo_def.cos Rtrigo_def.sin Rabs R_atan2 e
     = Ok [0%R; (PI / 2)%R; 0%R].
Proof.
  intros e. pose proof PI_RGT_0 as HPI. pose proof PI2_1 as Hone.
  pose proof R_tolerance_bounds as Htol. pose proof R_sin_1_pos as Hsin.
  assert (num_gt (Rabs (Rtrigo_def.cos (PI / 2) * Rtrigo_def.cos 1))
            float_1Em12 = false) as H00.
  { rewrite cos_PI2, Rmult_0_l, Rabs_R0. apply R_gt_false. lra. }
  assert (num_gt (Rabs (Rtrigo_def.cos (PI / 2) * Rtrigo_def.sin 1
                        * Rtrigo_def.sin (PI / 2)
                        - Rtrigo_def.sin (PI / 2) * Rtrigo_def.cos (PI / 2)))
            float_1Em12 = false) as H01.
  { rewrite cos_PI2, sin_PI2.
    replace (0 * Rtrigo_def.sin 1 * 1 - 1 * 0)%R with 0%R by lra.
    rewrite Rabs_R0. apply R_gt_false. lra. }
  split; [repeat split; (lra || done)|].
  assert (forall x : R, num_is_inf x = false) as Hfinite by reflexivity.
  destruct (euler_round_trip_takes_gimbal_lock_branch
              Rtrigo_def.cos Rtrigo_def.sin Rabs R_atan2
              (PI / 2)%R 1%R (PI / 2)%R
              (Hfinite _) (Hfinite _) (Hfinite _) H00 H01)
    as [Hfirst Htrip].
  assert ([int_0;
           R_atan2 (- - Rtrigo_def.sin 1) int_0;
           R_atan2
             (- (Rtrigo_def.sin (PI / 2) * Rtrigo_def.sin 1
                 * Rtrigo_def.cos (PI / 2)
                 - Rtrigo_def.cos (PI / 2) * Rtrigo_def.sin (PI / 2)))
             (- (Rtrigo_def.cos (PI / 2) * Rtrigo_def.sin 1
                 * Rtrigo_def.cos (PI / 2)
                 + Rtrigo_def.sin (PI / 2) * Rtrigo_def.sin (PI / 2))
              * - Rtrigo_def.sin 1)]%R
          = [0%R; (PI / 2)%R; 0%R]) as Hangles.
  { cbn [int_0 R_Number]. rewrite cos_PI2, sin_PI2.
    replace (- - Rtrigo_def.sin 1)%R with (Rtrigo_def.sin 1) by lra.
    replace (- (1 * Rtrigo_def.sin 1 * 0 - 0 * 1))%R with 0%R by lra.
    replace (- (0 * Rtrigo_def.sin 1 * 0 + 1 * 1) * - Rtrigo_def.sin 1)%R
      with (Rtrigo_def.sin 1) by lra.
    rewrite R_atan2_pos_y_axis by done.
    by rewrite R_atan2_pos_x_axis by done. }
  cbn [num_mul num_sub num_add num_neg R_Number] in Hfirst, Htrip.
  rewrite Hangles in Hfirst, Htrip. unfold e.
  split; [exact Hfirst|].
  rewrite Htrip. apply R_gimbal_lock_round_trip.
Defined.

(** ** transpose *)

Section Transpose.

Context {A : Type}.

Implicit Types (a : list (list A)) (row col : list A).

(** The fuel given to [zip_loop] never runs out before an iterator does. *)
Lemma zip_loop_fuel (it : list A) (rest : list (list A)) (k : nat) :
  zip_loop (length it + k) (it :: rest) = zip_loop (length it) (it :: rest).
Proof.
  revert rest. induction it as [|x it IH]; intros rest.
  - destruct k; reflexivity.
  - cbn. destruct (zip_next rest) as [[xs rest']|]; [|reflexivity].
    f_equal. apply IH.
Qed.

Lemma zip_next_rect a (c : nat) :
  Forall (fun row => length row = S c) a ->
  exists t a',
    zip_next a = Some (t, a')
    /\ Forall (fun row => length row = c) a'
    /\ length t = length a
    /\ length a' = length a
    /\ (forall i, t !! i = entry a i 0)
    /\ (forall i j, entry a' i j = entry a i (S j)).
Proof.
  induction 1 as [|row a Hrow Ha (t & a' & Hnext & Hrect & Ht & Ha' & H0 & HS)].
  - exists [], []. by repeat split.
  - destruct row as [|x row]; [done|]. injection Hrow as Hrow.
    exists (x :: t), (row :: a'). cbn. rewrite Hnext.
    split; [done|]. split; [by constructor|].
    split; [by rewrite Ht|]. split; [by rewrite Ha'|].
    split; [intros [|i] | intros [|i] j]; try done; [apply H0 | apply HS].
Qed.

Lemma zip_loop_rect (c : nat) a :
  Forall (fun row => length row = c) a ->
  length (zip_loop c a) = c
  /\ Forall (fun col => length col = length a) (zip_loop c a)
  /\ (forall i j, entry (zip_loop c a) j i = entry a i j).
Proof.
  revert a. induction c as [|c IH]; intros a Hrect.
  - cbn. split; [done|]. split; [done|]. intros i j. unfold entry. cbn.
    destruct (a !! i) as [row|] eqn:Hrow; [|done]. cbn.
    rewrite Forall_lookup in Hrect. apply Hrect in Hrow.
    by destruct row.
  - destruct (zip_next_rect a c Hrect)
      as (t & a' & Hnext & Hrect' & Ht & Ha' & H0 & HS).
    destruct (IH a' Hrect') as (Hlen & Hcols & Hentry).
    cbn. rewrite Hnext. cbn.
    split; [by rewrite Hlen|]. split.
    + constructor; [done|]. by rewrite <- Ha'.
    + intros i [|j]; [apply H0|].
      unfold entry in *. cbn. by rewrite Hentry, HS.
Qed.

(** On a rectangular matrix with at least one row, [transpose] swaps rows
    and columns. *)
Lemma transpose_rect a (cols : nat) :
  Forall (fun row => length row = cols) a -> a <> [] ->
  length (vectorops.transpose a) = cols
  /\ Forall (fun col => length col = length a) (vectorops.transpose a)
  /\ (forall i j, entry (vectorops.transpose a) j i = entry a i j).
Proof.
  intros Hrect Hne. unfold vectorops.transpose, builtin_zip, builtin_list.
  destruct a as [|row a]; [done|]. rewrite map_id.
  assert (length row = cols) as -> by by inversion Hrect.
  by apply zip_loop_rect.
Qed.

Lemma matrix_ext a b :
  length a = length b -> (forall i j, entry a i j = entry b i j) -> a = b.
Proof.
  intros Hlen Hentry. apply list_eq. intros i.
  destruct (a !! i) as [row|] eqn:Ha, (b !! i) as [row'|] eqn:Hb.
  - f_equal. apply list_eq. intros j. specialize (Hentry i j).
    unfold entry in Hentry. by rewrite Ha, Hb in Hentry.
  - apply lookup_lt_Some in Ha. apply lookup_ge_None in Hb. lia.
  - apply lookup_ge_None in Ha. apply lookup_lt_Some in Hb. lia.
  - done.
Qed.

Lemma transpose_transpose a (cols : nat) :
  Forall (fun row => length row = cols) a -> (0 < cols)%nat ->
  vectorops.transpose (vectorops.transpose a) = a.
Proof.
  intros Hrect Hcols. destruct (decide (a = [])) as [->|Hne]; [done|].
  destruct (transpose_rect a cols Hrect Hne) as (Hlen & Hcol & Hentry).
  assert (vectorops.transpose a <> []) as Hne'.
  { intros Hnil. rewrite Hnil in Hlen. cbn in Hlen. lia. }
  destruct (transpose_rect _ _ Hcol Hne') as (Hlen' & _ & Hentry').
  apply matrix_ext; [done|].
  intros i j. by rewrite Hentry', Hentry.
Qed.

(** C8, amended.  For every rectangular matrix A with at least one column
    (rows of equal, non-zero length, not necessarily square), transpose(A)
    is the matrix with rows and columns swapped, and
    transpose(transpose(A)) equals A exactly. *)
Theorem transpose_swaps_and_is_involutive a (cols : nat) :
  Forall (fun row => length row = cols) a -> (0 < cols)%nat ->
  (a <> [] -> length (vectorops.transpose a) = cols)
  /\ Forall (fun col => length col = length a) (vectorops.transpose a)
  /\ (forall i j, entry (vectorops.transpose a) j i = entry a i j)
  /\ vectorops.transpose (vectorops.transpose a) = a.
Proof.
  intros Hrect Hcols.
  split; [intros Hne; by apply (transpose_rect a cols)|].
  split; [|split].
  - destruct (decide (a = [])) as [->|Hne]; [by constructor|].
    by apply (transpose_rect a cols).
  - destruct (decide (a = [])) as [->|Hne].
    + intros i j. unfold entry. cbn. by destruct j.
    + by apply (transpose_rect a cols).
  - by apply (transpose_transpose a cols).
Qed.

End Transpose.

(** C8 as stated fails on a matrix whose rows are empty: the transpose of
    the 1-by-0 matrix [[[]]] has no row, and so has its transpose. *)
Lemma transpose_without_columns :
  Forall (fun row : list Z => length row = 0%nat) [[]]
  /\ vectorops.transpose (vectorops.transpose [@nil Z]) = []
  /\ vectorops.transpose (vectorops.transpose [@nil Z]) <> [[]].
Proof. split; [by repeat constructor|]. split; [reflexivity | discriminate]. Qed.

Lemma transpose_swaps_and_is_involutive_witness :
  let a := [[1; 2; 3]; [4; 5; 6]]%Z in
  (Forall (fun row => length row = 3%nat) a /\ (0 < 3)%nat)
  /\ vectorops.transpose a = [[1; 4]; [2; 5]; [3; 6]]%Z
  /\ vectorops.transpose (vectorops.transpose a) = a.
Proof.
  intros a.
  assert (Forall (fun row => length row = 3%nat) a) as Hrect
    by by repeat constructor.
  assert (0 < 3)%nat as Hcols by lia.
  split; [done|]. split; [reflexivity|].
  exact (proj2 (proj2 (proj2
    (transpose_swaps_and_is_involutive a 3 Hrect Hcols)))).
Defined.

(** ** reshape *)

Section Reshape.

Context {A : Type}.

Lemma reshape_row_loop (l : list (pyobj A)) (ys : list nat)
    (row : list (pyobj A)) (i : nat) :
  (i + length ys <= length l)%nat ->
  foldM (fun (st' : list (pyobj A) * nat) (y : nat) =>
           let '(row, index_) := st' in
           item <- getitem (PyList l) index_ ;;
           Ok (row ++ [item], S index_))
        (row, i) ys
  = Ok (row ++ take (length ys) (drop i l), (i + length ys)%nat).
Proof.
  revert row i. induction ys as [|y ys IH]; intros row i Hlen; cbn.
  - by rewrite app_nil_r, Nat.add_0_r.
  - cbn in Hlen. unfold index.
    destruct (lookup_lt_is_Some_2 l i ltac:(lia)) as [x Hx].
    rewrite Hx. cbn. rewrite IH by lia.
    rewrite (drop_S l x i Hx). cbn.
    rewrite <- app_assoc. do 2 f_equal. lia.
Qed.

Lemma reshape_rows_loop (l : list (pyobj A)) (c : nat)
    (body : list (pyobj A) * nat -> nat -> result (list (pyobj A) * nat))
    (xs : list nat) (b : list (pyobj A)) (i : nat) :
  (forall b i x,
     body (b, i) x
     = (st' <- foldM (fun (st' : list (pyobj A) * nat) (y : nat) =>
                        let '(row, index_) := st' in
                        item <- getitem (PyList l) index_ ;;
                        Ok (row ++ [item], S index_))
                     ([], i) (seq 0 c) ;;
        let '(row, index_) := st' in
        Ok (b ++ [PyList row], index_))) ->
  (i + length xs * c <= length l)%nat ->
  foldM body (b, i) xs
  = Ok (b ++ map (fun x => PyList (take c (drop (i + x * c) l)))
                 (seq 0 (length xs)),
        (i + length xs * c)%nat).
Proof.
  intros Hbody. revert b i. induction xs as [|x xs IH]; intros b i Hlen.
  - cbn. by rewrite app_nil_r, Nat.add_0_r.
  - cbn [foldM length] in *. rewrite Hbody.
    rewrite reshape_row_loop by (rewrite length_seq; lia).
    rewrite length_seq. cbn [bind app].
    rewrite IH by lia. f_equal. f_equal; [|lia].
    rewrite <- app_assoc. f_equal. cbn [app seq map].
    rewrite Nat.add_0_r. f_equal.
    rewrite <- fmap_S_seq, <- list_fmap_compose.
    apply list_fmap_ext. intros _ k _. cbn. do 3 f_equal. lia.
Qed.

Lemma of_matrix_unflatten (r c : nat) (a : list A) :
  of_matrix (unflatten r c a)
  = PyList (map (fun x => PyList (take c (drop (x * c) (map Item a))))
                (seq 0 r)).
Proof.
  unfold of_matrix, unflatten, of_vector. f_equal.
  rewrite <- list_fmap_compose. apply list_fmap_ext. intros _ x _. cbn.
  by rewrite fmap_take, fmap_drop.
Qed.

Lemma reshape_tuple (a : list A) (rows cols : Z) :
  (Z.to_nat rows * Z.to_nat cols <= length a)%nat ->
  vectorops.reshape (of_vector a) (ShapeTuple [rows; cols])
  = Ok (of_matrix (unflatten (Z.to_nat rows) (Z.to_nat cols) a)).
Proof.
  intros Hlen. unfold vectorops.reshape, of_vector.
  change (index [rows; cols] 0) with (Ok rows). cbn [bind].
  rewrite (reshape_rows_loop (map Item a) (Z.to_nat cols));
    [|intros; reflexivity
     |unfold range; rewrite length_seq, length_map; lia].
  cbn [bind fst app]. unfold range. rewrite length_seq.
  by rewrite of_matrix_unflatten.
Qed.

Lemma unflatten_spec (r c : nat) (a : list A) :
  (r * c <= length a)%nat ->
  length (unflatten r c a) = r
  /\ Forall (fun row => length row = c) (unflatten r c a)
  /\ (forall x y, (x < r)%nat -> (y < c)%nat ->
        entry (unflatten r c a) x y = a !! (x * c + y)%nat).
Proof.
  intros Hlen. unfold unflatten. split; [by rewrite length_map, length_seq|].
  split.
  - apply Forall_fmap, Forall_forall. intros x Hx%elem_of_seq. cbn.
    rewrite length_take, length_drop. nia.
  - intros x y Hx Hy. unfold entry.
    rewrite list_lookup_fmap, lookup_seq_lt by done. cbn.
    by rewrite lookup_take_lt, lookup_drop by done.
Qed.

Lemma mapM_iter_of_vector (m : list (list A)) :
  mapM iter (map of_vector m) = Ok (map (map Item) m).
Proof.
  induction m as [|row m IH]; [reflexivity|]. cbn. by rewrite IH.
Qed.

Lemma concat_map_Item (m : list (list A)) :
  concat (map (map Item) m) = map (@Item A) (concat m).
Proof.
  induction m as [|row m IH]; [reflexivity|].
  cbn. by rewrite IH, map_app.
Qed.

Lemma reshape_int (m : list (list A)) (n : Z) :
  vectorops.reshape (of_matrix m) (ShapeInt n)
  = Ok (of_vector (if decide (0 <= n < Z.of_nat (length (concat m)))%Z
                   then take (Z.to_nat n) (concat m)
                   else concat m)).
Proof.
  unfold vectorops.reshape, of_matrix. cbn [iter bind].
  rewrite mapM_iter_of_vector. cbn [bind].
  rewrite concat_map_Item, length_map.
  case_decide; unfold of_vector; [|done]. by rewrite fmap_take.
Qed.

End Reshape.

(** C6, amended.  [reshape(a, new_shape)] has two modes and a third
    outcome.  With a (rows, cols) pair and a flat sequence [a] that holds
    the rows*cols elements, it returns the rows-by-cols matrix whose element
    (x, y) is [a[x*cols + y]] (row-major order).  With a single integer [n]
    and a matrix [a], it flattens [a] row-major and returns the first [n]
    elements if [0 <= n < length] of the flattened sequence, and the whole
    flattened sequence otherwise.  With a shape that is neither a tuple nor
    an int it returns the empty list, whatever [a] is.
    [reshape([1,2,3,4,5,6], (2,3))] is [[[1,2,3],[4,5,6]]] and
    [reshape([[1,2],[3,4]], 3)] is [[1,2,3]]. *)
Theorem reshape_modes :
  (forall (A : Type) (a : list A) (rows cols : Z),
     (Z.to_nat rows * Z.to_nat cols <= length a)%nat ->
     exists b,
       vectorops.reshape (of_vector a) (ShapeTuple [rows; cols])
       = Ok (of_matrix b)
       /\ length b = Z.to_nat rows
       /\ Forall (fun row => length row = Z.to_nat cols) b
       /\ (forall x y, (x < Z.to_nat rows)%nat -> (y < Z.to_nat cols)%nat ->
             entry b x y = a !! (x * Z.to_nat cols + y)%nat))
  /\ (forall (A : Type) (m : list (list A)) (n : Z),
        vectorops.reshape (of_matrix m) (ShapeInt n)
        = Ok (of_vector
                (if decide (0 <= n < Z.of_nat (length (concat m)))%Z
                 then take (Z.to_nat n) (concat m)
                 else concat m)))
  /\ (forall (A : Type) (a : pyobj A),
        vectorops.reshape a ShapeOther = Ok (PyList []))
  /\ vectorops.reshape (of_vector [1; 2; 3; 4; 5; 6]%Z) (ShapeTuple [2; 3]%Z)
     = Ok (of_matrix [[1; 2; 3]; [4; 5; 6]]%Z)
  /\ vectorops.reshape (of_matrix [[1; 2]; [3; 4]]%Z) (ShapeInt 3)
     = Ok (of_vector [1; 2; 3]%Z).
Proof.
  split.
  { intros A a rows cols Hlen.
    exists (unflatten (Z.to_nat rows) (Z.to_nat cols) a).
    split; [by apply reshape_tuple|]. by apply unflatten_spec. }
  split; [intros; apply reshape_int|].
  split; [reflexivity|].
  split; reflexivity.
Qed.

(** C6 as stated fails on a shape that is neither a tuple nor an int: for the
    list [[2, 2]] as shape, [reshape([1,2,3,4], [2,2])] is the empty list,
    not the matrix the pair (2, 2) gives, and [reshape([[1,2],[3,4]], [4])]
    is the empty list, not the flattened sequence the integer 4 gives. *)
Lemma reshape_list_shape_gives_empty_list :
  vectorops.reshape (of_vector [1; 2; 3; 4]%Z) ShapeOther = Ok (PyList [])
  /\ vectorops.reshape (of_vector [1; 2; 3; 4]%Z) (ShapeTuple [2; 2]%Z)
     = Ok (of_matrix [[1; 2]; [3; 4]]%Z)
  /\ vectorops.reshape (of_matrix [[1; 2]; [3; 4]]%Z) ShapeOther
     = Ok (PyList [])
  /\ vectorops.reshape (of_matrix [[1; 2]; [3; 4]]%Z) (ShapeInt 4)
     = Ok (of_vector [1; 2; 3; 4]%Z)
  /\ @PyList Z [] <> of_matrix [[1; 2]; [3; 4]]%Z
  /\ @PyList Z [] <> of_vector [1; 2; 3; 4]%Z.
Proof. repeat split; (reflexivity || discriminate). Qed.

Lemma reshape_modes_witness :
  let a := [1; 2; 3; 4; 5; 6; 7]%Z in
  (Z.to_nat 3 * Z.to_nat 2 <= length a)%nat
  /\ exists b,
       vectorops.reshape (of_vector a) (ShapeTuple [3; 2]%Z)
       = Ok (of_matrix b)
       /\ length b = 3%nat
       /\ entry b 2 1 = Some 6%Z.
Proof.
  intros a.
  assert (Z.to_nat 3 * Z.to_nat 2 <= length a)%nat as Hlen by (cbn; lia).
  split; [exact Hlen|].
  destruct (proj1 reshape_modes Z a 3%Z 2%Z Hlen)
    as (b & Hb & Hrows & _ & Hentry).
  exists b. split; [exact Hb|]. split; [exact Hrows|].
  apply (Hentry 2%nat 1%nat); cbn; lia.
Defined.

(** ** Purity on the store *)

Section Frame.

Context {num : Type}.

Abbreviation heap := (heap num).
Abbreviation M := (@Heap.M num).

Implicit Types (h : heap) (v r : loc) (l : list (val num)).

(** *** The store *)

Lemma alloc_fresh h l : fresh (dom h) ∉ dom h.
Proof. apply is_fresh. Qed.

Lemma alloc_extends h l : h ⊆ <[fresh (dom h) := l]> h.
Proof. apply insert_subseteq, not_elem_of_dom, is_fresh. Qed.

Lemma is_vector_weaken h h' v : h ⊆ h' -> is_vector h v -> is_vector h' v.
Proof.
  intros Hsub (l & Hl & Hnum). exists l. split; [|done].
  by eapply lookup_weaken.
Qed.

Lemma fresh_vector_mono h0 h h1 h2 v :
  h0 ⊆ h -> h1 ⊆ h2 -> fresh_vector h h1 v -> fresh_vector h0 h2 v.
Proof.
  intros H0 H12 [Hfresh Hvec]. split; [|by eapply is_vector_weaken].
  intros Hv. apply Hfresh. by eapply subseteq_dom.
Qed.

Lemma fresh_vector_shares_nothing h h' v :
  h ⊆ h' -> fresh_vector h h' v -> shares_nothing h h' v.
Proof.
  intros Hsub [Hfresh (l & Hl & Hnum)] r Hreach.
  destruct Hreach as [|v l' r r' Hl' Hin _]; [done|].
  rewrite Hl in Hl'. injection Hl' as <-.
  rewrite Forall_forall in Hnum. by apply Hnum in Hin.
Qed.

Lemma fresh_matrix_shares_nothing h h' v :
  h ⊆ h' -> fresh_matrix h h' v -> shares_nothing h h' v.
Proof.
  intros Hsub [Hfresh (l & Hl & Hrows)] r Hreach.
  destruct Hreach as [|v l' r r' Hl' Hin Hreach]; [done|].
  rewrite Hl in Hl'. injection Hl' as <-.
  rewrite Forall_forall in Hrows.
  destruct (Hrows _ Hin) as (r0 & [= <-] & Hrow).
  by eapply fresh_vector_shares_nothing.
Qed.

(** *** Computations that only read *)

Lemma read_only_ret {A : Type} (a : A) : read_only (Heap.ret (num:=num) a).
Proof. done. Qed.

Lemma read_only_lift {A : Type} (r : result A) :
  read_only (Heap.lift (num:=num) r).
Proof. done. Qed.

Lemma read_only_load v : read_only (Heap.load (num:=num) v).
Proof. intros h. unfold Heap.load. by destruct (h !! v). Qed.

Lemma read_only_bind {A B : Type} (m : M A) (k : A -> M B) :
  read_only m -> (forall a, read_only (k a)) -> read_only (Heap.bind m k).
Proof.
  intros Hm Hk h. unfold Heap.bind. specialize (Hm h).
  destruct (m h) as [[a|e] h1]; cbn in Hm; subst; [apply Hk | done].
Qed.

Lemma read_only_as_num (x : val num) : read_only (Heap.as_num x).
Proof. by destruct x. Qed.

Lemma read_only_as_ref (x : val num) : read_only (Heap.as_ref x).
Proof. by destruct x. Qed.

Lemma read_only_if {A : Type} (b : bool) (m1 m2 : M A) :
  read_only m1 -> read_only m2 -> read_only (if b then m1 else m2).
Proof. by destruct b. Qed.

Lemma read_only_extends {A : Type} (m : M A) : read_only m -> extends m.
Proof. intros Hm h. by rewrite Hm. Qed.

End Frame.

Create HintDb store discriminated.
#[export] Hint Resolve read_only_ret read_only_lift read_only_load
  read_only_as_num read_only_as_ref : store.
#[export] Hint Extern 2 (read_only (Heap.bind _ _)) =>
  apply read_only_bind; [|intros] : store.
#[export] Hint Extern 2 (read_only (if _ then _ else _)) =>
  apply read_only_if : store.

Section Loops.

Context {num : Type} `{Number num}.

Abbreviation M := (@Heap.M num).

Implicit Types (v : loc).

Lemma read_only_mapM {A B : Type} (f : A -> M B) (l : list A) :
  (forall x, read_only (f x)) -> read_only (Heap.mapM f l).
Proof. intros Hf. induction l as [|x l IH]; cbn; auto with store. Qed.

Lemma read_only_foldM {S A : Type} (body : S -> A -> M S) (s : S) (l : list A) :
  (forall s x, read_only (body s x)) -> read_only (Heap.foldM body s l).
Proof.
  intros Hbody. revert s. induction l as [|x l IH]; intros s; cbn;
    auto with store.
Qed.

Lemma read_only_len v : read_only (Heap.len (num:=num) v).
Proof. unfold Heap.len. auto with store. Qed.

Lemma read_only_getitem v i : read_only (Heap.getitem (num:=num) v i).
Proof. unfold Heap.getitem. auto with store. Qed.

Lemma read_only_getnum v i : read_only (Heap.getnum (num:=num) v i).
Proof. unfold Heap.getnum. auto using read_only_getitem with store. Qed.

Lemma read_only_getref v i : read_only (Heap.getref (num:=num) v i).
Proof. unfold Heap.getref. auto using read_only_getitem with store. Qed.

Lemma read_only_getnum2 m i j : read_only (Heap.getnum2 (num:=num) m i j).
Proof.
  unfold Heap.getnum2. auto using read_only_getref, read_only_getnum with store.
Qed.

End Loops.

#[export] Hint Resolve read_only_len read_only_getitem read_only_getnum
  read_only_getref read_only_getnum2 : store.
#[export] Hint Extern 2 (read_only (Heap.mapM _ _)) =>
  apply read_only_mapM; intros : store.
#[export] Hint Extern 2 (read_only (Heap.foldM _ _ _)) =>
  apply read_only_foldM; intros : store.

(** *** Computations that allocate *)

Section Allocation.

Context {num : Type} `{Number num}.

Abbreviation heap := (heap num).
Abbreviation M := (@Heap.M num).

Implicit Types (h : heap) (v r : loc) (l : list (val num)).

Lemma extends_bind {A B : Type} (m : M A) (k : A -> M B) :
  extends m -> (forall a, extends (k a)) -> extends (Heap.bind m k).
Proof.
  intros Hm Hk h. unfold Heap.bind. specialize (Hm h).
  destruct (m h) as [[a|e] h1]; cbn in Hm; [|done].
  etransitivity; [exact Hm | apply Hk].
Qed.

Lemma extends_alloc l : extends (Heap.alloc l).
Proof. intros h. apply alloc_extends. Qed.

Lemma allocates_vector_extends (m : M loc) : allocates_vector m -> extends m.
Proof. intros Hm h. apply Hm. Qed.

Lemma allocates_matrix_extends (m : M loc) : allocates_matrix m -> extends m.
Proof. intros Hm h. apply Hm. Qed.

Lemma allocates_vector_alloc l : Forall is_num l -> allocates_vector (Heap.alloc l).
Proof.
  intros Hl h. split; [apply alloc_extends|]. cbn. intros v [= <-].
  split; [apply is_fresh|]. exists l. by rewrite lookup_insert_eq.
Qed.

Lemma Forall_is_num_VNum (zs : list num) : Forall is_num (VNum <$> zs).
Proof. apply Forall_fmap. by apply Forall_true. Qed.

Lemma allocates_vector_bind {A : Type} (m : M A) (k : A -> M loc) :
  extends m -> (forall a, allocates_vector (k a)) ->
  allocates_vector (Heap.bind m k).
Proof.
  intros Hm Hk h. unfold Heap.bind. specialize (Hm h).
  destruct (m h) as [[a|e] h1]; cbn in Hm; [|done].
  destruct (Hk a h1) as [Hsub Hfresh].
  split; [by etransitivity|].
  intros v Hv. eapply fresh_vector_mono; [exact Hm | reflexivity | by apply Hfresh].
Qed.

Lemma allocates_vector_ret (m : M loc) :
  allocates_vector m -> allocates_vector (Heap.bind m Heap.ret).
Proof.
  intros Hm h. unfold Heap.bind. specialize (Hm h).
  by destruct (m h) as [[a|e] h1].
Qed.

Lemma allocates_rows_mapM {A : Type} (f : A -> M loc) (xs : list A) :
  (forall x, x ∈ xs -> allocates_vector (f x)) ->
  allocates_rows (Heap.mapM f xs).
Proof.
  induction xs as [|x xs IH]; intros Hf h.
  - split; [done|]. cbn. by intros rs [= <-].
  - cbn [Heap.mapM]. unfold Heap.bind, Heap.ret.
    destruct (Hf x ltac:(left) h) as [Hsub Hfresh].
    destruct (f x h) as [[y|e] h1]; cbn in Hsub, Hfresh |- *; [|done].
    destruct (IH (fun x' Hx' => Hf x' ltac:(by right)) h1) as [Hsub' Hrows].
    destruct (Heap.mapM f xs h1) as [[ys|e] h2]; cbn in Hsub', Hrows |- *.
    + split; [by etransitivity|]. intros rs [= <-]. constructor.
      * eapply fresh_vector_mono; [reflexivity | exact Hsub' | by apply Hfresh].
      * eapply Forall_impl; [by apply Hrows|].
        intros r Hr. eapply fresh_vector_mono; [exact Hsub | reflexivity | exact Hr].
    + split; [by etransitivity | done].
Qed.

Lemma allocates_matrix_rows (m : M (list loc)) :
  allocates_rows m ->
  allocates_matrix (Heap.bind m (fun rs => Heap.alloc (VRef <$> rs))).
Proof.
  intros Hm h. unfold Heap.bind. destruct (Hm h) as [Hsub Hrows].
  destruct (m h) as [[rs|e] h1]; cbn in Hsub, Hrows |- *; [|done].
  pose proof (alloc_extends h1 (VRef <$> rs)) as Hsub1.
  split; [by etransitivity|]. intros v [= <-]. split.
  - intros Hv. apply (is_fresh (dom h1)). by eapply subseteq_dom.
  - exists (VRef <$> rs). split; [by rewrite lookup_insert_eq|].
    apply Forall_fmap. eapply Forall_impl; [by apply Hrows|].
    intros r Hr. exists r. split; [done|].
    eapply fresh_vector_mono; [reflexivity | exact Hsub1 | exact Hr].
Qed.

Lemma fresh_matrix_mono h0 h h1 v :
  h0 ⊆ h -> fresh_matrix h h1 v -> fresh_matrix h0 h1 v.
Proof.
  intros H0 [Hfresh (l & Hl & Hrows)]. split.
  - intros Hv. apply Hfresh. by eapply subseteq_dom.
  - exists l. split; [done|]. eapply Forall_impl; [exact Hrows|].
    intros x (r & -> & Hr). exists r. split; [done|].
    eapply fresh_vector_mono; [exact H0 | reflexivity | exact Hr].
Qed.

Lemma allocates_matrix_bind {A : Type} (m : M A) (k : A -> M loc) :
  extends m -> (forall a, allocates_matrix (k a)) ->
  allocates_matrix (Heap.bind m k).
Proof.
  intros Hm Hk h. unfold Heap.bind. specialize (Hm h).
  destruct (m h) as [[a|e] h1]; cbn in Hm; [|done].
  destruct (Hk a h1) as [Hsub Hfresh].
  split; [by etransitivity|].
  intros v Hv. eapply fresh_matrix_mono; [exact Hm | by apply Hfresh].
Qed.

Lemma allocates_matrix_ret (m : M loc) :
  allocates_matrix m -> allocates_matrix (Heap.bind m Heap.ret).
Proof.
  intros Hm h. unfold Heap.bind. specialize (Hm h).
  by destruct (m h) as [[a|e] h1].
Qed.

Lemma allocates_matrix_alloc_matrix (rows : list (list num)) :
  allocates_matrix (Heap.alloc_matrix rows).
Proof.
  apply allocates_matrix_rows, allocates_rows_mapM.
  intros row _. apply allocates_vector_alloc, Forall_is_num_VNum.
Qed.

(** A comprehension over numbers read from the store, then the new list. *)
Lemma allocates_vector_comprehension (m : M (list num)) :
  read_only m ->
  allocates_vector (Heap.bind m (fun zs => Heap.alloc (VNum <$> zs))).
Proof.
  intros Hm. apply allocates_vector_bind; [by apply read_only_extends|].
  intros zs. apply allocates_vector_alloc, Forall_is_num_VNum.
Qed.

End Allocation.

Section Vectors.

Context {num : Type} `{Number num}.
Variables (sqrt cos sin fabs : num -> num) (atan2 : num -> num -> num).

Implicit Types (u v m a : loc) (c : num).

Lemma magnitude_read_only v : read_only (Heap.magnitude sqrt v).
Proof. unfold Heap.magnitude. auto 10 with store. Qed.

Lemma dot_read_only u v : read_only (Heap.dot u v).
Proof. unfold Heap.dot. auto 10 with store. Qed.

Ltac comprehension :=
  apply allocates_vector_bind; [apply read_only_extends; auto with store|];
  intros; apply allocates_vector_comprehension; auto 10 with store.

Lemma add_allocates u v : allocates_vector (Heap.add u v).
Proof. unfold Heap.add. comprehension. Qed.

Lemma sub_allocates u v : allocates_vector (Heap.sub u v).
Proof. unfold Heap.sub. comprehension. Qed.

Lemma eldiv_allocates u v : allocates_vector (Heap.eldiv u v).
Proof. unfold Heap.eldiv. comprehension. Qed.

Lemma elmult_allocates u v : allocates_vector (Heap.elmult u v).
Proof. unfold Heap.elmult. comprehension. Qed.

Lemma mult_allocates u c : allocates_vector (Heap.mult u c).
Proof. unfold Heap.mult. comprehension. Qed.

Lemma div_allocates u c : allocates_vector (Heap.div u c).
Proof. unfold Heap.div. comprehension. Qed.

Lemma normalize_allocates v : allocates_vector (Heap.normalize sqrt v).
Proof.
  unfold Heap.normalize.
  apply allocates_vector_bind;
    [apply read_only_extends, magnitude_read_only|].
  intros vmag. comprehension.
Qed.

(** Reads, then a computation that allocates. *)
Ltac vector_after_reads :=
  repeat (apply allocates_vector_bind;
          [apply read_only_extends; solve [auto with store]|]; intros).

Ltac matrix_after_reads :=
  repeat (apply allocates_matrix_bind;
          [apply read_only_extends; solve [auto with store]|]; intros).

Lemma cross_allocates u v : allocates_vector (Heap.cross u v).
Proof.
  unfold Heap.cross. vector_after_reads.
  apply allocates_vector_ret, allocates_vector_alloc.
  by repeat constructor.
Qed.

Lemma axis_angle_to_quaternion_allocates a c :
  allocates_vector (Heap.axis_angle_to_quaternion cos sin a c).
Proof.
  unfold Heap.axis_angle_to_quaternion.
  vector_after_reads.
  apply allocates_vector_ret, allocates_vector_alloc.
  by repeat constructor.
Qed.

Lemma matrix_vector_mult_allocates m v :
  allocates_vector (Heap.matrix_vector_mult m v).
Proof.
  unfold Heap.matrix_vector_mult.
  apply allocates_vector_bind; [apply read_only_extends; auto with store|].
  intros rows. apply allocates_vector_comprehension.
  auto using dot_read_only with store.
Qed.

Lemma matrix_constant_mult_allocates m c :
  allocates_matrix (Heap.matrix_constant_mult m c).
Proof.
  unfold Heap.matrix_constant_mult.
  apply allocates_matrix_bind; [apply read_only_extends; auto with store|].
  intros rows. apply allocates_matrix_rows, allocates_rows_mapM.
  intros row_m _.
  apply allocates_vector_bind; [apply read_only_extends; auto with store|].
  intros r. apply mult_allocates.
Qed.

Lemma euler_to_rotation_matrix_allocates a :
  allocates_matrix (Heap.euler_to_rotation_matrix cos sin a).
Proof.
  unfold Heap.euler_to_rotation_matrix.
  matrix_after_reads.
  apply allocates_matrix_ret, allocates_matrix_alloc_matrix.
Qed.

Lemma quaternion_to_rotation_matrix_allocates a :
  allocates_matrix (Heap.quaternion_to_rotation_matrix sqrt a).
Proof.
  unfold Heap.quaternion_to_rotation_matrix.
  apply allocates_matrix_bind;
    [apply read_only_extends, magnitude_read_only|].
  intros mag_q.
  apply allocates_matrix_bind;
    [apply allocates_vector_extends, div_allocates|].
  intros norm_q.
  apply allocates_matrix_bind; [apply read_only_extends; auto with store|].
  intros items.
  apply allocates_matrix_bind; [apply read_only_extends; auto with store|].
  intros [[[qw qx] qy] qz].
  matrix_after_reads.
  apply allocates_matrix_ret, allocates_matrix_alloc_matrix.
Qed.

Lemma axis_angle_to_rotation_matrix_allocates a c :
  allocates_matrix (Heap.axis_angle_to_rotation_matrix sqrt cos sin a c).
Proof.
  unfold Heap.axis_angle_to_rotation_matrix.
  apply allocates_matrix_bind;
    [apply allocates_vector_extends, axis_angle_to_quaternion_allocates|].
  intros q. apply quaternion_to_rotation_matrix_allocates.
Qed.

End Vectors.

(** *** Computations that fill a list of their own *)

Section Updates.

Context {num : Type} `{Number num}.

Abbreviation heap := (heap num).
Abbreviation M := (@Heap.M num).

Implicit Types (h : heap) (v r res : loc) (l : list (val num)).

Lemma unchanged_subseteq h0 h h' res :
  res ∉ dom h0 -> h0 ⊆ h -> (forall r, r <> res -> h' !! r = h !! r) ->
  h0 ⊆ h'.
Proof.
  intros Hres Hsub Hsame. apply map_subseteq_spec. intros r l Hr.
  rewrite Hsame; [by eapply lookup_weaken|].
  intros ->. by apply Hres, elem_of_dom.
Qed.

Lemma updates_vector_read_only {A : Type} h0 res (m : M A) :
  read_only m -> updates_vector h0 res m.
Proof.
  intros Hm h _ Hvec. split; [intros r _|]; by rewrite Hm.
Qed.

Lemma updates_vector_bind {A B : Type} h0 res (m : M A) (k : A -> M B) :
  res ∉ dom h0 ->
  updates_vector h0 res m -> (forall a, updates_vector h0 res (k a)) ->
  updates_vector h0 res (Heap.bind m k).
Proof.
  intros Hres Hm Hk h Hsub Hvec. unfold Heap.bind.
  destruct (Hm h Hsub Hvec) as [Hsame Hvec'].
  destruct (m h) as [[a|e] h1]; cbn in Hsame, Hvec' |- *; [|done].
  destruct (Hk a h1) as [Hsame' Hvec'']; [by eapply unchanged_subseteq | done |].
  split; [|done]. intros r Hr. by rewrite Hsame', Hsame.
Qed.

Lemma updates_vector_foldM {S A : Type} h0 res (body : S -> A -> M S)
    (s : S) (xs : list A) :
  res ∉ dom h0 ->
  (forall s x, updates_vector h0 res (body s x)) ->
  updates_vector h0 res (Heap.foldM body s xs).
Proof.
  intros Hres Hbody. revert s. induction xs as [|x xs IH]; intros s; cbn.
  - by apply updates_vector_read_only.
  - by apply updates_vector_bind.
Qed.

Lemma updates_vector_if {A : Type} h0 res (b : bool) (m1 m2 : M A) :
  updates_vector h0 res m1 -> updates_vector h0 res m2 ->
  updates_vector h0 res (if b then m1 else m2).
Proof. by destruct b. Qed.

Lemma updates_vector_append h0 res (x : val num) :
  is_num x -> updates_vector h0 res (Heap.append res x).
Proof.
  intros Hx h _ (l & Hl & Hnum). unfold Heap.append, Heap.bind, Heap.load.
  rewrite Hl. cbn. split.
  - intros r Hr. by rewrite lookup_insert_ne.
  - exists (l ++ [x]). rewrite lookup_insert_eq. split; [done|].
    apply Forall_app. by split; [|constructor].
Qed.

Lemma updates_vector_setitem h0 res (i : nat) (x : val num) :
  is_num x -> updates_vector h0 res (Heap.setitem res i x).
Proof.
  intros Hx h _ (l & Hl & Hnum).
  unfold Heap.setitem, Heap.bind, Heap.load, Heap.lift, setitem.
  rewrite Hl. destruct (l !! i); cbn; [|by split; [|exists l]]. split.
  - intros r Hr. by rewrite lookup_insert_ne.
  - exists (<[i:=x]> l). rewrite lookup_insert_eq. split; [done|].
    by apply Forall_insert.
Qed.

Lemma allocates_vector_raise (e : exn) :
  allocates_vector (Heap.lift (num:=num) (Raise e)).
Proof. intros h. by split. Qed.

(** A new list that the rest of the call fills and returns. *)
Lemma allocates_vector_update {A : Type} (init : list (val num))
    (body : loc -> M A) :
  Forall is_num init ->
  (forall h0 res, res ∉ dom h0 -> updates_vector h0 res (body res)) ->
  allocates_vector
    (Heap.bind (Heap.alloc init)
       (fun res => Heap.bind (body res) (fun _ => Heap.ret res))).
Proof.
  intros Hinit Hbody h. unfold Heap.bind at 1. cbn.
  set (res := fresh (dom h)).
  assert (res ∉ dom h) as Hres by apply is_fresh.
  destruct (Hbody h res Hres (<[res:=init]> h)) as [Hsame Hvec].
  { apply alloc_extends. }
  { exists init. by rewrite lookup_insert_eq. }
  assert (h ⊆ (body res (<[res:=init]> h)).2) as Hsub.
  { eapply unchanged_subseteq; [exact Hres | apply alloc_extends | exact Hsame]. }
  unfold Heap.bind.
  destruct (body res (<[res:=init]> h)) as [[a|e] h1]; cbn in *; [|done].
  split; [done|]. by intros v [= <-].
Qed.

End Updates.

Section MoreVectors.

Context {num : Type} `{Number num}.
Variables (sqrt cos sin fabs : num -> num) (atan2 : num -> num -> num).

Implicit Types (u v m a : loc) (c : num).

Ltac updates :=
  repeat first
    [ apply updates_vector_setitem; exact I
    | apply updates_vector_append; exact I
    | apply updates_vector_read_only; solve [auto 10 with store]
    | apply updates_vector_if
    | apply updates_vector_foldM; [assumption | intros]
    | apply updates_vector_bind; [assumption | | intros] ].

Lemma vector_matrix_mult_allocates v m :
  allocates_vector (Heap.vector_matrix_mult v m).
Proof.
  unfold Heap.vector_matrix_mult.
  apply allocates_vector_bind; [apply read_only_extends; auto with store|].
  intros rows.
  apply allocates_vector_bind; [apply read_only_extends; auto with store|].
  intros len_v. case_decide; [apply allocates_vector_raise|].
  apply allocates_vector_bind; [apply read_only_extends; auto with store|].
  intros m0.
  apply allocates_vector_bind; [apply read_only_extends; auto with store|].
  intros columns.
  apply allocates_vector_update; [constructor|].
  intros h0 res Hres. updates.
Qed.

Lemma matrix_mult_allocates a m : allocates_matrix (Heap.matrix_mult a m).
Proof.
  unfold Heap.matrix_mult.
  apply allocates_matrix_bind; [apply read_only_extends; auto with store|].
  intros rows. apply allocates_matrix_rows, allocates_rows_mapM.
  intros row_a _.
  apply allocates_vector_bind; [apply read_only_extends; auto with store|].
  intros r. apply vector_matrix_mult_allocates.
Qed.

Lemma rotation_matrix_to_euler_allocates m :
  allocates_vector (Heap.rotation_matrix_to_euler cos sin fabs atan2 m).
Proof.
  unfold Heap.rotation_matrix_to_euler.
  apply allocates_vector_update; [by repeat constructor|].
  intros h0 res Hres. unfold Heap.rotation_matrix_to_euler_branches.
  updates.
Qed.

End MoreVectors.

(** *** transpose and reshape: the elements are copied as they are *)

Section Copies.

Context {num : Type} `{Number num}.

Abbreviation heap := (heap num).
Abbreviation M := (@Heap.M num).

Implicit Types (h : heap) (v r res a b : loc) (l : list (val num)).

Lemma is_matrix_weaken h h' a : h ⊆ h' -> is_matrix h a -> is_matrix h' a.
Proof.
  intros Hsub (l & Hl & Hrows). exists l. split; [by eapply lookup_weaken|].
  eapply Forall_impl; [exact Hrows|]. intros x (r & -> & Hr).
  exists r. split; [done|]. by eapply is_vector_weaken.
Qed.

(** Reading the rows of a matrix yields lists of numbers. *)
Lemma load_rows h l :
  Forall (fun x => exists r, x = VRef r /\ is_vector h r) l ->
  exists its,
    Heap.mapM (fun row => Heap.bind (Heap.as_ref row) (fun r => Heap.load r))
      l h
    = (Ok its, h)
    /\ Forall (Forall is_num) its.
Proof.
  induction 1 as [|x l (r & -> & lr & Hr & Hnum) _ (its & Hrun & Hits)].
  - by exists [].
  - exists (lr :: its). cbn. unfold Heap.bind at 1 2. cbn.
    unfold Heap.load at 1. rewrite Hr. unfold Heap.bind at 1. rewrite Hrun.
    split; [done|]. by constructor.
Qed.

Lemma zip_next_Forall {A : Type} (P : A -> Prop) (its : list (list A)) t its' :
  zip_next its = Some (t, its') ->
  Forall (Forall P) its -> Forall P t /\ Forall (Forall P) its'.
Proof.
  revert t its'. induction its as [|it its IH]; intros t its'; cbn.
  - intros [= <- <-] _. by split.
  - destruct it as [|x it]; [done|].
    destruct (zip_next its) as [[xs rest]|]; [|done].
    intros [= <- <-] [[Hx Hit]%Forall_cons Hits]%Forall_cons.
    destruct (IH _ _ eq_refl Hits). split; by constructor.
Qed.

Lemma zip_loop_Forall {A : Type} (P : A -> Prop) (n : nat)
    (its : list (list A)) :
  Forall (Forall P) its -> Forall (Forall P) (zip_loop n its).
Proof.
  revert its. induction n as [|n IH]; intros its Hits; cbn; [done|].
  destruct (zip_next its) as [[t its']|] eqn:Hnext; [|done].
  destruct (zip_next_Forall P its t its' Hnext Hits). constructor; auto.
Qed.

Lemma builtin_zip_Forall {A : Type} (P : A -> Prop) (its : list (list A)) :
  Forall (Forall P) its -> Forall (Forall P) (builtin_zip its).
Proof.
  intros Hits. unfold builtin_zip. destruct its; [done|].
  by apply zip_loop_Forall.
Qed.

Lemma transpose_allocates h a :
  is_matrix h a ->
  h ⊆ (Heap.transpose a h).2
  /\ forall v, (Heap.transpose a h).1 = Ok v ->
               fresh_matrix h (Heap.transpose a h).2 v.
Proof.
  intros (l & Hl & Hrows). destruct (load_rows h l Hrows) as (its & Hrun & Hits).
  assert (Heap.transpose a h
          = Heap.bind
              (Heap.mapM (fun t => Heap.alloc (builtin_list t))
                 (builtin_zip its))
              (fun cols => Heap.alloc (VRef <$> cols)) h) as ->.
  { unfold Heap.transpose. unfold Heap.bind at 1, Heap.load at 1. rewrite Hl.
    unfold Heap.bind at 1. by rewrite Hrun. }
  pose proof (builtin_zip_Forall is_num its Hits) as Hcols.
  refine (allocates_matrix_rows _ _ h). apply allocates_rows_mapM.
  intros t Ht. apply allocates_vector_alloc. unfold builtin_list.
  rewrite Forall_forall in Hcols. by apply Hcols.
Qed.

Lemma bind_run {A B : Type} (m : M A) (k : A -> M B) h (r : result A) h' :
  m h = (r, h') ->
  Heap.bind m k h
  = match r with
    | Ok a => k a h'
    | Raise e => (Raise e, h')
    end.
Proof. intros Hm. unfold Heap.bind. by rewrite Hm. Qed.

Lemma foldM_invariant {S A : Type} (Inv Frame : heap -> Prop)
    (body : S -> A -> M S) (s : S) (xs : list A) h :
  (forall h, Inv h -> Frame h) ->
  (forall s x h,
     Inv h ->
     Frame (body s x h).2
     /\ forall s', (body s x h).1 = Ok s' -> Inv (body s x h).2) ->
  Inv h ->
  Frame (Heap.foldM body s xs h).2
  /\ forall s', (Heap.foldM body s xs h).1 = Ok s' ->
                Inv (Heap.foldM body s xs h).2.
Proof.
  intros Hframe Hbody. revert s h.
  induction xs as [|x xs IH]; intros s h Hinv; cbn.
  - split; [by apply Hframe | done].
  - unfold Heap.bind. destruct (Hbody s x h Hinv) as [Hf Hi].
    destruct (body s x h) as [[s1|e] h1]; cbn in Hf, Hi |- *; [|done].
    apply IH. by apply (Hi s1).
Qed.

Lemma copy_item_updates h0 a row (index_ : nat) :
  is_vector h0 a ->
  updates_vector h0 row
    (Heap.bind (Heap.getitem a index_)
       (fun item => Heap.bind (Heap.append row item)
                      (fun _ => Heap.ret (S index_)))).
Proof.
  intros (la & Hla & Hnum) h Hsub Hrow.
  pose proof (lookup_weaken _ _ _ _ Hla Hsub) as Hla'.
  assert (Heap.getitem a index_ h = (index la index_, h)) as Hget.
  { unfold Heap.getitem, Heap.bind, Heap.load, Heap.lift. by rewrite Hla'. }
  rewrite (bind_run _ _ _ _ _ Hget). unfold index.
  destruct (la !! index_) as [item|] eqn:Hitem; [|by split].
  assert (is_num item) as Hitem'.
  { rewrite Forall_lookup in Hnum. by eapply Hnum. }
  destruct (updates_vector_append h0 row item Hitem' h Hsub Hrow)
    as [Hsame Hvec].
  unfold Heap.bind.
  by destruct (Heap.append row item h) as [[[]|e] h1].
Qed.

Lemma reshape_body_invariant h0 a b (dims : list Z) (index_ x : nat) h :
  b ∉ dom h0 -> is_vector h0 a -> rows_invariant h0 b h ->
  let run :=
    Heap.bind (Heap.alloc [])
      (fun row =>
         Heap.bind (Heap.lift (index dims 1))
           (fun cols =>
              Heap.bind
                (Heap.foldM
                   (fun (index_ : nat) (y : nat) =>
                      Heap.bind (Heap.getitem a index_)
                        (fun item => Heap.bind (Heap.append row item)
                                       (fun _ => Heap.ret (S index_))))
                   index_ (range cols))
                (fun index_ => Heap.bind (Heap.append b (VRef row))
                                 (fun _ => Heap.ret index_)))) h in
  h0 ⊆ run.2 /\ forall s', run.1 = Ok s' -> rows_invariant h0 b run.2.
Proof.
  intros Hb Ha (Hsub & l & Hl & Hrows). cbn zeta.
  set (row := fresh (dom h)). set (h2 := <[row:=[]]> h).
  rewrite (bind_run (Heap.alloc []) _ h (Ok row) h2 eq_refl).
  assert (row ∉ dom h) as Hrow by apply is_fresh.
  assert (row ∉ dom h0) as Hrow0.
  { intros Hin. apply Hrow. by eapply subseteq_dom. }
  assert (h ⊆ h2) as Hsub2 by apply alloc_extends.
  assert (h0 ⊆ h2) as Hsub02 by by etransitivity.
  assert (row <> b) as Hrb.
  { intros ->. apply Hrow. by apply elem_of_dom. }
  rewrite (bind_run (Heap.lift (index dims 1)) _ h2 _ h2 eq_refl).
  destruct (index dims 1) as [cols|e]; [|done].
  match goal with
  | |- context [Heap.bind (Heap.foldM ?body ?i ?ys) _ h2] =>
      destruct (updates_vector_foldM h0 row body i ys Hrow0
                  (fun i' _ => copy_item_updates h0 a row i' Ha) h2 Hsub02)
        as [Hsame Hvec];
        [exists []; split; [apply lookup_insert_eq | constructor]|];
      destruct (Heap.foldM body i ys h2) as [[index_'|e] h3] eqn:Hloop;
      rewrite (bind_run _ _ _ _ _ Hloop)
  end; cbn in Hsame, Hvec |- *.
  2: { split; [|done]. by eapply unchanged_subseteq. }
  assert (h0 ⊆ h3) as Hsub03 by by eapply unchanged_subseteq.
  assert (h3 !! b = Some l) as Hl3.
  { rewrite Hsame by done. unfold h2. by rewrite lookup_insert_ne. }
  unfold Heap.append, Heap.bind, Heap.load. rewrite Hl3. cbn.
  assert (h0 ⊆ <[b:=l ++ [VRef row]]> h3) as Hsub4.
  { apply map_subseteq_spec. intros r lr Hr.
    rewrite lookup_insert_ne; [by eapply lookup_weaken|].
    intros ->. by apply Hb, elem_of_dom. }
  split; [done|]. intros _ _. split; [done|].
  exists (l ++ [VRef row]). rewrite lookup_insert_eq. split; [done|].
  apply Forall_app. split.
  - eapply Forall_impl; [exact Hrows|].
    intros y (r & -> & Hrb' & Hfresh & lr & Hlr & Hnum).
    exists r. repeat split; try done.
    exists lr. split; [|done].
    rewrite lookup_insert_ne by done. rewrite Hsame.
    + unfold h2. rewrite lookup_insert_ne; [done|].
      intros ->. apply Hrow. by apply elem_of_dom.
    + intros ->. apply Hrow. by apply elem_of_dom.
  - constructor; [|done]. exists row. repeat split; try done.
    destruct Hvec as (lr & Hlr & Hnum). exists lr.
    by rewrite lookup_insert_ne.
Qed.

Lemma reshape_tuple_allocates h a (dims : list Z) :
  is_vector h a ->
  h ⊆ (Heap.reshape a (ShapeTuple dims) h).2
  /\ forall v, (Heap.reshape a (ShapeTuple dims) h).1 = Ok v ->
               fresh_matrix h (Heap.reshape a (ShapeTuple dims) h).2 v.
Proof.
  intros Ha. unfold Heap.reshape.
  set (b := fresh (dom h)). set (h1 := <[b:=[]]> h).
  rewrite (bind_run (Heap.alloc []) _ h (Ok b) h1 eq_refl).
  assert (b ∉ dom h) as Hb by apply is_fresh.
  assert (rows_invariant h b h1) as Hinv.
  { split; [apply alloc_extends|]. exists []. unfold h1.
    by rewrite lookup_insert_eq. }
  rewrite (bind_run (Heap.lift (index dims 0)) _ h1 _ h1 eq_refl).
  destruct (index dims 0) as [rows|e]; [|by split; [apply alloc_extends|]].
  match goal with
  | |- context [Heap.bind (Heap.foldM ?body ?i ?xs) _ h1] =>
      destruct (foldM_invariant (rows_invariant h b) (fun h' => h ⊆ h')
                  body i xs h1) as [Hframe Hfinal];
        [by intros h' [Hsub _]
        |intros; by apply reshape_body_invariant
        |done|];
      destruct (Heap.foldM body i xs h1) as [[index_'|e] h2] eqn:Hloop;
      rewrite (bind_run _ _ _ _ _ Hloop)
  end; cbn in Hframe, Hfinal |- *; [|by split].
  split; [done|]. intros v [= <-].
  destruct (Hfinal _ eq_refl) as (_ & l & Hl & Hrows).
  split; [done|]. exists l. split; [done|].
  eapply Forall_impl; [exact Hrows|].
  intros y (r & -> & _ & Hfresh). by exists r.
Qed.

Lemma reshape_int_allocates h a (n : Z) :
  is_matrix h a ->
  h ⊆ (Heap.reshape a (ShapeInt n) h).2
  /\ forall v, (Heap.reshape a (ShapeInt n) h).1 = Ok v ->
               fresh_vector h (Heap.reshape a (ShapeInt n) h).2 v.
Proof.
  intros Ha. unfold Heap.reshape.
  set (b := fresh (dom h)). set (h1 := <[b:=[]]> h).
  rewrite (bind_run (Heap.alloc []) _ h (Ok b) h1 eq_refl).
  assert (h ⊆ h1) as Hsub by apply alloc_extends.
  destruct (is_matrix_weaken h h1 a Hsub Ha) as (l & Hl & Hrows).
  destruct (load_rows h1 l Hrows) as (its & Hrun & Hits).
  assert (Heap.load a h1 = (Ok l, h1)) as Hload
    by (unfold Heap.load; by rewrite Hl).
  rewrite (bind_run _ _ _ _ _ Hload), (bind_run _ _ _ _ _ Hrun).
  assert (Forall is_num (concat its)) as Hflat by by apply Forall_concat.
  match goal with
  | |- context [Heap.bind (Heap.alloc ?L) ?k h1] =>
      assert (allocates_vector (Heap.bind (Heap.alloc L) k)) as Halloc
  end.
  { case_decide.
    - apply allocates_vector_bind; [apply extends_alloc|].
      intros _. by apply allocates_vector_alloc, Forall_take.
    - by apply allocates_vector_ret, allocates_vector_alloc. }
  destruct (Halloc h1) as [Hsub' Hfresh].
  split; [by etransitivity|].
  intros v Hv. eapply fresh_vector_mono; [exact Hsub | reflexivity | by apply Hfresh].
Qed.

Lemma reshape_other_allocates h a :
  h ⊆ (Heap.reshape a ShapeOther h).2
  /\ forall v, (Heap.reshape a ShapeOther h).1 = Ok v ->
               fresh_vector h (Heap.reshape a ShapeOther h).2 v.
Proof.
  refine (allocates_vector_ret _ _ h). by apply allocates_vector_alloc.
Qed.

End Copies.

(** ** The store version computes what the list version computes *)

Section Stores.

Context {num : Type}.

Abbreviation heap := (heap num).
Abbreviation M := (@Heap.M num).

Implicit Types (h : heap) (u v m r : loc).

Lemma stores_vector_weaken h h' v xs :
  h ⊆ h' -> stores_vector h v xs -> stores_vector h' v xs.
Proof. intros Hsub Hv. by eapply lookup_weaken. Qed.

Lemma stores_matrix_weaken h h' m xss :
  h ⊆ h' -> stores_matrix h m xss -> stores_matrix h' m xss.
Proof.
  intros Hsub (rows & Hm & Hrows). exists rows.
  split; [by eapply lookup_weaken|].
  eapply Forall2_impl; [exact Hrows|]. intros r xs.
  by apply stores_vector_weaken.
Qed.

Lemma reads_ret {A : Type} (a : A) h : reads (Heap.ret a) h (Ok a).
Proof. done. Qed.

Lemma reads_lift {A : Type} (r : result A) h : reads (Heap.lift r) h r.
Proof. done. Qed.

Lemma reads_bind {A B : Type} (m : M A) (k : A -> M B) h
    (r : result A) (k' : A -> result B) :
  reads m h r -> (forall a, r = Ok a -> reads (k a) h (k' a)) ->
  reads (Heap.bind m k) h (bind r k').
Proof.
  unfold reads. intros Hm Hk. rewrite (bind_run _ _ _ _ _ Hm).
  destruct r as [a|e]; [by apply Hk | done].
Qed.

End Stores.

Section StoresNumbers.

Context {num : Type} `{Number num}.

Abbreviation heap := (heap num).
Abbreviation M := (@Heap.M num).

Implicit Types (h : heap) (u v m r : loc).

Lemma reads_mapM {A B : Type} (f : A -> M B) (g : A -> result B)
    (l : list A) h :
  (forall x, x ∈ l -> reads (f x) h (g x)) ->
  reads (Heap.mapM f l) h (mapM g l).
Proof.
  induction l as [|x l IH]; intros Hf; [done|].
  cbn. apply reads_bind; [apply Hf; by left|]. intros y _.
  apply reads_bind; [apply IH; intros; apply Hf; by right|].
  intros ys _. apply reads_ret.
Qed.

Lemma reads_len h v xs :
  stores_vector h v xs -> reads (Heap.len v) h (Ok (length xs)).
Proof.
  intros Hv. unfold reads, Heap.len, Heap.bind, Heap.load. rewrite Hv.
  cbn. by rewrite length_fmap.
Qed.

Lemma reads_getnum h v xs (i : nat) :
  stores_vector h v xs -> reads (Heap.getnum v i) h (index xs i).
Proof.
  intros Hv.
  unfold reads, Heap.getnum, Heap.getitem, Heap.bind, Heap.load, Heap.lift.
  rewrite Hv. unfold index. rewrite list_lookup_fmap.
  by destruct (xs !! i).
Qed.

Lemma reads_after {A B : Type} (m : M A) (k : A -> M B) h (a : A)
    (r : result B) :
  reads m h (Ok a) -> reads (k a) h r -> reads (Heap.bind m k) h r.
Proof. unfold reads. intros Hm Hk. by rewrite (bind_run _ _ _ _ _ Hm). Qed.

(** The comprehension is evaluated on the store as on the lists, and its
    result goes to a new list. *)
Lemma returns_vector_comprehension (m : M (list num)) h
    (r : result (list num)) :
  reads m h r ->
  returns_vector r (Heap.bind m (fun zs => Heap.alloc (VNum <$> zs)) h).
Proof.
  unfold reads. intros Hm. rewrite (bind_run _ _ _ _ _ Hm).
  destruct r as [zs|e]; [|done]. cbn.
  exists (fresh (dom h)). split; [done|]. apply lookup_insert_eq.
Qed.

Lemma returns_vector_after {A : Type} (m : M A) (k : A -> M loc) h (a : A)
    (spec : result (list num)) :
  reads m h (Ok a) -> returns_vector spec (k a h) ->
  returns_vector spec (Heap.bind m k h).
Proof. unfold reads. intros Hm Hk. by rewrite (bind_run _ _ _ _ _ Hm). Qed.

Lemma returns_vector_bind {A : Type} (m : M A) (k : A -> M loc) h
    (r : result A) (k' : A -> result (list num)) :
  reads m h r ->
  (forall a, r = Ok a -> returns_vector (k' a) (k a h)) ->
  returns_vector (bind r k') (Heap.bind m k h).
Proof.
  unfold reads. intros Hm Hk. rewrite (bind_run _ _ _ _ _ Hm).
  destruct r as [a|e]; [by apply Hk | done].
Qed.

Lemma returns_vector_display (zs : list num) h :
  returns_vector (Ok zs)
    (Heap.bind (Heap.alloc (VNum <$> zs)) (fun c => Heap.ret c) h).
Proof. exists (fresh (dom h)). split; [done|]. apply lookup_insert_eq. Qed.

Lemma stores_matrix_row h m xss (i : nat) :
  stores_matrix h m xss ->
  match xss !! i with
  | Some xs => exists r, reads (Heap.getref m i) h (Ok r)
                         /\ stores_vector h r xs
  | None => reads (Heap.getref m i) h (Raise IndexError)
  end.
Proof.
  intros (rows & Hm & Hrows).
  unfold reads, Heap.getref, Heap.getitem, Heap.bind, Heap.load, Heap.lift.
  rewrite Hm. unfold index. rewrite list_lookup_fmap.
  destruct (xss !! i) as [xs|] eqn:Hxs.
  - destruct (Forall2_lookup_r _ _ _ _ _ Hrows Hxs) as (r & Hr & Hstores).
    exists r. by rewrite Hr.
  - apply Forall2_length in Hrows. apply lookup_ge_None in Hxs.
    rewrite (proj2 (lookup_ge_None rows i)) by lia. done.
Qed.

Lemma reads_getnum2 h m xss (i j : nat) :
  stores_matrix h m xss -> reads (Heap.getnum2 m i j) h (index2 xss i j).
Proof.
  intros Hm. pose proof (stores_matrix_row h m xss i Hm) as Hrow.
  unfold Heap.getnum2, index2, index at 1.
  destruct (xss !! i) as [xs|].
  - destruct Hrow as (r & Hr & Hxs).
    eapply reads_after; [exact Hr|]. by apply reads_getnum.
  - unfold reads in *. by rewrite (bind_run _ _ _ _ _ Hrow).
Qed.

Lemma reads_len_matrix h m xss :
  stores_matrix h m xss -> reads (Heap.len m) h (Ok (length xss)).
Proof.
  intros (rows & Hm & Hrows). unfold reads, Heap.len, Heap.bind, Heap.load.
  rewrite Hm. cbn. rewrite length_fmap. by rewrite (Forall2_length _ _ _ Hrows).
Qed.

(** A comprehension over the rows of a matrix that only reads. *)
Lemma reads_mapM_rows {B : Type} (f : val num -> M B)
    (g : list num -> result B) (rows : list loc) (xss : list (list num)) h :
  Forall2 (stores_vector h) rows xss ->
  (forall r xs, stores_vector h r xs -> reads (f (VRef r)) h (g xs)) ->
  reads (Heap.mapM f (VRef <$> rows)) h (mapM g xss).
Proof.
  intros Hrows Hf. induction Hrows as [|r xs rows xss Hr _ IH]; [done|].
  cbn. apply reads_bind; [by apply Hf|]. intros y _.
  apply reads_bind; [exact IH|]. intros ys _. apply reads_ret.
Qed.

End StoresNumbers.

Section VectorRefinement.

Context {num : Type} `{Number num}.
Variables (sqrt cos sin fabs : num -> num) (atan2 : num -> num -> num).

Abbreviation heap := (heap num).

Implicit Types (h : heap) (u v m r : loc) (xs ys : list num) (c : num).

Ltac reads :=
  repeat first
    [ apply reads_ret
    | apply reads_lift
    | eapply reads_getnum; eassumption
    | apply reads_mapM; intros
    | apply reads_bind; [|intros] ].

Ltac comprehension :=
  eapply returns_vector_after; [eapply reads_len; eassumption|];
  apply returns_vector_comprehension; reads.

Lemma magnitude_refines h v xs :
  stores_vector h v xs ->
  reads (Heap.magnitude sqrt v) h (vectorops.magnitude sqrt xs).
Proof.
  intros Hv. unfold Heap.magnitude, vectorops.magnitude.
  eapply reads_after; [by eapply reads_len|]. reads.
Qed.

Lemma dot_refines h u v xs ys :
  stores_vector h u xs -> stores_vector h v ys ->
  reads (Heap.dot u v) h (vectorops.dot xs ys).
Proof.
  intros Hu Hv. unfold Heap.dot, vectorops.dot.
  eapply reads_after; [by eapply reads_len|]. reads.
Qed.

Lemma add_refines h u v xs ys :
  stores_vector h u xs -> stores_vector h v ys ->
  returns_vector (vectorops.add xs ys) (Heap.add u v h).
Proof. intros Hu Hv. unfold Heap.add, vectorops.add. comprehension. Qed.

Lemma sub_refines h u v xs ys :
  stores_vector h u xs -> stores_vector h v ys ->
  returns_vector (vectorops.sub xs ys) (Heap.sub u v h).
Proof. intros Hu Hv. unfold Heap.sub, vectorops.sub. comprehension. Qed.

Lemma eldiv_refines h u v xs ys :
  stores_vector h u xs -> stores_vector h v ys ->
  returns_vector (vectorops.eldiv xs ys) (Heap.eldiv u v h).
Proof. intros Hu Hv. unfold Heap.eldiv, vectorops.eldiv. comprehension. Qed.

Lemma elmult_refines h u v xs ys :
  stores_vector h u xs -> stores_vector h v ys ->
  returns_vector (vectorops.elmult xs ys) (Heap.elmult u v h).
Proof. intros Hu Hv. unfold Heap.elmult, vectorops.elmult. comprehension. Qed.

Lemma mult_refines h u xs c :
  stores_vector h u xs ->
  returns_vector (vectorops.mult xs c) (Heap.mult u c h).
Proof. intros Hu. unfold Heap.mult, vectorops.mult. comprehension. Qed.

Lemma div_refines h u xs c :
  stores_vector h u xs ->
  returns_vector (vectorops.div xs c) (Heap.div u c h).
Proof. intros Hu. unfold Heap.div, vectorops.div. comprehension. Qed.

Lemma normalize_refines h v xs :
  stores_vector h v xs ->
  returns_vector (vectorops.normalize sqrt xs) (Heap.normalize sqrt v h).
Proof.
  intros Hv. unfold Heap.normalize, vectorops.normalize.
  apply returns_vector_bind; [by apply magnitude_refines|].
  intros vmag _. comprehension.
Qed.

Ltac vector_display :=
  repeat (apply returns_vector_bind;
          [first [eapply reads_getnum; eassumption | apply reads_lift]
          |intros]);
  cbn zeta;
  match goal with
  | |- returns_vector (Ok ?zs) _ => apply (returns_vector_display zs)
  end.

Lemma cross_refines h u v xs ys :
  stores_vector h u xs -> stores_vector h v ys ->
  returns_vector (vectorops.cross xs ys) (Heap.cross u v h).
Proof. intros Hu Hv. unfold Heap.cross, vectorops.cross. vector_display. Qed.

Lemma axis_angle_to_quaternion_refines h u xs c :
  stores_vector h u xs ->
  returns_vector (vectorops.axis_angle_to_quaternion cos sin xs c)
    (Heap.axis_angle_to_quaternion cos sin u c h).
Proof.
  intros Hu.
  unfold Heap.axis_angle_to_quaternion, vectorops.axis_angle_to_quaternion.
  vector_display.
Qed.

Lemma matrix_vector_mult_refines h m v xss ys :
  stores_matrix h m xss -> stores_vector h v ys ->
  returns_vector (vectorops.matrix_vector_mult xss ys)
    (Heap.matrix_vector_mult m v h).
Proof.
  intros (rows & Hm & Hrows) Hv.
  unfold Heap.matrix_vector_mult, vectorops.matrix_vector_mult.
  eapply returns_vector_after.
  { unfold reads, Heap.load. by rewrite Hm. }
  apply returns_vector_comprehension, reads_mapM_rows; [done|].
  intros r xs Hr. cbn. by apply dot_refines.
Qed.

End VectorRefinement.

Section MatrixRefinement.

Context {num : Type} `{Number num}.
Variables (sqrt cos sin fabs : num -> num) (atan2 : num -> num -> num).

Abbreviation heap := (heap num).
Abbreviation M := (@Heap.M num).

Implicit Types (h : heap) (u v m r res : loc) (xs ys : list num) (c : num).

Lemma extends_mapM {A B : Type} (f : A -> M B) (l : list A) :
  (forall x, extends (f x)) -> extends (Heap.mapM f l).
Proof.
  intros Hf. induction l as [|x l IH]; cbn; [by intros h|].
  apply extends_bind; [done|]. intros y.
  apply extends_bind; [done|]. by intros ys h.
Qed.

Lemma returns_rows_mapM {X Y : Type} (f : X -> M loc)
    (g : Y -> result (list num)) (R : heap -> X -> Y -> Prop)
    (xs : list X) (ys : list Y) h :
  (forall h h' x y, h ⊆ h' -> R h x y -> R h' x y) ->
  (forall h x y, R h x y -> returns_vector (g y) (f x h)) ->
  (forall x, extends (f x)) ->
  Forall2 (R h) xs ys ->
  returns_rows (mapM g ys) (Heap.mapM f xs h).
Proof.
  intros Hmono Hf Hext Hxs. revert h Hxs.
  induction xs as [|x xs IH] in ys |- *; intros h Hxs.
  - apply Forall2_nil_inv_l in Hxs as ->. by exists [].
  - apply Forall2_cons_inv_l in Hxs as (y & ys' & Hxy & Hxs & ->).
    cbn [mapM Heap.mapM]. pose proof (Hf h x y Hxy) as Hrun.
    pose proof (Hext x h) as Hsub.
    destruct (f x h) as [r1 h1] eqn:Hfx. rewrite (bind_run _ _ _ _ _ Hfx).
    cbn in Hsub. unfold returns_vector in Hrun.
    destruct (g y) as [zs|e]; cbn in Hrun |- *; [|by subst r1].
    destruct Hrun as (v & -> & Hv).
    assert (Forall2 (R h1) xs ys') as Hxs1.
    { eapply Forall2_impl; [exact Hxs|]. intros x' y'. by apply Hmono. }
    specialize (IH ys' h1 Hxs1).
    pose proof (extends_mapM f xs Hext h1) as Hsub1.
    destruct (Heap.mapM f xs h1) as [r2 h2] eqn:Hrest.
    rewrite (bind_run _ _ _ _ _ Hrest). cbn in Hsub1.
    unfold returns_rows in IH.
    destruct (mapM g ys') as [zss|e]; cbn in IH |- *; [|by subst r2].
    destruct IH as (rs & -> & Hrs). exists (v :: rs). split; [done|].
    constructor; [by eapply stores_vector_weaken | done].
Qed.

Lemma returns_matrix_rows (m : M (list loc)) h
    (spec : result (list (list num))) :
  returns_rows spec (m h) ->
  returns_matrix spec (Heap.bind m (fun rs => Heap.alloc (VRef <$> rs)) h).
Proof.
  intros Hrows. destruct (m h) as [r1 h1] eqn:Hm.
  rewrite (bind_run _ _ _ _ _ Hm).
  destruct spec as [zss|e]; cbn in Hrows |- *; [|by subst r1].
  destruct Hrows as (rs & -> & Hrs). cbn.
  exists (fresh (dom h1)). split; [done|]. exists rs.
  split; [apply lookup_insert_eq|].
  eapply Forall2_impl; [exact Hrs|]. intros r zs.
  apply stores_vector_weaken, alloc_extends.
Qed.

Lemma returns_matrix_after {A : Type} (m : M A) (k : A -> M loc) h (a : A)
    (spec : result (list (list num))) :
  reads m h (Ok a) -> returns_matrix spec (k a h) ->
  returns_matrix spec (Heap.bind m k h).
Proof. unfold reads. intros Hm Hk. by rewrite (bind_run _ _ _ _ _ Hm). Qed.

Lemma returns_matrix_bind {A : Type} (m : M A) (k : A -> M loc) h
    (r : result A) (k' : A -> result (list (list num))) :
  reads m h r ->
  (forall a, r = Ok a -> returns_matrix (k' a) (k a h)) ->
  returns_matrix (bind r k') (Heap.bind m k h).
Proof.
  unfold reads. intros Hm Hk. rewrite (bind_run _ _ _ _ _ Hm).
  destruct r as [a|e]; [by apply Hk | done].
Qed.

Lemma alloc_matrix_returns (zss : list (list num)) h :
  returns_matrix (Ok zss)
    (Heap.bind (Heap.alloc_matrix zss) (fun mx => Heap.ret mx) h).
Proof.
  assert (returns_matrix (Ok zss) (Heap.alloc_matrix zss h)) as Hrun.
  { apply (returns_matrix_rows _ h (Ok zss)).
    pose proof (returns_rows_mapM
                  (fun row : list num => Heap.alloc (VNum <$> row))
                  Ok (fun _ x y => x = y) zss zss h) as Hrows.
    assert (mapM Ok zss = Ok zss) as Hid.
    { clear. induction zss as [|zs zss IH]; [done|]. cbn. by rewrite IH. }
    rewrite Hid in Hrows. apply Hrows.
    - by intros.
    - intros h' x y <-. exists (fresh (dom h')). split; [done|].
      apply lookup_insert_eq.
    - intros x. apply extends_alloc.
    - by apply Forall_Forall2_diag, Forall_true. }
  unfold Heap.bind. by destruct (Heap.alloc_matrix zss h) as [[v|e] h1].
Qed.

Lemma matrix_constant_mult_refines h m xss c :
  stores_matrix h m xss ->
  returns_matrix (vectorops.matrix_constant_mult xss c)
    (Heap.matrix_constant_mult m c h).
Proof.
  intros (rows & Hm & Hrows).
  unfold Heap.matrix_constant_mult, vectorops.matrix_constant_mult.
  eapply returns_matrix_after.
  { unfold reads, Heap.load. by rewrite Hm. }
  apply returns_matrix_rows.
  apply (returns_rows_mapM _ _
           (fun h x y => exists r, x = VRef r /\ stores_vector h r y)).
  - intros h1 h2 x y Hsub (r & -> & Hr). exists r.
    split; [done|]. by eapply stores_vector_weaken.
  - intros h' x y (r & -> & Hr). cbn. by apply mult_refines.
  - intros x. apply extends_bind; [apply read_only_extends, read_only_as_ref|].
    intros r. apply allocates_vector_extends, mult_allocates.
  - apply Forall2_fmap_l. eapply Forall2_impl; [exact Hrows|].
    intros r xs Hr. by exists r.
Qed.

Lemma returns_matrix_bind_vector (m : M loc) (k : loc -> M loc) h
    (r : result (list num)) (k' : list num -> result (list (list num))) :
  returns_vector r (m h) ->
  (forall v zs,
     stores_vector (m h).2 v zs -> returns_matrix (k' zs) (k v (m h).2)) ->
  returns_matrix (bind r k') (Heap.bind m k h).
Proof.
  intros Hm Hk. destruct (m h) as [r1 h1] eqn:Hrun.
  rewrite (bind_run _ _ _ _ _ Hrun). unfold returns_vector in Hm.
  destruct r as [zs|e]; cbn in Hm |- *; [|by subst r1].
  destruct Hm as (v & -> & Hv). by apply Hk.
Qed.

Ltac matrix_display :=
  repeat (apply returns_matrix_bind;
          [first [eapply reads_getnum; eassumption | apply reads_lift]
          |intros]);
  cbn zeta;
  match goal with
  | |- returns_matrix (Ok ?zss) _ => apply (alloc_matrix_returns zss)
  end.

Lemma euler_to_rotation_matrix_refines h u xs :
  stores_vector h u xs ->
  returns_matrix (vectorops.euler_to_rotation_matrix cos sin xs)
    (Heap.euler_to_rotation_matrix cos sin u h).
Proof.
  intros Hu.
  unfold Heap.euler_to_rotation_matrix, vectorops.euler_to_rotation_matrix.
  matrix_display.
Qed.

Lemma quaternion_to_rotation_matrix_refines h u xs :
  stores_vector h u xs ->
  returns_matrix (vectorops.quaternion_to_rotation_matrix sqrt xs)
    (Heap.quaternion_to_rotation_matrix sqrt u h).
Proof.
  intros Hu.
  unfold Heap.quaternion_to_rotation_matrix,
    vectorops.quaternion_to_rotation_matrix.
  apply returns_matrix_bind; [by apply magnitude_refines|]. intros mag_q _.
  apply returns_matrix_bind_vector; [by apply div_refines|].
  intros v zs Hv. set (h1 := (Heap.div u mag_q h).2) in *.
  eapply returns_matrix_after.
  { unfold reads, Heap.load. by rewrite Hv. }
  destruct zs as [|qw [|qx [|qy [|qz [|]]]]]; try done.
  match goal with
  | |- returns_matrix ?spec ?run =>
      let spec' := eval cbn in spec in change (returns_matrix spec' run)
  end.
  match goal with
  | |- returns_matrix (Ok ?zss) _ => exact (alloc_matrix_returns zss h1)
  end.
Qed.

Lemma axis_angle_to_rotation_matrix_refines h u xs c :
  stores_vector h u xs ->
  returns_matrix (vectorops.axis_angle_to_rotation_matrix sqrt cos sin xs c)
    (Heap.axis_angle_to_rotation_matrix sqrt cos sin u c h).
Proof.
  intros Hu.
  unfold Heap.axis_angle_to_rotation_matrix,
    vectorops.axis_angle_to_rotation_matrix.
  apply returns_matrix_bind_vector;
    [by apply axis_angle_to_quaternion_refines|].
  intros v zs Hv. by apply quaternion_to_rotation_matrix_refines.
Qed.

End MatrixRefinement.

Section OwnList.

Context {num : Type} `{Number num}.
Variables (sqrt cos sin fabs : num -> num) (atan2 : num -> num -> num).

Abbreviation heap := (heap num).
Abbreviation M := (@Heap.M num).

Implicit Types (h base : heap) (u v m r res : loc) (xs ys l : list num).

Lemma own_extends base res l : res ∉ dom base -> base ⊆ own base res l.
Proof. intros Hres. by apply insert_subseteq, not_elem_of_dom. Qed.

Lemma own_stores base res l : stores_vector (own base res l) res l.
Proof. apply lookup_insert_eq. Qed.

Lemma updates_to_bind_reads {A : Type} (m : M A) (k : A -> M unit)
    (r : result A) (k' : A -> result (list num)) base res l :
  reads m (own base res l) r ->
  (forall a, r = Ok a -> updates_to base res (k' a) (k a (own base res l))) ->
  updates_to base res (bind r k') (Heap.bind m k (own base res l)).
Proof.
  unfold reads. intros Hm Hk. rewrite (bind_run _ _ _ _ _ Hm).
  destruct r as [a|e]; [by apply Hk | done].
Qed.

Lemma append_own base res l (x : num) :
  Heap.append res (VNum x) (own base res l)
  = (Ok tt, own base res (l ++ [x])).
Proof.
  unfold Heap.append, Heap.bind, Heap.load, Heap.store.
  rewrite own_stores. unfold own. by rewrite insert_insert_eq, fmap_app.
Qed.

Lemma setitem_own base res l (i : nat) (x : num) :
  Heap.setitem res i (VNum x) (own base res l)
  = match setitem l i x with
    | Ok l' => (Ok tt, own base res l')
    | Raise e => (Raise e, own base res l)
    end.
Proof.
  unfold Heap.setitem, Heap.bind, Heap.load, Heap.lift, Heap.store.
  rewrite own_stores. unfold setitem. rewrite list_lookup_fmap.
  destruct (l !! i); cbn; [|done].
  unfold own. by rewrite insert_insert_eq, list_fmap_insert.
Qed.

Lemma updates_to_setitem base res l (i : nat) (x : num) :
  updates_to base res (l' <- setitem l i x ;; Ok l')
    (Heap.setitem res i (VNum x) (own base res l)).
Proof. rewrite setitem_own. by destruct (setitem l i x). Qed.

Lemma updates_to_setitem_bind (k : unit -> M unit)
    (k' : list num -> result (list num)) base res l (i : nat) (x : num) :
  (forall l', updates_to base res (k' l') (k tt (own base res l'))) ->
  updates_to base res (bind (setitem l i x) k')
    (Heap.bind (Heap.setitem res i (VNum x)) k (own base res l)).
Proof.
  intros Hk. unfold Heap.bind at 1. rewrite setitem_own.
  destruct (setitem l i x) as [l'|e]; [apply Hk | done].
Qed.

Lemma updates_to_foldM {X : Type} (body : unit -> X -> M unit)
    (body' : list num -> X -> result (list num)) base res (xs : list X) l :
  (forall acc x,
     updates_to base res (body' acc x) (body tt x (own base res acc))) ->
  updates_to base res (foldM body' l xs)
    (Heap.foldM body tt xs (own base res l)).
Proof.
  intros Hbody. revert l. induction xs as [|x xs IH]; intros l; [done|].
  cbn [foldM Heap.foldM]. specialize (Hbody l x).
  destruct (body tt x (own base res l)) as [r1 h1] eqn:Hrun.
  rewrite (bind_run _ _ _ _ _ Hrun). unfold updates_to in Hbody.
  destruct (body' l x) as [l'|e]; cbn in Hbody |- *.
  - injection Hbody as -> ->. apply IH.
  - by subst r1.
Qed.

(** A new list, filled as the list version fills its local list, and
    returned. *)
Lemma returns_vector_own (body : loc -> M unit) (init : list num) h
    (spec : result (list num)) :
  (forall res, res ∉ dom h ->
               updates_to h res spec (body res (own h res init))) ->
  returns_vector spec
    (Heap.bind (Heap.alloc (VNum <$> init))
       (fun res => Heap.bind (body res) (fun _ => Heap.ret res)) h).
Proof.
  intros Hbody. specialize (Hbody (fresh (dom h)) (is_fresh _)).
  unfold Heap.bind at 1. cbn [Heap.alloc]. fold (own h (fresh (dom h)) init).
  destruct (body (fresh (dom h)) (own h (fresh (dom h)) init))
    as [r1 h1] eqn:Hrun.
  rewrite (bind_run _ _ _ _ _ Hrun). unfold updates_to in Hbody.
  destruct spec as [zs|e]; cbn in Hbody |- *; [|by subst r1].
  injection Hbody as -> ->. exists (fresh (dom h)).
  split; [done|]. apply own_stores.
Qed.

Lemma vector_matrix_mult_refines h v m xs xss :
  stores_vector h v xs -> stores_matrix h m xss ->
  returns_vector (vectorops.vector_matrix_mult xs xss)
    (Heap.vector_matrix_mult v m h).
Proof.
  intros Hv Hm.
  unfold Heap.vector_matrix_mult, vectorops.vector_matrix_mult.
  eapply returns_vector_after; [by eapply reads_len_matrix|].
  eapply returns_vector_after; [by eapply reads_len|].
  case_decide; [done|].
  pose proof (stores_matrix_row h m xss 0 Hm) as Hrow.
  unfold index at 1. destruct (xss !! 0) as [m0|]; cbn [bind].
  2: { unfold reads in Hrow. by rewrite (bind_run _ _ _ _ _ Hrow). }
  destruct Hrow as (r0 & Hr0 & Hm0).
  eapply returns_vector_after; [exact Hr0|].
  eapply returns_vector_after; [by eapply reads_len|].
  apply (returns_vector_own _ []). intros res Hres.
  apply updates_to_foldM. intros acc c.
  apply updates_to_bind_reads; [|intros terms _; by rewrite append_own].
  pose proof (own_extends h res acc Hres) as Hsub.
  apply reads_mapM. intros i _.
  apply reads_bind; [eapply reads_getnum; by eapply stores_vector_weaken|].
  intros vr _.
  apply reads_bind; [eapply reads_getnum2; by eapply stores_matrix_weaken|].
  intros mrc _. apply reads_ret.
Qed.

Lemma matrix_mult_refines h a b ass bss :
  stores_matrix h a ass -> stores_matrix h b bss ->
  returns_matrix (vectorops.matrix_mult ass bss) (Heap.matrix_mult a b h).
Proof.
  intros (rows & Ha & Hrows) Hb.
  unfold Heap.matrix_mult, vectorops.matrix_mult.
  eapply returns_matrix_after.
  { unfold reads, Heap.load. by rewrite Ha. }
  apply returns_matrix_rows.
  apply (returns_rows_mapM _ _
           (fun h x y => (exists r, x = VRef r /\ stores_vector h r y)
                         /\ stores_matrix h b bss)).
  - intros h1 h2 x y Hsub [(r & -> & Hr) Hb']. split.
    + exists r. split; [done|]. by eapply stores_vector_weaken.
    + by eapply stores_matrix_weaken.
  - intros h' x y [(r & -> & Hr) Hb']. cbn.
    by apply vector_matrix_mult_refines.
  - intros x. apply extends_bind; [apply read_only_extends, read_only_as_ref|].
    intros r. apply allocates_vector_extends, vector_matrix_mult_allocates.
  - apply Forall2_fmap_l. eapply Forall2_impl; [exact Hrows|].
    intros r xs Hr. split; [by exists r | done].
Qed.

Lemma rotation_matrix_to_euler_refines h m xss :
  stores_matrix h m xss ->
  returns_vector
    (vectorops.rotation_matrix_to_euler cos sin fabs atan2 xss)
    (Heap.rotation_matrix_to_euler cos sin fabs atan2 m h).
Proof.
  intros Hm.
  unfold Heap.rotation_matrix_to_euler, vectorops.rotation_matrix_to_euler.
  cbn zeta. apply (returns_vector_own _ [float_0; float_0; float_0]).
  intros res Hres. unfold Heap.rotation_matrix_to_euler_branches.
  assert (forall l, stores_matrix (own h res l) m xss) as Hm'.
  { intros l. eapply stores_matrix_weaken; [by apply own_extends | done]. }
  repeat first
    [ apply updates_to_setitem
    | apply updates_to_setitem_bind; intros
    | apply updates_to_bind_reads;
      [first [ apply reads_getnum2, Hm'
             | apply reads_lift
             | eapply reads_getnum, own_stores ]
      |intros]
    | match goal with
      | |- updates_to _ _ (if ?b then _ else _) _ => destruct b
      end ].
Qed.

End OwnList.

Section CopyRefinement.

Context {num : Type} `{Number num}.

Abbreviation heap := (heap num).
Abbreviation M := (@Heap.M num).

Implicit Types (h base : heap) (a b v r row : loc) (xs zs : list num)
  (xss zss : list (list num)).

Lemma zip_next_fmap {A B : Type} (f : A -> B) (its : list (list A)) :
  zip_next (map (map f) its)
  = option_map (fun p => (map f p.1, map (map f) p.2)) (zip_next its).
Proof.
  induction its as [|it its IH]; [done|]. cbn.
  destruct it as [|x it]; [done|]. cbn. rewrite IH.
  by destruct (zip_next its) as [[t its']|].
Qed.

Lemma zip_loop_fmap {A B : Type} (f : A -> B) (n : nat) (its : list (list A)) :
  zip_loop n (map (map f) its) = map (map f) (zip_loop n its).
Proof.
  revert its. induction n as [|n IH]; intros its; [done|]. cbn.
  rewrite zip_next_fmap. destruct (zip_next its) as [[t its']|]; [|done].
  cbn. by rewrite IH.
Qed.

Lemma builtin_zip_fmap {A B : Type} (f : A -> B) (its : list (list A)) :
  builtin_zip (map (map f) its) = map (map f) (builtin_zip its).
Proof.
  destruct its as [|it its]; [done|]. unfold builtin_zip. cbn [map].
  rewrite length_map. apply (zip_loop_fmap f _ (it :: its)).
Qed.

Lemma mapM_Ok {A : Type} (l : list A) : mapM Ok l = Ok l.
Proof. induction l as [|x l IH]; [done|]. cbn. by rewrite IH. Qed.

(** Reading the rows of a stored matrix. *)
Lemma reads_rows h (rows : list loc) xss :
  Forall2 (stores_vector h) rows xss ->
  reads (Heap.mapM (fun x => Heap.bind (Heap.as_ref x)
                               (fun r => Heap.load r))
           (VRef <$> rows))
    h (Ok (map (map VNum) xss)).
Proof.
  intros Hrows.
  rewrite <- (mapM_ok (fun xs => Ok (map VNum xs)) (map VNum) xss)
    by done.
  apply reads_mapM_rows; [done|]. intros r xs Hr.
  unfold reads. cbn. unfold Heap.load. by rewrite Hr.
Qed.

Lemma returns_rows_display (ts : list (list num)) h :
  returns_rows (Ok ts)
    (Heap.mapM (fun t => Heap.alloc (builtin_list t)) (map (map VNum) ts) h).
Proof.
  rewrite <- (mapM_Ok ts).
  apply (returns_rows_mapM _ _ (fun _ x y => x = VNum <$> y)).
  - by intros.
  - intros h' x y ->. exists (fresh (dom h')). split; [done|].
    apply lookup_insert_eq.
  - intros x. apply extends_alloc.
  - apply Forall2_fmap_l, Forall_Forall2_diag. by apply Forall_true.
Qed.

Lemma transpose_refines h a xss :
  stores_matrix h a xss ->
  returns_matrix (Ok (vectorops.transpose xss)) (Heap.transpose a h).
Proof.
  intros (rows & Ha & Hrows). unfold Heap.transpose, vectorops.transpose.
  eapply returns_matrix_after.
  { unfold reads, Heap.load. by rewrite Ha. }
  eapply returns_matrix_after; [by apply reads_rows|].
  rewrite builtin_zip_fmap. unfold builtin_list at 1. rewrite map_id.
  apply returns_matrix_rows, returns_rows_display.
Qed.

Lemma reshape_other_refines h a (p : pyobj num) :
  returns_object (vectorops.reshape p ShapeOther)
    (Heap.reshape a ShapeOther h).
Proof.
  exists (fresh (dom h)). split; [done|]. left. exists [].
  split; [done|]. apply lookup_insert_eq.
Qed.

Lemma reshape_int_refines h a xss (n : Z) :
  stores_matrix h a xss ->
  returns_object (vectorops.reshape (of_matrix xss) (ShapeInt n))
    (Heap.reshape a (ShapeInt n) h).
Proof.
  intros Ha. rewrite reshape_int. unfold Heap.reshape.
  set (b := fresh (dom h)). set (h1 := <[b:=[]]> h).
  rewrite (bind_run (Heap.alloc []) _ h (Ok b) h1 eq_refl).
  assert (h ⊆ h1) as Hsub by apply alloc_extends.
  destruct (stores_matrix_weaken h h1 a xss Hsub Ha) as (rows & Hl & Hrows).
  assert (Heap.load a h1 = (Ok (VRef <$> rows), h1)) as Hload
    by (unfold Heap.load; by rewrite Hl).
  rewrite (bind_run _ _ _ _ _ Hload).
  rewrite (bind_run _ _ _ _ _ (reads_rows h1 rows xss Hrows)).
  assert (concat (map (map VNum) xss) = VNum <$> concat xss) as ->.
  { clear. induction xss as [|xs xss IH]; [done|].
    cbn. by rewrite IH, fmap_app. }
  rewrite length_fmap.
  set (flat := fresh (dom h1)). set (h2 := <[flat:=VNum <$> concat xss]> h1).
  rewrite (bind_run (Heap.alloc _) _ h1 (Ok flat) h2 eq_refl).
  case_decide.
  - exists (fresh (dom h2)). split; [done|]. left.
    exists (take (Z.to_nat n) (concat xss)). split; [done|].
    cbn. unfold stores_vector. by rewrite lookup_insert_eq, fmap_take.
  - exists flat. split; [done|]. left. exists (concat xss).
    split; [done|]. apply lookup_insert_eq.
Qed.

(** The row that [reshape] fills: [own base row zs] against the list of
    items of the list version. *)
Lemma reshape_row_refines base a row xs (ys : list nat) zs (index_ : nat) :
  stores_vector base a xs -> row ∉ dom base ->
  let run :=
    Heap.foldM
      (fun (index_ : nat) (y : nat) =>
         Heap.bind (Heap.getitem a index_)
           (fun item => Heap.bind (Heap.append row item)
                          (fun _ => Heap.ret (S index_))))
      index_ ys (own base row zs) in
  match
    foldM (fun (st' : list (pyobj num) * nat) (y : nat) =>
             let '(row, index_) := st' in
             item <- getitem (of_vector xs) index_ ;;
             Ok (row ++ [item], S index_))
          (Item <$> zs, index_) ys
  with
  | Ok (items, index_') =>
      exists zs', items = Item <$> zs'
                  /\ run = (Ok index_', own base row zs')
  | Raise e => run.1 = Raise e
  end.
Proof.
  intros Ha Hrow. cbn zeta. revert zs index_.
  induction ys as [|y ys IH]; intros zs index_.
  - cbn. by exists zs.
  - cbn [foldM Heap.foldM].
    assert (Heap.getitem a index_ (own base row zs)
            = (match xs !! index_ with
               | Some x => Ok (VNum x)
               | None => Raise IndexError
               end, own base row zs)) as Hget.
    { unfold Heap.getitem, Heap.bind, Heap.load, Heap.lift.
      rewrite (lookup_weaken _ _ _ _ Ha (own_extends base row zs Hrow)).
      unfold index. rewrite list_lookup_fmap. by destruct (xs !! index_). }
    unfold of_vector, getitem, index at 1. rewrite list_lookup_fmap.
    destruct (xs !! index_) as [x|]; cbn [fmap option_fmap option_map bind].
    + match goal with
      | |- context [Heap.bind (Heap.bind ?m ?k) _ _] =>
          assert (Heap.bind m k (own base row zs)
                  = (Ok (S index_), own base row (zs ++ [x]))) as Hbody
      end.
      { rewrite (bind_run _ _ _ _ _ Hget).
        by rewrite (bind_run _ _ _ _ _ (append_own base row zs x)). }
      rewrite !(bind_run _ _ _ _ _ Hbody).
      specialize (IH (zs ++ [x]) (S index_)). rewrite fmap_app in IH.
      exact IH.
    + match goal with
      | |- context [Heap.bind (Heap.bind ?m ?k) _ _] =>
          assert (Heap.bind m k (own base row zs)
                  = (Raise IndexError, own base row zs)) as Hbody
            by by rewrite (bind_run _ _ _ _ _ Hget)
      end.
      by rewrite (bind_run _ _ _ _ _ Hbody).
Qed.

Lemma reshape_rows_refines h a b xs (dims : list Z) (xsr : list nat)
    (rs : list loc) zss (index_ : nat) (hc : heap) :
  stores_vector h a xs -> b ∉ dom h -> rows_stored h b hc rs zss ->
  let run :=
    Heap.foldM
      (fun (index_ : nat) (x : nat) =>
         Heap.bind (Heap.alloc [])
           (fun row =>
              Heap.bind (Heap.lift (index dims 1))
                (fun cols =>
                   Heap.bind
                     (Heap.foldM
                        (fun (index_ : nat) (y : nat) =>
                           Heap.bind (Heap.getitem a index_)
                             (fun item =>
                                Heap.bind (Heap.append row item)
                                  (fun _ => Heap.ret (S index_))))
                        index_ (range cols))
                     (fun index_ =>
                        Heap.bind (Heap.append b (VRef row))
                          (fun _ => Heap.ret index_)))))
      index_ xsr hc in
  match
    foldM (fun (st : list (pyobj num) * nat) (x : nat) =>
             let '(b, index_) := st in
             let row := [] in
             cols <- index dims 1 ;;
             st' <- foldM (fun (st' : list (pyobj num) * nat) (y : nat) =>
                             let '(row, index_) := st' in
                             item <- getitem (of_vector xs) index_ ;;
                             Ok (row ++ [item], S index_))
                          (row, index_) (range cols) ;;
             let '(row, index_) := st' in
             Ok (b ++ [PyList row], index_))
          (of_vector <$> zss, index_) xsr
  with
  | Ok (pb, index_') =>
      exists rs' zss',
        pb = of_vector <$> zss' /\ run.1 = Ok index_'
        /\ rows_stored h b run.2 rs' zss'
  | Raise e => run.1 = Raise e
  end.
Proof.
  intros Ha Hb. cbn zeta. revert rs zss index_ hc.
  induction xsr as [|x xsr IH]; intros rs zss index_ hc Hinv.
  - cbn. by exists rs, zss.
  - destruct Hinv as (Hsub & Hbl & Hrows & Hnb).
    cbn [foldM Heap.foldM].
    set (row := fresh (dom hc)).
    assert (row ∉ dom hc) as Hrow by apply is_fresh.
    assert (row <> b) as Hrb.
    { intros ->. apply Hrow. by apply elem_of_dom. }
    match goal with
    | |- context [Heap.bind (Heap.bind (Heap.alloc []) ?k) _ hc] =>
        set (body := Heap.bind (Heap.alloc []) k)
    end.
    assert (body hc
            = Heap.bind (Heap.lift (index dims 1))
                (fun cols =>
                   Heap.bind
                     (Heap.foldM
                        (fun (index_ : nat) (y : nat) =>
                           Heap.bind (Heap.getitem a index_)
                             (fun item =>
                                Heap.bind (Heap.append row item)
                                  (fun _ => Heap.ret (S index_))))
                        index_ (range cols))
                     (fun index_ =>
                        Heap.bind (Heap.append b (VRef row))
                          (fun _ => Heap.ret index_)))
                (own hc row [])) as Hbody by done.
    destruct (index dims 1) as [cols|e]; cbn [bind].
    2: { rewrite (bind_run body _ hc (Raise e) (own hc row []) Hbody).
         done. }
    rewrite (bind_run (Heap.lift (Ok cols)) _ _ (Ok cols) _ eq_refl) in Hbody.
    pose proof (reshape_row_refines hc a row xs (range cols) [] index_
                  (stores_vector_weaken h hc a xs Hsub Ha) Hrow) as Hinner.
    cbn zeta in Hinner. change (Item <$> []) with (@nil (pyobj num)) in Hinner.
    match type of Hinner with
    | match ?inner with _ => _ end => destruct inner as [[items index_']|e]
    end; cbn [bind].
    2: { match type of Hbody with
         | _ = Heap.bind ?m _ _ =>
             destruct (m (own hc row [])) as [r1 h1] eqn:Hloop
         end.
         cbn in Hinner. subst r1.
         rewrite (bind_run _ _ _ _ _ Hloop) in Hbody.
         by rewrite (bind_run body _ hc _ _ Hbody). }
    destruct Hinner as (zs' & -> & Hloop).
    rewrite (bind_run _ _ _ _ _ Hloop) in Hbody.
    set (h4 := <[b := VRef <$> (rs ++ [row])]> (own hc row zs')).
    assert (Heap.append b (VRef row) (own hc row zs') = (Ok tt, h4)) as Happ.
    { unfold Heap.append, Heap.bind, Heap.load, Heap.store, own.
      rewrite lookup_insert_ne by done. rewrite Hbl.
      unfold h4, own. by rewrite fmap_app. }
    rewrite (bind_run _ _ _ _ _ Happ) in Hbody.
    rewrite (bind_run body _ hc _ _ Hbody).
    assert ((of_vector <$> zss) ++ [PyList (Item <$> zs')]
            = of_vector <$> (zss ++ [zs'])) as -> by by rewrite fmap_app.
    apply (IH (rs ++ [row])). unfold rows_stored, h4, own. repeat split.
    + apply map_subseteq_spec. intros r lr Hr.
      rewrite !lookup_insert_ne; [by eapply lookup_weaken| |].
      * intros ->. apply Hrow. eapply subseteq_dom; [exact Hsub|].
        by apply elem_of_dom.
      * intros ->. by apply Hb, elem_of_dom.
    + apply lookup_insert_eq.
    + apply Forall2_app.
      * apply Forall2_same_length_lookup_2; [by eapply Forall2_length|].
        intros i r zs Hr Hzs.
        pose proof (Forall2_lookup_lr _ _ _ _ _ _ Hrows Hr Hzs) as Hst.
        unfold stores_vector.
        rewrite !lookup_insert_ne; [done| |].
        -- intros ->. apply Hrow. by apply elem_of_dom.
        -- rewrite Forall_lookup in Hnb. intros Heq. by apply (Hnb i r Hr).
      * constructor; [|done]. unfold stores_vector.
        rewrite lookup_insert_ne by done. apply lookup_insert_eq.
    + apply Forall_app. split; [done|]. by constructor.
Qed.

Lemma reshape_tuple_refines h a xs (dims : list Z) :
  stores_vector h a xs ->
  returns_object (vectorops.reshape (of_vector xs) (ShapeTuple dims))
    (Heap.reshape a (ShapeTuple dims) h).
Proof.
  intros Ha. unfold Heap.reshape, vectorops.reshape. cbn zeta.
  set (b := fresh (dom h)). set (h1 := <[b:=[]]> h).
  rewrite (bind_run (Heap.alloc []) _ h (Ok b) h1 eq_refl).
  assert (b ∉ dom h) as Hb by apply is_fresh.
  rewrite (bind_run (Heap.lift (index dims 0)) _ h1 _ h1 eq_refl).
  destruct (index dims 0) as [rows|e]; cbn [bind]; [|done].
  assert (rows_stored h b h1 [] []) as Hinv.
  { split; [apply alloc_extends|]. split; [apply lookup_insert_eq|].
    by split. }
  pose proof (reshape_rows_refines h a b xs dims (range rows) [] [] 0 h1
                Ha Hb Hinv) as Hloop.
  cbn zeta in Hloop.
  change (of_vector <$> []) with (@nil (pyobj num)) in Hloop.
  match type of Hloop with
  | match ?outer with _ => _ end => destruct outer as [[pb index_']|e]
  end; cbn [bind fst].
  - destruct Hloop as (rs & zss & -> & Hrun & Hsub & Hbl & Hrows & _).
    match type of Hrun with
    | (?m h1).1 = _ => destruct (m h1) as [r1 h2] eqn:Hfold
    end.
    cbn in Hrun, Hbl, Hrows. subst r1. rewrite (bind_run _ _ _ _ _ Hfold).
    exists b. split; [done|]. right. exists zss. split; [done|].
    by exists rs.
  - match type of Hloop with
    | (?m h1).1 = _ => destruct (m h1) as [r1 h2] eqn:Hfold
    end.
    cbn in Hloop. subst r1. by rewrite (bind_run _ _ _ _ _ Hfold).
Qed.

End CopyRefinement.

Section Agreement.

Context {num : Type} `{Number num}.
Variables (sqrt cos sin fabs : num -> num) (atan2 : num -> num -> num).

Implicit Types (h : heap num) (u v m a b : loc) (c : num).

(** X28.  Passing list objects instead of values changes no result.  On lists
    of numbers and lists of rows of numbers in a store, the arguments being
    the same object or not, every operation returns a new list that holds
    what the operation on values returns, and raises what it raises;
    [magnitude] and [dot] return the same number and leave the store as it
    is. *)
Corollary store_agrees_with_lists h u v m b xs ys xss yss c :
  stores_vector h u xs -> stores_vector h v ys ->
  stores_matrix h m xss -> stores_matrix h b yss ->
  reads (Heap.magnitude sqrt u) h (vectorops.magnitude sqrt xs)
  /\ reads (Heap.dot u v) h (vectorops.dot xs ys)
  /\ returns_vector (vectorops.add xs ys) (Heap.add u v h)
  /\ returns_vector (vectorops.sub xs ys) (Heap.sub u v h)
  /\ returns_vector (vectorops.eldiv xs ys) (Heap.eldiv u v h)
  /\ returns_vector (vectorops.elmult xs ys) (Heap.elmult u v h)
  /\ returns_vector (vectorops.normalize sqrt xs) (Heap.normalize sqrt u h)
  /\ returns_vector (vectorops.cross xs ys) (Heap.cross u v h)
  /\ returns_vector (vectorops.mult xs c) (Heap.mult u c h)
  /\ returns_vector (vectorops.div xs c) (Heap.div u c h)
  /\ returns_matrix (vectorops.quaternion_to_rotation_matrix sqrt xs)
       (Heap.quaternion_to_rotation_matrix sqrt u h)
  /\ returns_matrix (vectorops.matrix_constant_mult xss c)
       (Heap.matrix_constant_mult m c h)
  /\ returns_vector (vectorops.matrix_vector_mult xss ys)
       (Heap.matrix_vector_mult m v h)
  /\ returns_vector (vectorops.vector_matrix_mult xs xss)
       (Heap.vector_matrix_mult u m h)
  /\ returns_matrix (vectorops.matrix_mult xss yss) (Heap.matrix_mult m b h)
  /\ returns_matrix (Ok (vectorops.transpose xss)) (Heap.transpose m h)
  /\ returns_matrix (vectorops.euler_to_rotation_matrix cos sin xs)
       (Heap.euler_to_rotation_matrix cos sin u h)
  /\ returns_vector
       (vectorops.rotation_matrix_to_euler cos sin fabs atan2 xss)
       (Heap.rotation_matrix_to_euler cos sin fabs atan2 m h)
  /\ returns_vector (vectorops.axis_angle_to_quaternion cos sin xs c)
       (Heap.axis_angle_to_quaternion cos sin u c h)
  /\ returns_matrix
       (vectorops.axis_angle_to_rotation_matrix sqrt cos sin xs c)
       (Heap.axis_angle_to_rotation_matrix sqrt cos sin u c h)
  /\ (forall dims,
        returns_object (vectorops.reshape (of_vector xs) (ShapeTuple dims))
          (Heap.reshape u (ShapeTuple dims) h))
  /\ (forall n,
        returns_object (vectorops.reshape (of_matrix xss) (ShapeInt n))
          (Heap.reshape m (ShapeInt n) h))
  /\ (forall p,
        returns_object (vectorops.reshape p ShapeOther)
          (Heap.reshape u ShapeOther h)).
Proof.
  intros Hu Hv Hm Hb.
  repeat match goal with |- _ /\ _ => split end;
    eauto using magnitude_refines, dot_refines, add_refines, sub_refines,
      eldiv_refines, elmult_refines, normalize_refines, cross_refines,
      mult_refines, div_refines, quaternion_to_rotation_matrix_refines,
      matrix_constant_mult_refines, matrix_vector_mult_refines,
      vector_matrix_mult_refines, matrix_mult_refines, transpose_refines,
      euler_to_rotation_matrix_refines, rotation_matrix_to_euler_refines,
      axis_angle_to_quaternion_refines,
      axis_angle_to_rotation_matrix_refines, reshape_tuple_refines,
      reshape_int_refines, reshape_other_refines.
Qed.

End Agreement.

(** *** Every operation *)

Section Purity.

Context {num : Type} `{Number num}.
Variables (sqrt cos sin fabs : num -> num) (atan2 : num -> num -> num).

Abbreviation heap := (heap num).

Implicit Types (h : heap) (u v m a b : loc) (c : num).

Lemma allocates_vector_pure_call (f : Heap.M loc) h :
  allocates_vector f -> pure_call h (f h).
Proof.
  intros Hf. destruct (Hf h) as [Hsub Hfresh]. split; [done|].
  intros v Hv. apply fresh_vector_shares_nothing; auto.
Qed.

Lemma allocates_matrix_pure_call (f : Heap.M loc) h :
  allocates_matrix f -> pure_call h (f h).
Proof.
  intros Hf. destruct (Hf h) as [Hsub Hfresh]. split; [done|].
  intros v Hv. apply fresh_matrix_shares_nothing; auto.
Qed.

(** C9.  Every operation is pure and leaves its inputs unchanged: after
    every call, on vectors and matrices of numbers, each list object of the
    store holds the elements it held before, and the returned vector or
    matrix is made of new list objects only: no list reachable from it, the
    rows of a returned matrix included, existed before the call.  ([add]
    to [div] and the conversions need no assumption on their arguments:
    where an argument is not a list of numbers they raise TypeError.) *)
Theorem operations_are_pure h :
  (forall v, pure_call_of_number h (Heap.magnitude sqrt v h))
  /\ (forall u v, pure_call_of_number h (Heap.dot u v h))
  /\ (forall u v, pure_call h (Heap.add u v h))
  /\ (forall u v, pure_call h (Heap.sub u v h))
  /\ (forall u v, pure_call h (Heap.eldiv u v h))
  /\ (forall u v, pure_call h (Heap.elmult u v h))
  /\ (forall v, pure_call h (Heap.normalize sqrt v h))
  /\ (forall u v, pure_call h (Heap.cross u v h))
  /\ (forall u c, pure_call h (Heap.mult u c h))
  /\ (forall u c, pure_call h (Heap.div u c h))
  /\ (forall a, pure_call h (Heap.quaternion_to_rotation_matrix sqrt a h))
  /\ (forall m c, pure_call h (Heap.matrix_constant_mult m c h))
  /\ (forall m v, pure_call h (Heap.matrix_vector_mult m v h))
  /\ (forall v m, pure_call h (Heap.vector_matrix_mult v m h))
  /\ (forall a b, pure_call h (Heap.matrix_mult a b h))
  /\ (forall a, is_matrix h a -> pure_call h (Heap.transpose a h))
  /\ (forall a, pure_call h (Heap.euler_to_rotation_matrix cos sin a h))
  /\ (forall m,
        pure_call h (Heap.rotation_matrix_to_euler cos sin fabs atan2 m h))
  /\ (forall a c, pure_call h (Heap.axis_angle_to_quaternion cos sin a c h))
  /\ (forall a c,
        pure_call h (Heap.axis_angle_to_rotation_matrix sqrt cos sin a c h))
  /\ (forall a dims,
        is_vector h a -> pure_call h (Heap.reshape a (ShapeTuple dims) h))
  /\ (forall a n,
        is_matrix h a -> pure_call h (Heap.reshape a (ShapeInt n) h))
  /\ (forall a, pure_call h (Heap.reshape a ShapeOther h)).
Proof.
  repeat match goal with |- _ /\ _ => split end; intros.
  - apply magnitude_read_only.
  - apply dot_read_only.
  - apply allocates_vector_pure_call, add_allocates.
  - apply allocates_vector_pure_call, sub_allocates.
  - apply allocates_vector_pure_call, eldiv_allocates.
  - apply allocates_vector_pure_call, elmult_allocates.
  - apply allocates_vector_pure_call, normalize_allocates.
  - apply allocates_vector_pure_call, cross_allocates.
  - apply allocates_vector_pure_call, mult_allocates.
  - apply allocates_vector_pure_call, div_allocates.
  - apply allocates_matrix_pure_call, quaternion_to_rotation_matrix_allocates.
  - apply allocates_matrix_pure_call, matrix_constant_mult_allocates.
  - apply allocates_vector_pure_call, matrix_vector_mult_allocates.
  - apply allocates_vector_pure_call, vector_matrix_mult_allocates.
  - apply allocates_matrix_pure_call, matrix_mult_allocates.
  - destruct (transpose_allocates h a) as [Hsub Hfresh]; [done|].
    split; [done|]. intros v Hv. apply fresh_matrix_shares_nothing; auto.
  - apply allocates_matrix_pure_call, euler_to_rotation_matrix_allocates.
  - apply allocates_vector_pure_call, rotation_matrix_to_euler_allocates.
  - apply allocates_vector_pure_call, axis_angle_to_quaternion_allocates.
  - apply allocates_matrix_pure_call,
      axis_angle_to_rotation_matrix_allocates.
  - destruct (reshape_tuple_allocates h a dims) as [Hsub Hfresh]; [done|].
    split; [done|]. intros v Hv. apply fresh_matrix_shares_nothing; auto.
  - destruct (reshape_int_allocates h a n) as [Hsub Hfresh]; [done|].
    split; [done|]. intros v Hv. apply fresh_vector_shares_nothing; auto.
  - destruct (reshape_other_allocates h a) as [Hsub Hfresh].
    split; [done|]. intros v Hv. apply fresh_vector_shares_nothing; auto.
Qed.

End Purity.

Lemma operations_are_pure_witness :
  is_matrix example_store 3%positive
  /\ pure_call example_store (Heap.transpose 3%positive example_store).
Proof.
  assert (is_matrix example_store 3%positive) as Hmatrix.
  { exists [VRef 1%positive; VRef 2%positive]. split; [reflexivity|].
    repeat constructor.
    - exists 1%positive. split; [reflexivity|].
      exists [VNum 1%R; VNum 2%R].
      split; [reflexivity | by repeat constructor].
    - exists 2%positive. split; [reflexivity|].
      exists [VNum 3%R; VNum 4%R].
      split; [reflexivity | by repeat constructor]. }
  split; [exact Hmatrix|].
  destruct (operations_are_pure
              R_sqrt.sqrt Rtrigo_def.cos Rtrigo_def.sin Rabs R_atan2
              example_store)
    as (_ & _ & _ & _ & _ & _ & _ & _ & _ & _ & _ & _ & _ & _ & _ & Ht & _).
  exact (Ht 3%positive Hmatrix).
Defined.

(** ** When the second operand is too short *)

(** A comprehension over [range(len(u))] that reads [u[i]] and [v[i]] runs
    its body on the pairs there are and then fails on [v[len(v)]]. *)
Lemma mapM_index2_short {A B C : Type} (k : A -> B -> result C)
    (u : list A) (v : list B) :
  (length v < length u)%nat ->
  mapM (fun i => x <- index u i ;; y <- index v i ;; k x y) (seq 0 (length u))
  = (_ <- mapM (fun p => k p.1 p.2) (zip u v) ;; Raise IndexError).
Proof.
  revert v. induction u as [|x u IH]; intros v Hlen; [cbn in Hlen; lia|].
  destruct v as [|y v]; [reflexivity|]. cbn in Hlen.
  cbn [length seq mapM zip zip_with]. rewrite mapM_seq_S. cbn.
  destruct (k x y) as [z|e]; cbn; [|reflexivity].
  change (mapM _ (seq 0 (length u)))
    with (mapM (fun i => x <- index u i ;; y <- index v i ;; k x y)
               (seq 0 (length u))).
  rewrite IH by lia.
  by destruct (mapM (fun p => k p.1 p.2) (zip u v)).
Qed.

Section ShortOperand.

Context {num : Type} `{Number num}.

(** X1.  When [v] is shorter than [u], every paired operation fails: add, sub,
    elmult and dot raise IndexError at [v[len(v)]]; eldiv raises
    ZeroDivisionError if it meets a zero divisor before that, and IndexError
    otherwise. *)
Theorem paired_operations_short_second_operand (u v : list num) :
  (length v < length u)%nat ->
  vectorops.add u v = Raise IndexError
  /\ vectorops.sub u v = Raise IndexError
  /\ vectorops.elmult u v = Raise IndexError
  /\ vectorops.dot u v = Raise IndexError
  /\ vectorops.eldiv u v
     = if forallb nonzero v then Raise IndexError else Raise ZeroDivisionError.
Proof.
  intros Hlen.
  unfold vectorops.add, vectorops.sub, vectorops.elmult, vectorops.dot,
    vectorops.eldiv.
  rewrite !mapM_index2_short, !mapM_zip_ok, mapM_truediv_zip by done.
  rewrite take_ge by lia.
  repeat split; try reflexivity.
  by destruct (forallb nonzero v).
Qed.

End ShortOperand.

Lemma paired_operations_short_second_operand_witness :
  vectorops.add [1%float; 2%float] [3%float] = Raise IndexError
  /\ vectorops.eldiv [1%float; 2%float] [0%float] = Raise ZeroDivisionError.
Proof.
  assert (Hlen : (length [3%float] < length [1%float; 2%float])%nat)
    by (cbn; lia).
  split.
  - exact (proj1 (paired_operations_short_second_operand
                    [1%float; 2%float] [3%float] Hlen)).
  - exact (proj2 (proj2 (proj2 (proj2
             (paired_operations_short_second_operand
                [1%float; 2%float] [0%float] Hlen))))).
Defined.

(** ** cross *)

Section Cross.

Context {num : Type} `{Number num}.

Local Open Scope num_scope.

(** X2.  [cross(u, v)] reads the first three components of each argument and
    nothing else: further components are ignored, and an argument with fewer
    than three raises IndexError. *)
Theorem cross_reads_three_components :
  (forall (u0 u1 u2 v0 v1 v2 : num) (us vs : list num),
     vectorops.cross (u0 :: u1 :: u2 :: us) (v0 :: v1 :: v2 :: vs)
     = Ok [u1 * v2 - u2 * v1; u2 * v0 - u0 * v2; u0 * v1 - u1 * v0])
  /\ (forall u v : list num,
        (length u < 3 \/ length v < 3)%nat ->
        vectorops.cross u v = Raise IndexError).
Proof.
  split; [reflexivity|].
  intros u v Hlen. unfold vectorops.cross.
  destruct u as [|u0 [|u1 [|u2 us]]]; try reflexivity;
    destruct v as [|v0 [|v1 [|v2 vs]]]; try reflexivity.
  cbn in Hlen. lia.
Qed.

End Cross.

Lemma cross_reads_three_components_witness :
  vectorops.cross [1%float; 0%float] [0%float; 1%float; 0%float]
  = Raise IndexError.
Proof.
  apply (proj2 cross_reads_three_components). left. cbn. lia.
Defined.

(** ** Products of matrices and vectors *)

Section MatrixProducts.

Context {num : Type} `{Number num}.

Local Open Scope num_scope.

Lemma dot_ok (u v : list num) :
  (length u <= length v)%nat ->
  vectorops.dot u v = Ok (builtin_sum (zip_with num_mul u v)).
Proof.
  intros Hlen. unfold vectorops.dot. by rewrite mapM_index2, mapM_zip_ok.
Qed.

Lemma dot_short (u v : list num) :
  (length v < length u)%nat -> vectorops.dot u v = Raise IndexError.
Proof.
  intros Hlen. unfold vectorops.dot.
  by rewrite mapM_index2_short, mapM_zip_ok.
Qed.

Lemma matrix_vector_mult_ok (m : list (list num)) (v : list num) :
  Forall (fun row => (length row <= length v)%nat) m ->
  vectorops.matrix_vector_mult m v
  = Ok (map (fun row => builtin_sum (zip_with num_mul row v)) m).
Proof.
  intros Hm. apply mapM_ok. intros row Hrow. apply dot_ok.
  by apply (proj1 (Forall_forall _ _) Hm).
Qed.

Lemma matrix_vector_mult_long_row (m : list (list num)) (v : list num) :
  Exists (fun row => (length v < length row)%nat) m ->
  vectorops.matrix_vector_mult m v = Raise IndexError.
Proof.
  unfold vectorops.matrix_vector_mult.
  induction m as [|row m IH]; intros Hex; [by apply Exists_nil in Hex|].
  cbn [mapM].
  destruct (decide (length v < length row)%nat) as [Hrow|Hrow].
  - by rewrite dot_short.
  - rewrite dot_ok by lia. cbn [bind].
    apply Exists_cons in Hex as [Hex|Hex]; [lia|].
    by rewrite IH.
Qed.

(** X3.  [matrix_vector_mult(m, v)] returns one sum per row when no row is longer
    than [v], each over the components of the row, and raises IndexError
    when a row is longer than [v]. *)
Theorem matrix_vector_mult_rows_within_vector
    (m : list (list num)) (v : list num) :
  (Forall (fun row => (length row <= length v)%nat) m ->
   vectorops.matrix_vector_mult m v
   = Ok (map (fun row => builtin_sum (zip_with num_mul row v)) m))
  /\ (Exists (fun row => (length v < length row)%nat) m ->
      vectorops.matrix_vector_mult m v = Raise IndexError).
Proof.
  split; [apply matrix_vector_mult_ok | apply matrix_vector_mult_long_row].
Qed.

(** A loop whose body can only raise [e], and does so at some element. *)
Lemma mapM_raises {A B : Type} (f : A -> result B) (l : list A) (e : exn) :
  (forall x e', x ∈ l -> f x = Raise e' -> e' = e) ->
  (exists x, x ∈ l /\ f x = Raise e) ->
  mapM f l = Raise e.
Proof.
  induction l as [|x l IH]; intros Honly (y & Hy & Hfy).
  - by apply elem_of_nil in Hy.
  - cbn. destruct (f x) as [z|e'] eqn:Hfx; cbn.
    + rewrite IH; [done| |].
      * intros x' e' Hx'. apply Honly. by right.
      * apply elem_of_cons in Hy as [->|Hy]; [congruence|]. by exists y.
    + f_equal. apply (Honly x); [by left | done].
Qed.

Lemma mapM_column_terms_short (v : list num) (m : list (list num)) (c : nat) :
  length v = length m ->
  Exists (fun row => (length row <= c)%nat) m ->
  mapM (fun p : num * list num => mrc <- index p.2 c ;; Ok (p.1 * mrc))
       (zip v m)
  = Raise IndexError.
Proof.
  intros Hlen Hex. apply mapM_raises.
  - intros [vr row] e' _. cbn. unfold index.
    destruct (row !! c); cbn; congruence.
  - apply Exists_exists in Hex as (row & Hrow & Hc).
    apply list_elem_of_lookup in Hrow as [i Hi].
    destruct (lookup_lt_is_Some_2 v i) as [vr Hvr].
    { rewrite Hlen. by eapply lookup_lt_Some. }
    exists (vr, row). split.
    + apply list_elem_of_lookup. exists i.
      apply lookup_zip_with_Some. by exists vr, row.
    + cbn. unfold index. by rewrite (lookup_ge_None_2 row c).
Qed.

(** X4.  [vector_matrix_mult(v, m)] takes the number of columns from the first
    row.  With as many rows as [v] has components, it returns one sum per
    column of the first row when no row is shorter than the first, whatever
    the rows hold beyond that, and raises IndexError when a row is shorter
    than the first. *)
Theorem vector_matrix_mult_columns_of_first_row
    (v m0 : list num) (m' : list (list num)) :
  length v = S (length m') ->
  (Forall (fun row => (length m0 <= length row)%nat) m' ->
   vectorops.vector_matrix_mult v (m0 :: m')
   = Ok (map (column_sum v (m0 :: m')) (seq 0 (length m0))))
  /\ (Exists (fun row => (length row < length m0)%nat) m' ->
      vectorops.vector_matrix_mult v (m0 :: m') = Raise IndexError).
Proof.
  intros Hlen. rewrite vector_matrix_mult_unfold.
  case_decide as Hne; [done|]. cbn [index lookup list_lookup bind].
  split.
  - intros Hm. apply mapM_ok. intros c Hc%elem_of_seq.
    rewrite mapM_column_terms; [reflexivity|].
    constructor; [lia|].
    eapply Forall_impl; [exact Hm|]. cbn. intros row Hrow. lia.
  - intros Hex. apply mapM_raises.
    + intros c e' _.
      destruct (mapM _ (zip v (m0 :: m'))) as [terms|e''] eqn:Hterms;
        cbn; [discriminate|].
      intros [= <-].
      apply mapM_raise_inv in Hterms as ([vr row] & _ & Hrow). cbn in Hrow.
      unfold index in Hrow. destruct (row !! c); cbn in Hrow; congruence.
    + apply Exists_exists in Hex as (row & Hrow & Hshort).
      exists (length row). split; [apply elem_of_seq; lia|].
      rewrite mapM_column_terms_short; [done | done |].
      apply Exists_cons_tl, Exists_exists. by exists row.
Qed.

Lemma matrix_mult_ok (a b : list (list num)) (cols : nat) :
  b <> [] ->
  Forall (fun row => length row = cols) b ->
  Forall (fun row_a => length row_a = length b) a ->
  vectorops.matrix_mult a b
  = Ok (map (fun row_a => map (column_sum row_a b) (seq 0 cols)) a).
Proof.
  intros Hne Hrect Ha. apply mapM_ok. intros row_a Hrow.
  apply vector_matrix_mult_ok; [done | done |].
  by apply (proj1 (Forall_forall _ _) Ha).
Qed.

(** X5.  [matrix_mult(a, b)] on a rectangular [b] with at least one row: when
    every row of [a] has as many components as [b] has rows, the result has
    one row per row of [a] and one column per column of [b], and its element
    (i, j) is the sum over r of [a[i][r] * b[r][j]]; when some row of [a]
    has another length, the call raises the mismatched-rows error of
    [vector_matrix_mult]. *)
Theorem matrix_mult_shape (a b : list (list num)) (cols : nat) :
  b <> [] ->
  Forall (fun row => length row = cols) b ->
  (Forall (fun row_a => length row_a = length b) a ->
   vectorops.matrix_mult a b
   = Ok (map (fun row_a => map (column_sum row_a b) (seq 0 cols)) a))
  /\ (Exists (fun row_a => length row_a <> length b) a ->
      vectorops.matrix_mult a b = Raise vectorops.mismatched_rows).
Proof.
  intros Hne Hrect. split; [by apply matrix_mult_ok|].
  unfold vectorops.matrix_mult.
  intros Hex. apply mapM_raises.
  - intros row_a e' _ Hraise.
    destruct (decide (length row_a = length b)) as [Hlen|Hlen].
    + by rewrite (vector_matrix_mult_ok _ _ cols) in Hraise.
    + apply vector_matrix_mult_mismatch in Hlen. congruence.
  - apply Exists_exists in Hex as (row_a & Hrow & Hlen).
    exists row_a. split; [done|]. by apply vector_matrix_mult_mismatch.
Qed.

End MatrixProducts.

Lemma matrix_vector_mult_rows_within_vector_witness :
  vectorops.matrix_vector_mult [[1%float; 2%float]; [3%float]]
    [2%float; 1%float]
  = Ok [4%float; 6%float]
  /\ vectorops.matrix_vector_mult [[1%float; 2%float; 3%float]]
       [2%float; 1%float]
     = Raise IndexError.
Proof.
  split.
  - rewrite (proj1 (matrix_vector_mult_rows_within_vector
                      [[1%float; 2%float]; [3%float]] [2%float; 1%float]))
      by (repeat constructor).
    reflexivity.
  - apply (proj2 (matrix_vector_mult_rows_within_vector
                    [[1%float; 2%float; 3%float]] [2%float; 1%float])).
    left. cbn. lia.
Defined.

Lemma vector_matrix_mult_columns_of_first_row_witness :
  vectorops.vector_matrix_mult [1%float; 2%float]
    [[1%float]; [3%float; 4%float]]
  = Ok [7%float]
  /\ vectorops.vector_matrix_mult [1%float; 2%float]
       [[1%float; 2%float]; [3%float]]
     = Raise IndexError.
Proof.
  assert (Hlen : length [1%float; 2%float] = S (length [[3%float]]))
    by reflexivity.
  split.
  - rewrite (proj1 (vector_matrix_mult_columns_of_first_row
                      [1%float; 2%float] [1%float] [[3%float; 4%float]]
                      Hlen))
      by (repeat constructor).
    reflexivity.
  - apply (proj2 (vector_matrix_mult_columns_of_first_row
                    [1%float; 2%float] [1%float; 2%float] [[3%float]] Hlen)).
    left. cbn. lia.
Defined.

Lemma matrix_mult_shape_witness :
  vectorops.matrix_mult [[1%float; 2%float]]
    [[1%float; 0%float; 2%float]; [0%float; 1%float; 3%float]]
  = Ok [[1%float; 2%float; 8%float]]
  /\ vectorops.matrix_mult [[1%float; 2%float]; [1%float]]
       [[1%float; 0%float; 2%float]; [0%float; 1%float; 3%float]]
     = Raise vectorops.mismatched_rows.
Proof.
  assert (Hrect : Forall (fun row : list float => length row = 3%nat)
                    [[1%float; 0%float; 2%float];
                     [0%float; 1%float; 3%float]])
    by (repeat constructor).
  assert (Hne : [[1%float; 0%float; 2%float]; [0%float; 1%float; 3%float]]
                <> [])
    by done.
  split.
  - rewrite (proj1 (matrix_mult_shape [[1%float; 2%float]] _ 3 Hne Hrect))
      by (repeat constructor).
    reflexivity.
  - apply (proj2 (matrix_mult_shape [[1%float; 2%float]; [1%float]] _ 3
                    Hne Hrect)).
    right. left. cbn. lia.
Defined.

(** ** transpose of rows of unequal length *)

Section RaggedTranspose.

Context {A : Type}.

Implicit Types (a : list (list A)).

Lemma zip_next_shortest_empty a :
  Exists (fun row => length row = 0%nat) a -> zip_next a = None.
Proof.
  induction 1 as [row a Hrow|row a _ IH].
  - by destruct row.
  - cbn. destruct row; [done|]. by rewrite IH.
Qed.

Lemma zip_next_take a (k : nat) :
  Forall (fun row => (S k <= length row)%nat) a ->
  exists t a',
    zip_next a = Some (t, a')
    /\ zip_next (map (take (S k)) a) = Some (t, map (take k) a')
    /\ Forall2 (fun row row' => length row = S (length row')) a a'.
Proof.
  induction 1 as [|row a Hrow Ha (t & a' & Hnext & Htake & Hlen)].
  - by exists [], [].
  - destruct row as [|x row]; [cbn in Hrow; lia|].
    exists (x :: t), (row :: a'). cbn. rewrite Hnext, Htake.
    split; [done|]. split; [done|]. by constructor.
Qed.

Lemma zip_loop_shortest a (k n : nat) :
  Forall (fun row => (k <= length row)%nat) a ->
  Exists (fun row => length row = k) a ->
  (k <= n)%nat ->
  zip_loop n a = zip_loop k (map (take k) a).
Proof.
  revert a n. induction k as [|k IH]; intros a n Hall Hex Hn.
  - cbn. destruct n as [|n]; [done|]. cbn.
    by rewrite zip_next_shortest_empty.
  - destruct n as [|n]; [lia|].
    destruct (zip_next_take a k Hall) as (t & a' & Hnext & Htake & Hlen).
    cbn. rewrite Hnext, Htake. f_equal. apply IH; [| |lia].
    + clear -Hall Hlen. induction Hlen as [|row row' a a' Hr _ IH'].
      * constructor.
      * apply Forall_cons in Hall as [Hrow Hall].
        constructor; [lia | by apply IH'].
    + clear -Hex Hlen. induction Hlen as [|row row' a a' Hr _ IH'].
      * by apply Exists_nil in Hex.
      * apply Exists_cons in Hex as [Hex|Hex].
        -- left. lia.
        -- right. by apply IH'.
Qed.

(** X6.  [zip] stops at the shortest row: the transpose of a matrix whose rows
    have unequal lengths is the transpose of its rows cut to the length [k]
    of the shortest one.  It has [k] rows of [len(a)] elements, and what the
    longer rows hold beyond column [k] is dropped; transposing twice gives
    the cut rows. *)
Theorem transpose_cuts_to_shortest_row a (k : nat) :
  Forall (fun row => (k <= length row)%nat) a ->
  Exists (fun row => length row = k) a ->
  vectorops.transpose a = vectorops.transpose (map (take k) a)
  /\ length (vectorops.transpose a) = k
  /\ Forall (fun col => length col = length a) (vectorops.transpose a)
  /\ (forall i j, (j < k)%nat ->
        entry (vectorops.transpose a) j i = entry a i j)
  /\ ((0 < k)%nat ->
      vectorops.transpose (vectorops.transpose a) = map (take k) a).
Proof.
  intros Hall Hex.
  assert (a <> []) as Hne by (intros ->; by apply Exists_nil in Hex).
  assert (Forall (fun row => length row = k) (map (take k) a)) as Hrect.
  { apply Forall_fmap. eapply Forall_impl; [exact Hall|]. cbn.
    intros row Hrow. rewrite length_take. lia. }
  assert (map (take k) a <> []) as Hne' by by destruct a.
  assert (vectorops.transpose a = vectorops.transpose (map (take k) a))
    as Heq.
  { unfold vectorops.transpose, builtin_zip. f_equal.
    destruct Hall as [|row a' Hrow Hall']; [done|].
    rewrite (zip_loop_shortest (row :: a') k (length row))
      by (done || by constructor).
    cbn [map]. rewrite length_take.
    by replace (k `min` length row)%nat with k by lia. }
  destruct (transpose_rect _ k Hrect Hne') as (Hlen & Hcols & Hentry).
  split; [done|]. rewrite Heq.
  split; [done|].
  split; [by rewrite length_map in Hcols|].
  split.
  - intros i j Hj. rewrite Hentry. unfold entry.
    rewrite list_lookup_fmap. destruct (a !! i) as [row|]; [|done]. cbn.
    by rewrite lookup_take_lt.
  - intros Hk. by apply (transpose_transpose _ k).
Qed.

End RaggedTranspose.

Lemma transpose_cuts_to_shortest_row_witness :
  vectorops.transpose [[1; 2; 3]; [4; 5]]%Z = [[1; 4]; [2; 5]]%Z
  /\ vectorops.transpose (vectorops.transpose [[1; 2; 3]; [4; 5]]%Z)
     = [[1; 2]; [4; 5]]%Z.
Proof.
  assert (Hall : Forall (fun row : list Z => (2 <= length row)%nat)
                   [[1; 2; 3]; [4; 5]]%Z)
    by (repeat constructor).
  assert (Hex : Exists (fun row : list Z => length row = 2%nat)
                  [[1; 2; 3]; [4; 5]]%Z)
    by (right; left; reflexivity).
  pose proof (transpose_cuts_to_shortest_row _ 2 Hall Hex)
    as (H1 & _ & _ & _ & H5).
  split; [exact H1 | apply H5; lia].
Defined.

(** ** reshape: bounds and round trips *)

Section ReshapeBounds.

Context {A : Type}.

Lemma reshape_row_loop_short (l : list (pyobj A)) (ys : list nat)
    (row : list (pyobj A)) (i : nat) :
  (i <= length l < i + length ys)%nat ->
  foldM (fun (st' : list (pyobj A) * nat) (y : nat) =>
           let '(row, index_) := st' in
           item <- getitem (PyList l) index_ ;;
           Ok (row ++ [item], S index_))
        (row, i) ys
  = Raise IndexError.
Proof.
  revert row i. induction ys as [|y ys IH]; intros row i Hlen; cbn in *.
  - lia.
  - unfold index. destruct (l !! i) as [x|] eqn:Hx; cbn; [|done].
    apply lookup_lt_Some in Hx. apply IH. lia.
Qed.

Lemma reshape_rows_loop_short (l : list (pyobj A)) (c : nat)
    (body : list (pyobj A) * nat -> nat -> result (list (pyobj A) * nat))
    (xs : list nat) (b : list (pyobj A)) (i : nat) :
  (forall b i x,
     body (b, i) x
     = (st' <- foldM (fun (st' : list (pyobj A) * nat) (y : nat) =>
                        let '(row, index_) := st' in
                        item <- getitem (PyList l) index_ ;;
                        Ok (row ++ [item], S index_))
                     ([], i) (seq 0 c) ;;
        let '(row, index_) := st' in
        Ok (b ++ [PyList row], index_))) ->
  (i <= length l < i + length xs * c)%nat ->
  foldM body (b, i) xs = Raise IndexError.
Proof.
  intros Hbody. revert b i. induction xs as [|x xs IH]; intros b i Hlen.
  - cbn in Hlen. lia.
  - cbn [foldM length] in *. rewrite Hbody.
    destruct (decide (i + c <= length l)%nat) as [Hrow|Hrow].
    + rewrite reshape_row_loop by (rewrite length_seq; lia).
      rewrite length_seq. cbn [bind app]. apply IH. lia.
    + by rewrite reshape_row_loop_short by (rewrite length_seq; lia).
Qed.

Lemma reshape_tuple_short (a : list A) (rows cols : Z) :
  (length a < Z.to_nat rows * Z.to_nat cols)%nat ->
  vectorops.reshape (of_vector a) (ShapeTuple [rows; cols])
  = Raise IndexError.
Proof.
  intros Hlen. unfold vectorops.reshape, of_vector.
  change (index [rows; cols] 0) with (Ok rows). cbn [bind].
  rewrite (reshape_rows_loop_short (map Item a) (Z.to_nat cols));
    [done | intros; reflexivity|].
  unfold range. rewrite length_seq, length_map. lia.
Qed.

(** X7.  The shape of [reshape(a, new_shape)] with a tuple: only its first two
    entries are read, the second one inside the loop over the rows.  A flat
    sequence with fewer than rows*cols elements raises IndexError; so does
    the empty tuple, and a tuple with one entry when that entry is positive,
    while a tuple with one entry that is not positive gives the empty
    list. *)
Theorem reshape_tuple_bounds :
  (forall (a : list A) (rows cols : Z) (rest : list Z),
     (length a < Z.to_nat rows * Z.to_nat cols)%nat ->
     vectorops.reshape (of_vector a) (ShapeTuple (rows :: cols :: rest))
     = Raise IndexError)
  /\ (forall (a : pyobj A) (rows cols : Z) (rest : list Z),
        vectorops.reshape a (ShapeTuple (rows :: cols :: rest))
        = vectorops.reshape a (ShapeTuple [rows; cols]))
  /\ (forall a : pyobj A,
        vectorops.reshape a (ShapeTuple []) = Raise IndexError)
  /\ (forall (a : pyobj A) (rows : Z),
        vectorops.reshape a (ShapeTuple [rows])
        = if decide (0 < rows)%Z then Raise IndexError else Ok (PyList [])).
Proof.
  split; [intros a rows cols rest Hlen; by apply reshape_tuple_short|].
  split; [reflexivity|]. split; [reflexivity|].
  intros a rows. unfold vectorops.reshape, range.
  cbn [index lookup list_lookup bind].
  case_decide as Hrows.
  - destruct (Z.to_nat rows) as [|n] eqn:Hn; [lia|]. reflexivity.
  - by replace (Z.to_nat rows) with 0%nat by lia.
Qed.

Lemma concat_unflatten (r c : nat) (a : list A) :
  concat (unflatten r c a) = take (r * c) a.
Proof.
  unfold unflatten. induction r as [|r IH]; [done|].
  rewrite seq_S, map_app, concat_app, IH. cbn [map concat plus].
  rewrite app_nil_r, take_take_drop. f_equal. lia.
Qed.

Lemma unflatten_concat (c : nat) (m : list (list A)) :
  Forall (fun row => length row = c) m ->
  unflatten (length m) c (concat m) = m.
Proof.
  unfold unflatten. induction 1 as [|row m Hrow Hm IH]; [done|].
  cbn [length seq map concat]. f_equal.
  - rewrite drop_0, take_app_length'; done.
  - rewrite <- fmap_S_seq, <- list_fmap_compose. rewrite <- IH at 2.
    apply list_fmap_ext. intros _ x _. cbn. f_equal.
    rewrite drop_app_add'; [done | lia].
Qed.

(** X8.  The two modes of [reshape] undo each other.  A flat sequence of
    rows*cols elements cut into rows and flattened again is the sequence;
    a matrix of rows-by-cols elements flattened and cut into rows again is
    the matrix.  The integer of the flattening call is any that selects the
    whole sequence: negative, or not below the number of elements. *)
Theorem reshape_round_trips :
  (forall (a : list A) (rows cols n : Z),
     (Z.to_nat rows * Z.to_nat cols)%nat = length a ->
     ~ (0 <= n < Z.of_nat (length a))%Z ->
     (b <- vectorops.reshape (of_vector a) (ShapeTuple [rows; cols]) ;;
      vectorops.reshape b (ShapeInt n))
     = Ok (of_vector a))
  /\ (forall (m : list (list A)) (rows cols n : Z),
        length m = Z.to_nat rows ->
        Forall (fun row => length row = Z.to_nat cols) m ->
        ~ (0 <= n < Z.of_nat (length (concat m)))%Z ->
        (f <- vectorops.reshape (of_matrix m) (ShapeInt n) ;;
         vectorops.reshape f (ShapeTuple [rows; cols]))
        = Ok (of_matrix m)).
Proof.
  split.
  - intros a rows cols n Hlen Hn.
    rewrite reshape_tuple by lia. cbn [bind]. rewrite reshape_int.
    rewrite concat_unflatten, Hlen, firstn_all.
    by case_decide.
  - intros m rows cols n Hrows Hrect Hn.
    rewrite reshape_int. cbn [bind]. case_decide; [done|].
    assert (length (concat m) = (Z.to_nat rows * Z.to_nat cols)%nat) as Hlen.
    { rewrite <- Hrows. clear -Hrect.
      induction Hrect as [|row m Hrow _ IH]; [done|].
      cbn. rewrite length_app, IH, Hrow. lia. }
    rewrite reshape_tuple by lia.
    by rewrite <- Hrows, unflatten_concat.
Qed.

End ReshapeBounds.

Lemma reshape_tuple_bounds_witness :
  vectorops.reshape (of_vector [1; 2; 3]%Z) (ShapeTuple [2; 2]%Z)
  = Raise IndexError.
Proof.
  apply (proj1 reshape_tuple_bounds [1; 2; 3]%Z 2%Z 2%Z []). cbn. lia.
Defined.

Lemma reshape_round_trips_witness :
  (b <- vectorops.reshape (of_vector [1; 2; 3; 4; 5; 6]%Z)
          (ShapeTuple [2; 3]%Z) ;;
   vectorops.reshape b (ShapeInt 6))
  = Ok (of_vector [1; 2; 3; 4; 5; 6]%Z)
  /\ (f <- vectorops.reshape (of_matrix [[1; 2]; [3; 4]]%Z) (ShapeInt (-1)) ;;
      vectorops.reshape f (ShapeTuple [2; 2]%Z))
     = Ok (of_matrix [[1; 2]; [3; 4]]%Z).
Proof.
  split.
  - apply (proj1 reshape_round_trips); [reflexivity | cbn; lia].
  - apply (proj2 reshape_round_trips);
      [reflexivity | by repeat constructor | cbn; lia].
Defined.

(** ** What the rotation functions read, and how they fail *)

Section RotationArguments.

Context {num : Type} `{Number num}.
Variables (sqrt cos sin : num -> num).

Local Open Scope num_scope.

Lemma div_ok (u : list num) (c : num) :
  num_is_zero c = false ->
  vectorops.div u c = Ok (map (fun x => num_quot x c) u).
Proof.
  intros Hc. unfold vectorops.div.
  rewrite (mapM_index1 (fun x => truediv x c)).
  apply mapM_ok. intros x _. unfold truediv. by rewrite Hc.
Qed.

(** X9.  The outcome of [quaternion_to_rotation_matrix(q)], by the number of
    components of [q] and its magnitude.  The division by the magnitude
    comes first: a list with a component and magnitude zero raises
    ZeroDivisionError whatever its length.  The unpacking into four names
    comes second: the empty list, and a list of another length than four
    with a magnitude that is not zero, raise ValueError.  Four components
    with a magnitude that is not zero give the matrix of the normalized
    quaternion. *)
Theorem quaternion_to_rotation_matrix_outcome (q : list num) :
  let mag := sqrt (builtin_sum (zip_with num_mul q q)) in
  (q <> [] -> num_is_zero mag = true ->
   vectorops.quaternion_to_rotation_matrix sqrt q = Raise ZeroDivisionError)
  /\ ((q = [] \/ num_is_zero mag = false) -> length q <> 4%nat ->
      exists msg,
        vectorops.quaternion_to_rotation_matrix sqrt q
        = Raise (ValueError msg))
  /\ (num_is_zero mag = false ->
      forall w x y z, q = [w; x; y; z] ->
      let qw := num_quot w mag in
      let qx := num_quot x mag in
      let qy := num_quot y mag in
      let qz := num_quot z mag in
      vectorops.quaternion_to_rotation_matrix sqrt q
      = Ok [[qw * qw + qx * qx - qy * qy - qz * qz;
             int_2 * qx * qy - int_2 * qw * qz;
             int_2 * qx * qz + int_2 * qw * qy];
            [int_2 * qx * qy + int_2 * qw * qz;
             qw * qw - qx * qx + qy * qy - qz * qz;
             int_2 * qy * qz - int_2 * qw * qx];
            [int_2 * qx * qz - int_2 * qw * qy;
             int_2 * qy * qz + int_2 * qw * qx;
             qw * qw - qx * qx - qy * qy + qz * qz]]).
Proof.
  intros mag. unfold vectorops.quaternion_to_rotation_matrix.
  rewrite magnitude_ok. cbn [bind]. fold mag.
  split; [|split].
  - intros Hq Hmag. by rewrite div_zero.
  - intros [-> | Hmag] Hlen.
    + by eexists.
    + rewrite div_ok by done. cbn [bind]. unfold unpack4.
      destruct q as [|? [|? [|? [|? [|? ?]]]]]; cbn;
        first [by destruct Hlen | by eexists].
  - intros Hmag w x y z ->. by rewrite div_ok.
Qed.

(** X10.  [euler_to_rotation_matrix] and [axis_angle_to_quaternion] read the
    first three components of their list argument, and further components
    are ignored.  The angles are read in order, each by [math.cos] and then
    [math.sin]: a list of fewer than three angles, none an infinity, raises
    IndexError, and an infinity that comes before the missing angle raises
    ValueError.  [axis_angle_to_quaternion] computes sin(angle / 2) before it
    reads the axis: when [angle / 2] is an infinity it raises ValueError
    whatever the axis, otherwise IndexError on an axis of fewer than three
    components.  The division [angle / 2] never raises, and
    [axis_angle_to_quaternion] returns four components whenever it
    returns. *)
Theorem angle_functions_read_three_components :
  (forall e : list num,
     (length e < 3)%nat ->
     Forall (fun x => num_is_inf x = false) e ->
     vectorops.euler_to_rotation_matrix cos sin e = Raise IndexError)
  /\ (forall (pre : list num) (x : num) (rest : list num),
        (length pre < 3)%nat ->
        Forall (fun x => num_is_inf x = false) pre ->
        num_is_inf x = true ->
        vectorops.euler_to_rotation_matrix cos sin (pre ++ x :: rest)
        = Raise math_domain_error)
  /\ (forall (e0 e1 e2 : num) (rest : list num),
        vectorops.euler_to_rotation_matrix cos sin (e0 :: e1 :: e2 :: rest)
        = vectorops.euler_to_rotation_matrix cos sin [e0; e1; e2])
  /\ (forall (axis : list num) (angle : num),
        num_is_inf (num_quot angle int_2) = true ->
        vectorops.axis_angle_to_quaternion cos sin axis angle
        = Raise math_domain_error)
  /\ (forall (axis : list num) (angle : num),
        num_is_inf (num_quot angle int_2) = false ->
        (length axis < 3)%nat ->
        vectorops.axis_angle_to_quaternion cos sin axis angle
        = Raise IndexError)
  /\ (forall (a0 a1 a2 angle : num) (rest : list num),
        vectorops.axis_angle_to_quaternion cos sin (a0 :: a1 :: a2 :: rest)
          angle
        = vectorops.axis_angle_to_quaternion cos sin [a0; a1; a2] angle)
  /\ (forall (axis : list num) (angle : num) (q : list num),
        vectorops.axis_angle_to_quaternion cos sin axis angle = Ok q ->
        length q = 4%nat).
Proof.
  split; [|split; [|split; [reflexivity|split; [|split; [|split;
    [reflexivity|]]]]]].
  - intros e Hlen Hfinite. unfold vectorops.euler_to_rotation_matrix.
    destruct e as [|e0 [|e1 [|e2 rest]]]; [reflexivity| | |cbn in Hlen; lia];
      repeat match goal with
             | H : Forall _ (_ :: _) |- _ => apply Forall_cons_1 in H as [? H]
             end;
      cbn; by rewrite ?trig_ok by done.
  - intros pre x rest Hlen Hfinite Hx.
    unfold vectorops.euler_to_rotation_matrix.
    destruct pre as [|e0 [|e1 [|e2 pre]]]; [| | |cbn in Hlen; lia];
      repeat match goal with
             | H : Forall _ (_ :: _) |- _ => apply Forall_cons_1 in H as [? H]
             end;
      cbn; rewrite ?trig_ok by done; cbn; by rewrite trig_infinite.
  - intros axis angle. apply axis_angle_to_quaternion_infinite.
  - intros axis angle Hfinite Hlen.
    unfold vectorops.axis_angle_to_quaternion, truediv.
    rewrite int_2_not_zero. cbn [bind]. rewrite !trig_ok by done. cbn [bind].
    destruct axis as [|a0 [|a1 [|a2 rest]]]; try reflexivity.
    cbn in Hlen. lia.
  - intros axis angle q. unfold vectorops.axis_angle_to_quaternion, truediv.
    rewrite int_2_not_zero. cbn [bind].
    destruct (trig sin (num_quot angle int_2)) as [s|]; [|discriminate].
    cbn [bind].
    destruct (trig cos (num_quot angle int_2)) as [c|]; [|discriminate].
    cbn [bind].
    destruct axis as [|a0 [|a1 [|a2 rest]]]; try discriminate.
    cbn. by intros [= <-].
Qed.

End RotationArguments.

Lemma quaternion_to_rotation_matrix_outcome_witness :
  vectorops.quaternion_to_rotation_matrix PrimFloat.sqrt
    [0%float; 0%float; 0%float]
  = Raise ZeroDivisionError
  /\ (exists msg,
        vectorops.quaternion_to_rotation_matrix PrimFloat.sqrt
          [3%float; 4%float; 0%float]
        = Raise (ValueError msg))
  /\ vectorops.quaternion_to_rotation_matrix PrimFloat.sqrt
       [0%float; 2%float; 0%float; 0%float]
     = Ok [[1%float; 0%float; 0%float];
           [0%float; (-1)%float; 0%float];
           [0%float; 0%float; (-1)%float]].
Proof.
  split; [|split].
  - apply (proj1 (quaternion_to_rotation_matrix_outcome PrimFloat.sqrt
                    [0%float; 0%float; 0%float])); [done | reflexivity].
  - apply (proj1 (proj2 (quaternion_to_rotation_matrix_outcome PrimFloat.sqrt
                           [3%float; 4%float; 0%float])));
      [right; reflexivity | cbn; lia].
  - exact (proj2 (proj2 (quaternion_to_rotation_matrix_outcome PrimFloat.sqrt
                           [0%float; 2%float; 0%float; 0%float]))
             eq_refl 0%float 2%float 0%float 0%float eq_refl).
Defined.

Lemma angle_functions_read_three_components_witness :
  (forall cos sin : float -> float,
     vectorops.euler_to_rotation_matrix cos sin [1; 2]%float
     = Raise IndexError)
  /\ (forall cos sin : float -> float,
        vectorops.euler_to_rotation_matrix cos sin [1; infinity]%float
        = Raise math_domain_error).
Proof.
  split; intros cos sin.
  - apply (proj1 (angle_functions_read_three_components cos sin));
      [cbn; lia | by repeat constructor].
  - apply (proj1 (proj2 (angle_functions_read_three_components cos sin))
             [1%float] infinity []);
      [cbn; lia | by repeat constructor | reflexivity].
Defined.

(** ** Where the multiplication of the numbers commutes *)

Section CommutativeProducts.

Context {num : Type} `{Number num}.

Local Open Scope num_scope.

Hypothesis num_mul_comm : forall x y : num, x * y = y * x.

Lemma zip_with_mul_comm (u v : list num) :
  zip_with num_mul u v = zip_with num_mul v u.
Proof using num_mul_comm.
  revert v. induction u as [|x u IH]; intros [|y v]; try done.
  cbn. by rewrite IH, num_mul_comm.
Qed.

(** X11.  On vectors of the same length the order of the arguments of [dot] does
    not matter. *)
Theorem dot_symmetric (u v : list num) :
  length u = length v -> vectorops.dot u v = vectorops.dot v u.
Proof using num_mul_comm.
  intros Hlen. rewrite !dot_ok by lia. by rewrite zip_with_mul_comm.
Qed.

Lemma column_sum_transpose (m : list (list num)) (v : list num)
    (cols c : nat) (row : list num) :
  m <> [] ->
  Forall (fun row => length row = cols) m ->
  length v = cols ->
  m !! c = Some row ->
  column_sum v (vectorops.transpose m) c
  = builtin_sum (zip_with num_mul row v).
Proof using num_mul_comm.
  intros Hne Hrect Hv Hrow.
  destruct (transpose_rect m cols Hrect Hne) as (Hlen & Hcols & Hentry).
  unfold column_sum. f_equal. apply list_eq. intros j.
  rewrite !lookup_zip_with.
  specialize (Hentry c j). unfold entry in Hentry. rewrite Hrow in Hentry.
  cbn in Hentry.
  destruct (v !! j) as [vj|] eqn:Hvj; cbn.
  - destruct (vectorops.transpose m !! j) as [col|] eqn:Hcol; cbn.
    + cbn in Hentry. rewrite Hentry.
      destruct (row !! j) as [x|] eqn:Hx; cbn.
      * by rewrite num_mul_comm.
      * apply lookup_ge_None in Hx. apply lookup_lt_Some in Hvj.
        rewrite Forall_lookup in Hrect. specialize (Hrect _ _ Hrow). lia.
    + apply lookup_ge_None in Hcol. apply lookup_lt_Some in Hvj. lia.
  - by destruct (row !! j).
Qed.

(** X12.  Multiplying a matrix by a vector on the right is multiplying its
    transpose by the vector on the left: for a rectangular matrix with at
    least one row and one column, and a vector with one component per
    column, [matrix_vector_mult(m, v)] and
    [vector_matrix_mult(v, transpose(m))] return the same list. *)
Theorem matrix_vector_mult_by_transpose
    (m : list (list num)) (v : list num) (cols : nat) :
  m <> [] -> (0 < cols)%nat ->
  Forall (fun row => length row = cols) m ->
  length v = cols ->
  vectorops.matrix_vector_mult m v
  = vectorops.vector_matrix_mult v (vectorops.transpose m).
Proof using num_mul_comm.
  intros Hne Hcols Hrect Hv.
  destruct (transpose_rect m cols Hrect Hne) as (Hlen & Hcol & _).
  rewrite matrix_vector_mult_ok
    by (eapply Forall_impl; [exact Hrect|]; cbn; intros; lia).
  assert (vectorops.transpose m <> []) as Hne'.
  { intros Hnil. rewrite Hnil in Hlen. cbn in Hlen. lia. }
  rewrite (vector_matrix_mult_ok _ _ (length m)) by (done || lia).
  f_equal. apply list_eq. intros c. rewrite !list_lookup_fmap.
  destruct (m !! c) as [row|] eqn:Hrow; cbn.
  - rewrite lookup_seq_lt by by eapply lookup_lt_Some. cbn. f_equal.
    symmetry. by apply (column_sum_transpose m v cols c row).
  - by rewrite lookup_seq_ge by by apply lookup_ge_None.
Qed.

End CommutativeProducts.

(** ** Scaling a matrix *)

Section Scaling.

Context {num : Type} `{Number num}.

Local Open Scope num_scope.

Lemma mult_ok (u : list num) (c : num) :
  vectorops.mult u c = Ok (map (fun x => x * c) u).
Proof.
  unfold vectorops.mult. rewrite (mapM_index1 (fun x => Ok (x * c))).
  by apply mapM_ok.
Qed.

(** X25.  [matrix_constant_mult(m, c)] never raises and keeps the shape of
    the matrix, rows of unequal length and the matrix without rows
    included: every row of the result has the length of the row of [m] it
    comes from, and every element is the element of [m] times [c], with [c]
    as the right factor. *)
Theorem matrix_constant_mult_scales (m : list (list num)) (c : num) :
  vectorops.matrix_constant_mult m c = Ok (map (map (fun x => x * c)) m)
  /\ (exists m',
        vectorops.matrix_constant_mult m c = Ok m'
        /\ Forall2 (fun row' row => length row' = length row) m' m
        /\ forall i j x,
             entry m i j = Some x -> entry m' i j = Some (x * c)).
Proof.
  assert (vectorops.matrix_constant_mult m c
          = Ok (map (map (fun x => x * c)) m)) as Hrun.
  { unfold vectorops.matrix_constant_mult. apply mapM_ok.
    intros row _. apply mult_ok. }
  split; [exact Hrun|].
  eexists. split; [exact Hrun|]. split.
  - apply Forall2_fmap_l, Forall_Forall2_diag, Forall_true.
    intros row. apply length_map.
  - intros i j x. unfold entry. rewrite list_lookup_fmap.
    destruct (m !! i) as [row|]; [|discriminate]. cbn.
    rewrite list_lookup_fmap. by intros ->.
Qed.

End Scaling.

(** ** Instances *)

Lemma dot_symmetric_witness :
  vectorops.dot [1; 2]%R [3; 4]%R = vectorops.dot [3; 4]%R [1; 2]%R.
Proof. apply (@dot_symmetric R R_Number Rmult_comm). reflexivity. Defined.

Lemma matrix_vector_mult_by_transpose_witness :
  vectorops.matrix_vector_mult [[1; 2]; [3; 4]; [5; 6]]%R [1; 1]%R
  = vectorops.vector_matrix_mult [1; 1]%R
      (vectorops.transpose [[1; 2]; [3; 4]; [5; 6]]%R).
Proof.
  apply (@matrix_vector_mult_by_transpose R R_Number Rmult_comm _ _ 2);
    [done | lia | by repeat constructor | reflexivity].
Defined.

(** ** transpose and reshape copy references, not objects *)

Section ShallowCopies.

Context {num : Type} `{Number num}.

Abbreviation heap := (heap num).
Abbreviation M := (@Heap.M num).
Abbreviation val := (val num).

Implicit Types (h base hc : heap) (a b v r row : loc) (l zs : list val)
  (ls : list (list val)).

Lemma holds_weaken h h' r l : h ⊆ h' -> holds h r l -> holds h' r l.
Proof. intros Hsub Hr. by eapply lookup_weaken. Qed.

Lemma elem_of_concat {A : Type} (x : A) (xss : list (list A)) :
  x ∈ concat xss -> exists xs, x ∈ xs /\ xs ∈ xss.
Proof.
  induction xss as [|xs xss IH]; cbn; [by intros ?%elem_of_nil|].
  intros [Hx|Hx]%elem_of_app.
  - exists xs. split; [done | by left].
  - destruct (IH Hx) as (xs' & Hx' & Hin). exists xs'. split; [done | by right].
Qed.

Lemma holds_rows_reachable h v ls (x : loc) :
  holds_rows h v ls -> VRef x ∈ concat ls -> reachable h v x.
Proof.
  intros (rs & Hv & Hrows) Hx.
  apply elem_of_concat in Hx as (l & Hx & Hl).
  apply list_elem_of_lookup in Hl as [i Hi].
  destruct (Forall2_lookup_r _ _ _ _ _ Hrows Hi) as (r & Hr & Hrl).
  eapply reachable_step; [exact Hv| |].
  { apply list_elem_of_lookup. exists i. by rewrite list_lookup_fmap, Hr. }
  eapply reachable_step; [exact Hrl | exact Hx | constructor].
Qed.

(** Reading the rows of a stored list of lists. *)
Lemma load_rows_any h (rs : list loc) ls :
  Forall2 (holds h) rs ls ->
  Heap.mapM (fun x => Heap.bind (Heap.as_ref x) (fun r => Heap.load r))
    (VRef <$> rs) h
  = (Ok ls, h).
Proof.
  induction 1 as [|r l rs ls Hr _ IH]; [done|].
  cbn [fmap list_fmap Heap.mapM]. unfold Heap.bind at 1. cbn.
  unfold Heap.load at 1. rewrite Hr.
  unfold Heap.bind at 1. fold (@fmap list _ _ _ (@VRef num) rs).
  by rewrite IH.
Qed.

(** A display per element of [ts]: new lists that hold the elements. *)
Lemma alloc_rows_any (ts : list (list val)) h :
  exists cs h',
    Heap.mapM (fun t => Heap.alloc (builtin_list t)) ts h = (Ok cs, h')
    /\ h ⊆ h'
    /\ Forall2 (holds h') cs ts
    /\ Forall (fun c => c ∉ dom h) cs
    /\ NoDup cs.
Proof.
  revert h. induction ts as [|t ts IH]; intros h.
  - exists [], h. split; [done|]. split; [done|]. split; [constructor|].
    split; constructor.
  - cbn [Heap.mapM]. set (c := fresh (dom h)).
    rewrite (bind_run (Heap.alloc (builtin_list t)) _ h (Ok c)
               (<[c:=t]> h) eq_refl).
    destruct (IH (<[c:=t]> h)) as (cs & h' & Hrun & Hsub & Hcs & Hfresh & Hnd).
    rewrite (bind_run _ _ _ _ _ Hrun).
    assert (h ⊆ <[c:=t]> h) as Hsub0 by apply alloc_extends.
    exists (c :: cs), h'. split; [done|].
    split; [by etransitivity|].
    split; [constructor; [|done]|split].
    + eapply lookup_weaken; [|exact Hsub]. apply lookup_insert_eq.
    + constructor; [apply is_fresh|].
      eapply Forall_impl; [exact Hfresh|]. cbn. intros c' Hc' Hin.
      apply Hc'. by eapply subseteq_dom.
    + constructor; [|done]. intros Hin.
      rewrite Forall_forall in Hfresh. apply (Hfresh c Hin).
      rewrite dom_insert. set_solver.
Qed.

Lemma alloc_outer h (cs : list loc) ts :
  Forall2 (holds h) cs ts ->
  let v := fresh (dom h) in
  let h' := <[v := VRef <$> cs]> h in
  h ⊆ h' /\ holds_rows h' v ts.
Proof.
  intros Hcs v h'.
  assert (h ⊆ h') as Hsub by apply alloc_extends.
  split; [done|]. exists cs. split; [apply lookup_insert_eq|].
  eapply Forall2_impl; [exact Hcs|]. intros c t. by apply holds_weaken.
Qed.

Lemma transpose_copies h a ls :
  holds_rows h a ls ->
  exists v h',
    Heap.transpose a h = (Ok v, h')
    /\ h ⊆ h'
    /\ holds_rows h' v (vectorops.transpose ls).
Proof.
  intros (rs & Ha & Hrows). unfold Heap.transpose.
  assert (Heap.load a h = (Ok (VRef <$> rs), h)) as Hload
    by (unfold Heap.load; by rewrite Ha).
  rewrite (bind_run _ _ _ _ _ Hload).
  rewrite (bind_run _ _ _ _ _ (load_rows_any h rs ls Hrows)).
  destruct (alloc_rows_any (builtin_zip ls) h)
    as (cs & h1 & Hrun & Hsub & Hcs & _ & _).
  rewrite (bind_run _ _ _ _ _ Hrun).
  destruct (alloc_outer h1 cs (vectorops.transpose ls)) as [Hsub' Hv].
  { unfold vectorops.transpose, builtin_list. by rewrite map_id. }
  eexists _, _. split; [reflexivity|]. split; [by etransitivity | done].
Qed.

Lemma reshape_int_copies h a ls (n : Z) :
  holds_rows h a ls ->
  exists v h',
    Heap.reshape a (ShapeInt n) h = (Ok v, h')
    /\ h ⊆ h'
    /\ holds h' v (if decide (0 <= n < Z.of_nat (length (concat ls)))%Z
                   then take (Z.to_nat n) (concat ls)
                   else concat ls).
Proof.
  intros Ha. unfold Heap.reshape.
  set (b := fresh (dom h)). set (h1 := <[b:=[]]> h).
  rewrite (bind_run (Heap.alloc []) _ h (Ok b) h1 eq_refl).
  assert (h ⊆ h1) as Hsub by apply alloc_extends.
  destruct Ha as (rs & Hl & Hrows).
  assert (Heap.load a h1 = (Ok (VRef <$> rs), h1)) as Hload.
  { unfold Heap.load. by rewrite (lookup_weaken _ _ _ _ Hl Hsub). }
  rewrite (bind_run _ _ _ _ _ Hload).
  assert (Forall2 (holds h1) rs ls) as Hrows1.
  { eapply Forall2_impl; [exact Hrows|]. intros r l. by apply holds_weaken. }
  rewrite (bind_run _ _ _ _ _ (load_rows_any h1 rs ls Hrows1)).
  set (flat := fresh (dom h1)). set (h2 := <[flat:=concat ls]> h1).
  rewrite (bind_run (Heap.alloc _) _ h1 (Ok flat) h2 eq_refl).
  assert (h1 ⊆ h2) as Hsub2 by apply alloc_extends.
  case_decide.
  - eexists _, _. split; [reflexivity|]. split.
    + etransitivity; [exact Hsub|]. etransitivity; [exact Hsub2|].
      apply alloc_extends.
    + apply lookup_insert_eq.
  - exists flat, h2. split; [done|]. split; [by etransitivity|].
    apply lookup_insert_eq.
Qed.

Lemma reshape_row_copies base a row l (ys : list nat) zs (i : nat) :
  base !! a = Some l -> row ∉ dom base ->
  (i + length ys <= length l)%nat ->
  Heap.foldM
    (fun (index_ : nat) (y : nat) =>
       Heap.bind (Heap.getitem a index_)
         (fun item => Heap.bind (Heap.append row item)
                        (fun _ => Heap.ret (S index_))))
    i ys (<[row := zs]> base)
  = (Ok (i + length ys)%nat,
     <[row := zs ++ take (length ys) (drop i l)]> base).
Proof.
  intros Ha Hrow. revert zs i.
  induction ys as [|y ys IH]; intros zs i Hlen.
  - cbn. by rewrite app_nil_r, Nat.add_0_r.
  - cbn [length] in Hlen. cbn [Heap.foldM].
    destruct (lookup_lt_is_Some_2 l i ltac:(lia)) as [x Hx].
    assert (a <> row) as Har.
    { intros ->. apply Hrow. by apply elem_of_dom. }
    assert (Heap.getitem a i (<[row := zs]> base)
            = (Ok x, <[row := zs]> base)) as Hget.
    { unfold Heap.getitem, Heap.bind, Heap.load, Heap.lift.
      rewrite lookup_insert_ne by done. rewrite Ha. unfold index.
      by rewrite Hx. }
    assert (Heap.append row x (<[row := zs]> base)
            = (Ok tt, <[row := zs ++ [x]]> base)) as Happ.
    { unfold Heap.append, Heap.bind, Heap.load, Heap.store.
      by rewrite lookup_insert_eq, insert_insert_eq. }
    match goal with
    | |- context [Heap.bind (Heap.bind ?m ?k) _ _] =>
        assert (Heap.bind m k (<[row := zs]> base)
                = (Ok (S i), <[row := zs ++ [x]]> base)) as Hbody
    end.
    { rewrite (bind_run _ _ _ _ _ Hget).
      by rewrite (bind_run _ _ _ _ _ Happ). }
    rewrite (bind_run _ _ _ _ _ Hbody).
    rewrite IH by lia. f_equal; [f_equal; cbn; lia|].
    rewrite (drop_S l x i Hx). cbn. by rewrite <- app_assoc.
Qed.

Lemma reshape_rows_copies h a b l (dims : list Z) (cols : Z)
    (xs : list nat) (rs : list loc) ls (i : nat) hc :
  index dims 1 = Ok cols ->
  h !! a = Some l -> b ∉ dom h -> rows_held h b hc rs ls ->
  (i + length xs * Z.to_nat cols <= length l)%nat ->
  exists rs' h',
    Heap.foldM
      (fun (index_ : nat) (x : nat) =>
         Heap.bind (Heap.alloc [])
           (fun row =>
              Heap.bind (Heap.lift (index dims 1))
                (fun cols =>
                   Heap.bind
                     (Heap.foldM
                        (fun (index_ : nat) (y : nat) =>
                           Heap.bind (Heap.getitem a index_)
                             (fun item =>
                                Heap.bind (Heap.append row item)
                                  (fun _ => Heap.ret (S index_))))
                        index_ (range cols))
                     (fun index_ =>
                        Heap.bind (Heap.append b (VRef row))
                          (fun _ => Heap.ret index_)))))
      i xs hc
    = (Ok (i + length xs * Z.to_nat cols)%nat, h')
    /\ rows_held h b h' rs'
         (ls ++ map (fun x => take (Z.to_nat cols)
                                (drop (i + x * Z.to_nat cols) l))
                    (seq 0 (length xs))).
Proof.
  intros Hcols Ha Hb. revert rs ls i hc.
  induction xs as [|x xs IH]; intros rs ls i hc Hinv Hlen.
  - exists rs, hc. cbn. rewrite app_nil_r, Nat.add_0_r. by split.
  - destruct Hinv as (Hsub & Hbl & Hrows & Hnd).
    cbn [length] in Hlen. cbn [Heap.foldM].
    set (c := Z.to_nat cols) in *.
    set (row := fresh (dom hc)).
    assert (row ∉ dom hc) as Hrow by apply is_fresh.
    assert (row <> b) as Hrb.
    { intros ->. apply Hrow. by apply elem_of_dom. }
    assert (Forall (fun r => r <> row) rs) as Hrs.
    { apply Forall_forall. intros r Hr ->. apply Hrow.
      apply list_elem_of_lookup in Hr as [k Hk].
      destruct (Forall2_lookup_l _ _ _ _ _ Hrows Hk) as (lr & _ & Hlr).
      by apply elem_of_dom. }
    set (zs := take c (drop i l)).
    set (h4 := <[b := VRef <$> (rs ++ [row])]> (<[row := zs]> hc)).
    match goal with
    | |- context [Heap.bind (Heap.bind (Heap.alloc []) ?k) _ hc] =>
        assert (Heap.bind (Heap.alloc []) k hc = (Ok (i + c)%nat, h4))
          as Hbody
    end.
    { rewrite (bind_run (Heap.alloc []) _ hc (Ok row) (<[row := []]> hc)
                 eq_refl).
      rewrite (bind_run (Heap.lift (index dims 1)) _ _ (Ok cols) _
                 ltac:(by rewrite Hcols)).
      rewrite (bind_run _ _ _ _ _
                 (reshape_row_copies hc a row l (range cols) [] i
                    (lookup_weaken _ _ _ _ Ha Hsub) Hrow
                    ltac:(unfold range; rewrite length_seq; lia))).
      unfold range. rewrite length_seq. cbn [app]. fold c zs.
      unfold Heap.append, Heap.bind, Heap.load, Heap.store, Heap.ret.
      rewrite lookup_insert_ne by done. rewrite Hbl.
      unfold h4. by rewrite fmap_app. }
    rewrite (bind_run _ _ _ _ _ Hbody).
    destruct (IH (rs ++ [row]) (ls ++ [zs]) (i + c)%nat h4) as
      (rs' & h' & Hrun & Hinv'); [|lia|].
    { unfold rows_held, h4. split; [|split; [|split]].
      - apply map_subseteq_spec. intros r lr Hr.
        rewrite !lookup_insert_ne; [by eapply lookup_weaken| |].
        + intros ->. apply Hrow. eapply subseteq_dom; [exact Hsub|].
          by apply elem_of_dom.
        + intros ->. by apply Hb, elem_of_dom.
      - apply lookup_insert_eq.
      - apply Forall2_app.
        + apply Forall2_same_length_lookup_2; [by eapply Forall2_length|].
          intros k r lr Hr Hlr.
          pose proof (Forall2_lookup_lr _ _ _ _ _ _ Hrows Hr Hlr) as Hst.
          unfold holds. rewrite !lookup_insert_ne; [done| |].
          * rewrite Forall_lookup in Hrs. intros Heq.
            by apply (Hrs k r Hr).
          * apply NoDup_cons in Hnd as [Hnb _]. intros ->.
            apply Hnb. by eapply list_elem_of_lookup_2.
        + constructor; [|done]. unfold holds.
          rewrite lookup_insert_ne by done. apply lookup_insert_eq.
      - apply NoDup_cons in Hnd as [Hnb Hnd]. apply NoDup_cons. split.
        + rewrite elem_of_app, list_elem_of_singleton. intros [?|?]; done.
        + apply NoDup_app. split; [done|]. split; [|apply NoDup_singleton].
          intros r Hr ->%list_elem_of_singleton.
          rewrite Forall_forall in Hrs. by apply (Hrs row Hr). }
    exists rs', h'. split.
    + rewrite Hrun. do 2 f_equal. cbn [length]. lia.
    + cbn [length].
      replace (ls ++ map _ (seq 0 (S (length xs))))
        with ((ls ++ [zs])
              ++ map (fun x0 => take c (drop (i + c + x0 * c) l))
                     (seq 0 (length xs))); [done|].
      rewrite <- app_assoc. f_equal. cbn [seq map app]. f_equal.
      * unfold zs. do 2 f_equal. lia.
      * rewrite <- fmap_S_seq, <- list_fmap_compose.
        apply list_fmap_ext. intros _ k _. cbn. do 2 f_equal. lia.
Qed.

Lemma reshape_tuple_copies h a l (rows cols : Z) (rest : list Z) :
  h !! a = Some l ->
  (Z.to_nat rows * Z.to_nat cols <= length l)%nat ->
  exists v h',
    Heap.reshape a (ShapeTuple (rows :: cols :: rest)) h = (Ok v, h')
    /\ h ⊆ h'
    /\ holds_rows h' v (unflatten (Z.to_nat rows) (Z.to_nat cols) l)
    /\ distinct_rows h' v.
Proof.
  intros Ha Hlen. unfold Heap.reshape.
  set (b := fresh (dom h)). set (h1 := <[b:=[]]> h).
  rewrite (bind_run (Heap.alloc []) _ h (Ok b) h1 eq_refl).
  rewrite (bind_run (Heap.lift (index (rows :: cols :: rest) 0)) _ h1
             (Ok rows) h1 eq_refl).
  assert (rows_held h b h1 [] []) as Hinv.
  { split; [apply alloc_extends|]. split; [apply lookup_insert_eq|].
    split; [constructor|]. apply NoDup_singleton. }
  destruct (reshape_rows_copies h a b l (rows :: cols :: rest) cols
              (range rows) [] [] 0 h1 eq_refl Ha (is_fresh _) Hinv)
    as (rs & h' & Hrun & Hsub & Hb & Hrows & Hnd).
  { unfold range. rewrite length_seq. lia. }
  rewrite (bind_run _ _ _ _ _ Hrun).
  exists b, h'. split; [done|]. split; [done|].
  unfold range in Hrows. rewrite length_seq in Hrows. cbn [app] in Hrows.
  split; exists rs; by split.
Qed.

(** X26.  [transpose] and [reshape] copy the elements of their argument as they
    are.  On numbers that is a copy; where the elements are themselves
    lists, the new rows hold references to the same list objects as the
    argument, so those objects are shared between argument and result.
    The store is the one of the call extended by the new lists. *)
Theorem transpose_and_reshape_copy_references :
  (forall h a ls,
     holds_rows h a ls ->
     exists v h',
       Heap.transpose a h = (Ok v, h')
       /\ h ⊆ h'
       /\ holds_rows h' v (vectorops.transpose ls)
       /\ forall x, VRef x ∈ concat (vectorops.transpose ls) ->
                    reachable h' v x)
  /\ (forall h a l (rows cols : Z),
        holds h a l ->
        (Z.to_nat rows * Z.to_nat cols <= length l)%nat ->
        exists v h',
          Heap.reshape a (ShapeTuple [rows; cols]) h = (Ok v, h')
          /\ h ⊆ h'
          /\ holds_rows h' v (unflatten (Z.to_nat rows) (Z.to_nat cols) l)
          /\ forall x,
               VRef x ∈ take (Z.to_nat rows * Z.to_nat cols) l ->
               reachable h' v x)
  /\ (forall h a ls (n : Z),
        holds_rows h a ls ->
        exists v h',
          Heap.reshape a (ShapeInt n) h = (Ok v, h')
          /\ h ⊆ h'
          /\ holds h' v
               (if decide (0 <= n < Z.of_nat (length (concat ls)))%Z
                then take (Z.to_nat n) (concat ls)
                else concat ls)).
Proof.
  split; [|split].
  - intros h a ls Ha.
    destruct (transpose_copies h a ls Ha) as (v & h' & Hrun & Hsub & Hv).
    exists v, h'. split; [done|]. split; [done|]. split; [done|].
    intros x. by apply holds_rows_reachable.
  - intros h a l rows cols Ha Hlen.
    destruct (reshape_tuple_copies h a l rows cols [] Ha Hlen)
      as (v & h' & Hrun & Hsub & Hv & _).
    exists v, h'. split; [done|]. split; [done|]. split; [done|].
    intros x Hx. apply (holds_rows_reachable _ _ _ _ Hv).
    by rewrite concat_unflatten.
  - apply reshape_int_copies.
Qed.

End ShallowCopies.

(** ** The rows of a result are objects of their own *)

Section DistinctRows.

Context {num : Type} `{Number num}.
Variables (sqrt cos sin : num -> num).

Abbreviation heap := (heap num).
Abbreviation M := (@Heap.M num).

Implicit Types (h : heap) (v r : loc).

Lemma returns_distinct_rows_bind {A : Type} (m : M A) (k : A -> M loc) :
  (forall a, returns_distinct_rows (k a)) ->
  returns_distinct_rows (Heap.bind m k).
Proof.
  intros Hk h v h'. unfold Heap.bind.
  destruct (m h) as [[a|e] h1]; [apply Hk | discriminate].
Qed.

Lemma allocates_object_of_vector (m : M loc) :
  allocates_vector m -> allocates_object m.
Proof.
  intros Hm h. destruct (Hm h) as [Hsub Hv]. split; [done|].
  intros v Hrun. destruct (Hv v Hrun) as [Hfresh (l & Hl & _)].
  split; [done | by apply elem_of_dom].
Qed.

Lemma allocates_object_alloc (l : list (val num)) :
  allocates_object (Heap.alloc l).
Proof.
  intros h. split; [apply alloc_extends|]. cbn. intros v [= <-].
  split; [apply is_fresh|]. rewrite dom_insert. set_solver.
Qed.

Lemma allocates_object_bind {A : Type} (m : M A) (k : A -> M loc) :
  read_only m -> (forall a, allocates_object (k a)) ->
  allocates_object (Heap.bind m k).
Proof.
  intros Hm Hk h. unfold Heap.bind. specialize (Hm h).
  destruct (m h) as [[a|e] h1]; cbn in Hm; subst h1; [apply Hk|].
  split; [done | discriminate].
Qed.

Lemma mapM_allocates_distinct {A : Type} (f : A -> M loc) (xs : list A)
    h (rs : list loc) h' :
  (forall x, x ∈ xs -> allocates_object (f x)) ->
  Heap.mapM f xs h = (Ok rs, h') ->
  h ⊆ h' /\ NoDup rs /\ Forall (fun r => (r ∉ dom h) /\ r ∈ dom h') rs.
Proof.
  revert h rs. induction xs as [|x xs IH]; intros h rs Hf.
  - cbn. intros [= <- <-]. split; [done|]. split; constructor.
  - cbn [Heap.mapM]. unfold Heap.bind at 1.
    destruct (Hf x ltac:(left) h) as [Hsub Hfresh].
    destruct (f x h) as [[y|e] h1]; [|discriminate].
    cbn in Hsub, Hfresh. destruct (Hfresh y eq_refl) as [Hy Hy1].
    unfold Heap.bind at 1.
    destruct (Heap.mapM f xs h1) as [[ys|e] h2] eqn:Hrun; [|discriminate].
    cbn. intros [= <- <-].
    destruct (IH h1 ys (fun x' Hx' => Hf x' ltac:(by right)) Hrun)
      as (Hsub' & Hnd & Hys).
    split; [by etransitivity|]. split.
    + constructor; [|done]. intros Hin.
      rewrite Forall_forall in Hys. by destruct (Hys y Hin).
    + constructor.
      * split; [done|]. by eapply subseteq_dom.
      * eapply Forall_impl; [exact Hys|]. cbn. intros r [Hr1 Hr2].
        split; [|done]. intros Hr. apply Hr1. by eapply subseteq_dom.
Qed.

(** A comprehension that builds the rows, then the list of the rows. *)
Lemma returns_distinct_rows_comprehension {A : Type} (f : A -> M loc)
    (xs : list A) :
  (forall x, x ∈ xs -> allocates_object (f x)) ->
  returns_distinct_rows
    (Heap.bind (Heap.mapM f xs) (fun rs => Heap.alloc (VRef <$> rs))).
Proof.
  intros Hf h v h'. unfold Heap.bind.
  destruct (Heap.mapM f xs h) as [[rs|e] h1] eqn:Hrun; [|discriminate].
  cbn. intros [= <- <-].
  destruct (mapM_allocates_distinct f xs h rs h1 Hf Hrun)
    as (_ & Hnd & Hrs).
  exists rs. split; [apply lookup_insert_eq|].
  constructor; [|done]. intros Hin.
  rewrite Forall_forall in Hrs. destruct (Hrs _ Hin) as [_ Hdom].
  by apply (is_fresh (dom h1)).
Qed.

Lemma returns_distinct_rows_alloc_matrix (rows : list (list num)) :
  returns_distinct_rows
    (Heap.bind (Heap.alloc_matrix rows) (fun mx => Heap.ret mx)).
Proof.
  intros h v h'. unfold Heap.bind at 1.
  destruct (Heap.alloc_matrix rows h) as [[mx|e] h1] eqn:Hrun;
    [|discriminate].
  cbn. intros [= <- <-]. revert Hrun.
  apply returns_distinct_rows_comprehension.
  intros row _. apply allocates_object_alloc.
Qed.

Lemma quaternion_to_rotation_matrix_distinct q :
  returns_distinct_rows (Heap.quaternion_to_rotation_matrix sqrt q).
Proof.
  unfold Heap.quaternion_to_rotation_matrix.
  do 4 (apply returns_distinct_rows_bind; intros ?).
  destruct a2 as [[[qw qx] qy] qz].
  do 4 (apply returns_distinct_rows_bind; intros ?).
  apply returns_distinct_rows_alloc_matrix.
Qed.

Lemma euler_to_rotation_matrix_distinct a :
  returns_distinct_rows (Heap.euler_to_rotation_matrix cos sin a).
Proof.
  unfold Heap.euler_to_rotation_matrix.
  do 12 (apply returns_distinct_rows_bind; intros ?).
  apply returns_distinct_rows_alloc_matrix.
Qed.

Lemma matrix_constant_mult_distinct m c :
  returns_distinct_rows (Heap.matrix_constant_mult m c).
Proof.
  unfold Heap.matrix_constant_mult.
  apply returns_distinct_rows_bind. intros rows.
  apply returns_distinct_rows_comprehension. intros row_m _.
  apply allocates_object_of_vector.
  apply allocates_vector_bind; [apply read_only_extends; auto with store|].
  intros r. apply mult_allocates.
Qed.

Lemma matrix_mult_distinct a b :
  returns_distinct_rows (Heap.matrix_mult a b).
Proof.
  unfold Heap.matrix_mult.
  apply returns_distinct_rows_bind. intros rows.
  apply returns_distinct_rows_comprehension. intros row_a _.
  apply allocates_object_of_vector.
  apply allocates_vector_bind; [apply read_only_extends; auto with store|].
  intros r. apply vector_matrix_mult_allocates.
Qed.

Lemma transpose_distinct a :
  returns_distinct_rows (Heap.transpose (num:=num) a).
Proof.
  unfold Heap.transpose.
  do 2 (apply returns_distinct_rows_bind; intros ?).
  apply returns_distinct_rows_comprehension. intros t _.
  apply allocates_object_alloc.
Qed.

(** X27.  No operation returns a matrix with a row used twice: whenever
    [quaternion_to_rotation_matrix], [euler_to_rotation_matrix],
    [axis_angle_to_rotation_matrix], [matrix_constant_mult], [matrix_mult]
    or [transpose] returns, and whenever [reshape] cuts a list that holds
    the rows*cols elements, the rows of the result are list objects that are
    pairwise different and different from the result itself, so that an
    assignment to one row changes no other. *)
Theorem matrix_results_have_distinct_rows h v h' :
  (forall q,
     Heap.quaternion_to_rotation_matrix sqrt q h = (Ok v, h') ->
     distinct_rows h' v)
  /\ (forall a,
        Heap.euler_to_rotation_matrix cos sin a h = (Ok v, h') ->
        distinct_rows h' v)
  /\ (forall axis angle,
        Heap.axis_angle_to_rotation_matrix sqrt cos sin axis angle h
        = (Ok v, h') ->
        distinct_rows h' v)
  /\ (forall m c,
        Heap.matrix_constant_mult m c h = (Ok v, h') -> distinct_rows h' v)
  /\ (forall a b, Heap.matrix_mult a b h = (Ok v, h') -> distinct_rows h' v)
  /\ (forall a, Heap.transpose a h = (Ok v, h') -> distinct_rows h' v)
  /\ (forall a l (rows cols : Z),
        holds h a l ->
        (Z.to_nat rows * Z.to_nat cols <= length l)%nat ->
        Heap.reshape a (ShapeTuple [rows; cols]) h = (Ok v, h') ->
        distinct_rows h' v).
Proof.
  split; [intros q; apply quaternion_to_rotation_matrix_distinct|].
  split; [intros a; apply euler_to_rotation_matrix_distinct|].
  split.
  { intros axis angle. unfold Heap.axis_angle_to_rotation_matrix.
    apply returns_distinct_rows_bind. intros q.
    apply quaternion_to_rotation_matrix_distinct. }
  split; [intros m c; apply matrix_constant_mult_distinct|].
  split; [intros a b; apply matrix_mult_distinct|].
  split; [intros a; apply transpose_distinct|].
  intros a l rows cols Ha Hlen Hrun.
  destruct (reshape_tuple_copies h a l rows cols [] Ha Hlen)
    as (v' & h'' & Hrun' & _ & _ & Hd).
  rewrite Hrun in Hrun'. by injection Hrun' as <- <-.
Qed.

End DistinctRows.

Lemma example_store_holds :
  stores_vector example_store 1%positive [1; 2]%R
  /\ stores_vector example_store 2%positive [3; 4]%R
  /\ stores_matrix example_store 3%positive [[1; 2]; [3; 4]]%R.
Proof.
  split; [reflexivity|]. split; [reflexivity|].
  exists [1%positive; 2%positive]. split; [reflexivity|].
  by repeat constructor.
Qed.

Lemma store_agrees_with_lists_witness :
  returns_vector (Ok [4; 6]%R)
    (Heap.add 1%positive 2%positive example_store)
  /\ returns_matrix (Ok [[1; 3]; [2; 4]]%R)
       (Heap.transpose 3%positive example_store).
Proof.
  destruct example_store_holds as (Hu & Hv & Hm).
  destruct (store_agrees_with_lists
              R_sqrt.sqrt Rtrigo_def.cos Rtrigo_def.sin Rabs R_atan2
              example_store 1%positive 2%positive 3%positive 3%positive
              [1; 2]%R [3; 4]%R [[1; 2]; [3; 4]]%R [[1; 2]; [3; 4]]%R 0%R
              Hu Hv Hm Hm)
    as (_ & _ & Hadd & _ & _ & _ & _ & _ & _ & _ & _ & _ & _ & _ & _ & Ht & _).
  split; [|exact Ht].
  replace [4; 6]%R with [1 + 3; 2 + 4]%R by (repeat f_equal; lra).
  exact Hadd.
Defined.

Lemma nested_store_holds :
  holds_rows nested_store 4%positive [[VRef 1%positive; VRef 2%positive]].
Proof.
  exists [3%positive]. split; [reflexivity|]. by repeat constructor.
Qed.

Lemma transpose_and_reshape_copy_references_witness :
  exists v h',
    Heap.transpose 4%positive nested_store = (Ok v, h')
    /\ reachable h' v 1%positive
    /\ 1%positive ∈ dom nested_store.
Proof.
  destruct (proj1 transpose_and_reshape_copy_references
              nested_store 4%positive _ nested_store_holds)
    as (v & h' & Hrun & _ & _ & Hreach).
  exists v, h'. split; [exact Hrun|]. split.
  - apply Hreach. cbn. left.
  - apply elem_of_dom. by eexists.
Defined.

Lemma matrix_results_have_distinct_rows_witness :
  exists v h',
    Heap.transpose 3%positive example_store = (Ok v, h')
    /\ distinct_rows h' v.
Proof.
  assert (holds_rows example_store 3%positive
            [[VNum 1%R; VNum 2%R]; [VNum 3%R; VNum 4%R]]) as Hm.
  { exists [1%positive; 2%positive]. split; [reflexivity|].
    by repeat constructor. }
  destruct (transpose_copies example_store 3%positive _ Hm)
    as (v & h' & Hrun & _).
  exists v, h'. split; [exact Hrun|].
  destruct (matrix_results_have_distinct_rows
              R_sqrt.sqrt Rtrigo_def.cos Rtrigo_def.sin example_store v h')
    as (_ & _ & _ & _ & _ & Ht & _).
  by apply (Ht 3%positive).
Defined.
